(** * Box and polygon overlap utilities of gluoncv/utils/bbox.py

    A shallow embedding of the functions of [bbox.py] and the properties
    its specification states about them.

    Numbers.  The functions are modelled twice.  The first model
    computes with ideal numbers, the rationals [Q]: comparisons,
    [maximum], [minimum] and [clip] are exact on the numbers an array
    holds, and the arithmetic [+], [-], [*], [/] neither rounds nor
    overflows.  It carries the properties that do not depend on the
    arithmetic of an element type: shapes, exceptions, the order of the
    operations, comparisons and clipping.  Equalities between computed
    numbers are stated with [==] ([Qeq]); a true division whose divisor
    is zero gives numpy's [nan] or [inf] and is modelled as [None].  The
    second model (part "Machine arithmetic") follows the same code with
    the arithmetic of [int64], which wraps around, and of [float64] and
    [float32], which round, overflow to an infinity and have a nan; it
    carries the properties that depend on that arithmetic.

    Arrays.  A two-dimensional ndarray is the list of its rows together
    with its second dimension (which an array with no row still has).
    The converters are modelled on tuples, lists, ndarrays of one and of
    two dimensions and objects of another type; an ndarray of no or of
    more than two dimensions is not represented.

    Exceptions.  A function that can raise returns a [result].

    Libraries.  The geometry of shapely and the numeric primitives of
    numpy and OpenCV are interfaces ([Shapely], [Numerics],
    [Float.Numerics]); every theorem holds for each of their
    instances. *)

From Stdlib Require Import List Bool Arith PeanoNat Lia.
From Stdlib Require Import ZArith QArith Qabs Qminmax Lqa Qpower.
Import ListNotations.

Open Scope Q_scope.

(** ** Exceptions *)

Inductive exn : Type :=
| IndexError
| TypeError
| ValueError
| TopologicalError.

Inductive result (A : Type) : Type :=
| Ok (a : A)
| Raise (e : exn).

Arguments Ok {A} a.
Arguments Raise {A} e.

Definition bind {A B : Type} (c : result A) (k : A -> result B) : result B :=
  match c with
  | Ok a => k a
  | Raise e => Raise e
  end.

Declare Scope result_scope.
Delimit Scope result_scope with result.
Notation "x <- c ;; k" := (bind c (fun x => k))
  (at level 61, c at next level, right associativity) : result_scope.
Open Scope result_scope.

(** [for x in xs: ...] collecting one value per iteration; the first
    exception ends the loop. *)
Fixpoint for_each {A B : Type} (f : A -> result B) (xs : list A)
  : result (list B) :=
  match xs with
  | [] => Ok []
  | x :: xs' =>
      y <- f x ;;
      ys <- for_each f xs' ;;
      Ok (y :: ys)
  end.

(** ** numpy fragment *)

Module Np.

(** A 2-D ndarray: its rows and [shape[1]]. *)
Record ndarray (A : Type) : Type := mk_ndarray {
  rows : list (list A);
  shape1 : nat
}.
Arguments mk_ndarray {A} rows shape1.
Arguments rows {A} n.
Arguments shape1 {A} n.

Definition shape0 {A : Type} (a : ndarray A) : nat := length (rows a).
Definition size {A : Type} (a : ndarray A) : nat := (shape0 a * shape1 a)%nat.

(** Every row has [shape[1]] entries. *)
Definition well_shaped {A : Type} (a : ndarray A) : bool :=
  forallb (fun r => length r =? shape1 a)%nat (rows a).

(** Elementwise operation on two rows of equal length. *)
Definition zip_with {A B C : Type} (f : A -> B -> C)
  (r1 : list A) (r2 : list B) : list C :=
  map (fun p => f (fst p) (snd p)) (combine r1 r2).

(** [np.prod] along the last axis. *)
Definition prod (r : list Q) : Q := fold_left Qmult r 1.

(** [.all()] along the last axis. *)
Definition all (r : list bool) : bool := forallb (fun b => b) r.

(** [a < b] on numbers. *)
Definition lt (a b : Q) : bool := negb (Qle_bool b a).

(** A boolean used as a factor: [True] is 1 and [False] is 0. *)
Definition of_bool (b : bool) : Q := if b then 1 else 0.

(** True division ([from __future__ import division]); [None] is the
    [nan] or [inf] of a zero divisor. *)
Definition divide (x y : Q) : option Q :=
  if Qeq_bool y 0 then None else Some (x / y).

(** [np.clip(x, lo, hi)], which numpy defines as
    [minimum(hi, maximum(x, lo))]. *)
Definition clip (x lo hi : Q) : Q := Qmin hi (Qmax x lo).

(** The transpose of an array with [shape1 a] columns. *)
Fixpoint transpose_rows {A : Type} (k : nat) (rs : list (list A))
  : list (list A) :=
  match rs with
  | [] => repeat [] k
  | r :: rs' => zip_with cons r (transpose_rows k rs')
  end.

Definition transpose {A : Type} (a : ndarray A) : ndarray A :=
  mk_ndarray (transpose_rows (shape1 a) (rows a)) (shape0 a).

End Np.

(** ** bbox_iou *)

(** [row[:2]] and [row[2:4]] of one row of a box table. *)
Definition top_left (r : list Q) : list Q := firstn 2 r.
Definition bottom_right (r : list Q) : list Q := firstn 2 (skipn 2 r).

(** Entry [(i, j)] of [tl] and [br]. *)
Definition tl (ra rb : list Q) : list Q :=
  Np.zip_with Qmax (top_left ra) (top_left rb).
Definition br (ra rb : list Q) : list Q :=
  Np.zip_with Qmin (bottom_right ra) (bottom_right rb).

(** Entry [(i, j)] of [area_i]. *)
Definition area_i (offset : Q) (ra rb : list Q) : Q :=
  Np.prod (map (fun d => d + offset) (Np.zip_with Qminus (br ra rb) (tl ra rb)))
  * Np.of_bool (Np.all (Np.zip_with Np.lt (tl ra rb) (br ra rb))).

(** Entry [i] of [area_a] (and of [area_b]). *)
Definition area (offset : Q) (r : list Q) : Q :=
  Np.prod (map (fun d => d + offset)
             (Np.zip_with Qminus (bottom_right r) (top_left r))).

(** Entry [(i, j)] of the returned quotient. *)
Definition iou_entry (offset : Q) (ra rb : list Q) : option Q :=
  Np.divide (area_i offset ra rb)
            (area offset ra + area offset rb - area_i offset ra rb).

Definition bbox_iou (bbox_a bbox_b : Np.ndarray Q) (offset : Q)
  : result (Np.ndarray (option Q)) :=
  if ((Np.shape1 bbox_a <? 4) || (Np.shape1 bbox_b <? 4))%nat
  then Raise IndexError
  else Ok (Np.mk_ndarray
             (map (fun ra => map (fun rb => iou_entry offset ra rb)
                               (Np.rows bbox_b))
                  (Np.rows bbox_a))
             (Np.shape0 bbox_b)).

(** ** Box format conversions and clipping *)

(** The argument of the three converters, by the type tests they make. *)
Inductive pyobj : Type :=
| Seq (l : list Q)              (* a tuple or a list *)
| Array1 (l : list Q)           (* an ndarray with ndim 1 *)
| Array2 (a : Np.ndarray Q)     (* an ndarray with ndim 2 *)
| Other.                        (* not a tuple, a list or an ndarray *)

(** [a[:, :2]] and [a[:, 2:4]] have [min 2 k] and [min 4 k - 2] columns. *)
Definition cols_lo (k : nat) : nat := Nat.min 2 k.
Definition cols_hi (k : nat) : nat := (Nat.min 4 k - 2)%nat.

(** numpy's broadcasting of two operands with equal first dimension and
    second dimensions [c1] and [c2]. *)
Definition broadcastable (c1 c2 : nat) : bool :=
  ((c1 =? c2) || (c1 =? 1) || (c2 =? 1))%nat.

Definition broadcast (f : Q -> Q -> Q) (r1 r2 : list Q) : list Q :=
  if (length r1 =? length r2)%nat then Np.zip_with f r1 r2
  else if (length r1 =? 1)%nat then map (f (hd 0 r1)) r2
  else map (fun x => f x (hd 0 r2)) r1.

Definition broadcast_cols (c1 c2 : nat) : nat :=
  if (c1 =? c2)%nat then c1 else if (c1 =? 1)%nat then c2 else c1.

Definition bbox_xywh_to_xyxy (xywh : pyobj) : result pyobj :=
  match xywh with
  | Seq l =>
      match l with
      | [x; y; w0; h0] =>
          let w := Qmax (w0 - 1) 0 in
          let h := Qmax (h0 - 1) 0 in
          Ok (Seq [x; y; x + w; y + h])
      | _ => Raise IndexError
      end
  | Array1 _ => Raise IndexError      (* the size test, or [xywh[:, :2]] *)
  | Array2 a =>
      if negb (Np.size a mod 4 =? 0)%nat then Raise IndexError
      else
        let k := Np.shape1 a in
        if negb (broadcastable (cols_lo k) (cols_hi k)) then Raise ValueError
        else
          Ok (Array2 (Np.mk_ndarray
                (map (fun r =>
                        top_left r ++
                        broadcast Qplus (top_left r)
                          (map (fun d => Qmax 0 (d - 1)) (bottom_right r)))
                     (Np.rows a))
                (cols_lo k + broadcast_cols (cols_lo k) (cols_hi k))))
  | Other => Raise TypeError
  end.

Definition bbox_xyxy_to_xywh (xyxy : pyobj) : result pyobj :=
  match xyxy with
  | Seq l =>
      match l with
      | [x1; y1; x2; y2] =>
          let w := x2 - x1 + 1 in
          let h := y2 - y1 + 1 in
          Ok (Seq [x1; y1; w; h])
      | _ => Raise IndexError
      end
  | Array1 _ => Raise IndexError
  | Array2 a =>
      if negb (Np.size a mod 4 =? 0)%nat then Raise IndexError
      else
        let k := Np.shape1 a in
        if negb (broadcastable (cols_hi k) (cols_lo k)) then Raise ValueError
        else
          Ok (Array2 (Np.mk_ndarray
                (map (fun r =>
                        top_left r ++
                        map (fun d => d + 1)
                          (broadcast Qminus (bottom_right r) (top_left r)))
                     (Np.rows a))
                (cols_lo k + broadcast_cols (cols_hi k) (cols_lo k))))
  | Other => Raise TypeError
  end.

(** [minimum(bound - 1, maximum(0, v))]. *)
Definition clip_coord (bound v : Q) : Q := Qmin (bound - 1) (Qmax 0 v).

(** [a[:, j]]. *)
Definition column (j : nat) (a : Np.ndarray Q) : result (list Q) :=
  if (j <? Np.shape1 a)%nat
  then Ok (map (fun r => nth j r 0) (Np.rows a))
  else Raise IndexError.

Definition bbox_clip_xyxy (xyxy : pyobj) (width height : Q) : result pyobj :=
  match xyxy with
  | Seq l =>
      match l with
      | [a0; a1; a2; a3] =>
          let x1 := clip_coord width a0 in
          let y1 := clip_coord height a1 in
          let x2 := clip_coord width a2 in
          let y2 := clip_coord height a3 in
          Ok (Seq [x1; y1; x2; y2])
      | _ => Raise IndexError
      end
  | Array1 _ => Raise IndexError
  | Array2 a =>
      if negb (Np.size a mod 4 =? 0)%nat then Raise IndexError
      else
        c0 <- column 0 a ;;
        let x1 := map (clip_coord width) c0 in
        c1 <- column 1 a ;;
        let y1 := map (clip_coord height) c1 in
        c2 <- column 2 a ;;
        let x2 := map (clip_coord width) c2 in
        c3 <- column 3 a ;;
        let y2 := map (clip_coord height) c3 in
        Ok (Array1 (x1 ++ y1 ++ x2 ++ y2))
  | Other => Raise TypeError
  end.

(** ** polygon_iou *)

Definition point : Type := (Q * Q)%type.

(** A polygon is the list of its points (an ndarray of shape [(P, 2)]);
    a collection of polygons is a list of them. *)
Definition polygon : Type := list point.

(** [try: body  except TopologicalError: handler]. *)
Definition except_TopologicalError {A : Type} (body : result A) (handler : A)
  : result A :=
  match body with
  | Raise TopologicalError => Ok handler
  | r => r
  end.

(** The geometry library (shapely): the geometries it builds and the
    three computations [polygon_iou] asks of it.  Each may raise. *)
Class Shapely : Type := {
  geometry : Type;
  (** [Polygon(points).convex_hull] *)
  Polygon_convex_hull : polygon -> result geometry;
  (** [g.intersection(h).area] *)
  intersection_area : geometry -> geometry -> result Q;
  (** [MultiPoint(points).convex_hull.area] *)
  MultiPoint_convex_hull_area : list point -> result Q
}.

(** The numeric primitives of numpy and OpenCV that have no exact
    rational counterpart. *)
Class Numerics : Type := {
  (** [chebyshev.chebval(t, c)] for a series [c] with a coefficient *)
  chebval : Q -> list Q -> Q;
  (** [np.sqrt] *)
  sqrt : Q -> Q;
  (** [cv.polarToCart(r, angle, angleInDegrees=True)] on one entry *)
  polarToCart : Q -> Q -> Q * Q;
  (** [.astype(np.float32)] on one entry *)
  float32 : Q -> Q
}.

Section PolygonIou.

Context {G : Shapely}.

(** The body of the inner loop from [try:] on: the value stored at
    [polygon_ious[n][m]]. *)
Definition pair_iou (polygon_a polygon_b : polygon) (polya polyb : geometry)
  : result Q :=
  except_TopologicalError
    (inter_area <- intersection_area polya polyb ;;
     let union_poly := polygon_a ++ polygon_b in
     union_area <- MultiPoint_convex_hull_area union_poly ;;
     let iou :=
       if Qeq_bool union_area 0 || Qeq_bool inter_area 0 then 0
       else inter_area / union_area in
     Ok iou)
    0.

(** Every entry of the zero matrix is overwritten once, in row-major
    order, so the matrix is built row by row. *)
Definition polygon_iou (polygon_as polygon_bs : list polygon)
  : result (Np.ndarray Q) :=
  let M := length polygon_bs in
  polygon_ious <-
    for_each
      (fun polygon_a =>
         polya <- Polygon_convex_hull polygon_a ;;
         for_each
           (fun polygon_b =>
              polyb <- Polygon_convex_hull polygon_b ;;
              pair_iou polygon_a polygon_b polya polyb)
           polygon_bs)
      polygon_as ;;
  Ok (Np.mk_ndarray polygon_ious M).

End PolygonIou.

(** ** cheby and coef_trans_polygon *)

Section Reconstruction.

Context {N : Numerics}.

(** [np.linspace(-1, 1, 360)]: [arange(360) * step + start]. *)
Definition theta : list Q :=
  map (fun i => inject_Z (Z.of_nat i) * ((1 - -1) / 359) + -1) (seq 0 360).

(** [chebval] reads the last two coefficients of a series that has
    neither one nor two of them, and raises [IndexError] on an empty
    one. *)
Definition cheby (coef : Np.ndarray Q) : result (list (list Q)) :=
  if (Np.shape1 coef =? 0)%nat then Raise IndexError
  else Ok (map (fun c => map (fun t => chebval t c) theta) (Np.rows coef)).

(** [np.arange(359, -1, -1)] *)
Definition theta_list : list Q :=
  map (fun i => inject_Z (Z.of_nat i)) (rev (seq 0 360)).

(** Broadcasting along the first axis of [(n1, c)] with [(n2, 1)]. *)
Definition broadcast0 {A B C : Type} (f : A -> B -> C)
  (xs : list A) (ys : list B) : result (list C) :=
  if (length xs =? length ys)%nat then Ok (Np.zip_with f xs ys)
  else
    match xs, ys with
    | [x], _ => Ok (map (f x) ys)
    | _, [y] => Ok (map (fun x => f x y) xs)
    | _, _ => Raise ValueError
    end.

(** OpenCV returns no array for an empty [rs], and the sum that follows
    raises [TypeError]. *)
Definition coef_trans_polygon (coefs bboxs centers : Np.ndarray Q)
  : result (list polygon) :=
  bboxs_x1 <- column 0 bboxs ;;
  bboxs_x2 <- column 2 bboxs ;;
  bboxs_y1 <- column 1 bboxs ;;
  bboxs_y2 <- column 3 bboxs ;;
  let bboxsw := Np.zip_with (fun a b => Qabs (a - b)) bboxs_x2 bboxs_x1 in
  let bboxsh := Np.zip_with (fun a b => Qabs (a - b)) bboxs_y2 bboxs_y1 in
  let relative_lens :=
    Np.zip_with (fun w h => sqrt (w * w + h * h)) bboxsw bboxsh in
  center_xs <- column 0 centers ;;
  center_ys <- column 1 centers ;;
  r <- cheby coefs ;;
  rs <- broadcast0 (fun row len => map (fun r => r * len) row)
          r relative_lens ;;
  let rs := map (map float32) rs in
  let angles := repeat (map float32 theta_list) (length rs) in
  xy <- (if (length rs =? 0)%nat then Raise TypeError
         else Ok (Np.zip_with (Np.zip_with polarToCart) rs angles)) ;;
  let x := map (map fst) xy in
  let y := map (map snd) xy in
  x <- broadcast0 (fun row c => map (fun v => v + float32 c) row)
         x center_xs ;;
  y <- broadcast0 (fun row c => map (fun v => v + float32 c) row)
         y center_ys ;;
  x <- broadcast0 (fun row b => map (fun v => Np.clip v (fst b) (snd b)) row)
         x (combine bboxs_x1 bboxs_x2) ;;
  y <- broadcast0 (fun row b => map (fun v => Np.clip v (fst b) (snd b)) row)
         y (combine bboxs_y1 bboxs_y2) ;;
  if (length x =? length y)%nat
  then Ok (Np.zip_with (Np.zip_with pair) x y)
  else Raise ValueError.

End Reconstruction.

(** ** coef_iou and coef_polygon_iou *)

Section Composites.

Context {G : Shapely} {N : Numerics}.

Definition coef_iou (coef_as coef_bs bbox_as bbox_bs center_as center_bs
                     : Np.ndarray Q) : result (Np.ndarray Q) :=
  polygon_as <- coef_trans_polygon coef_as bbox_as center_as ;;
  polygon_bs <- coef_trans_polygon coef_bs bbox_bs center_bs ;;
  polygon_iou polygon_as polygon_bs.

(** Consecutive runs of [n] entries of a flat list. *)
Fixpoint chunks (fuel n : nat) (l : list Q) : list (list Q) :=
  match fuel, l with
  | S fuel', _ :: _ => firstn n l :: chunks fuel' n (skipn n l)
  | _, _ => []
  end.

(** [a.reshape(-1, 360, 1)], as the list of its [(360, 1)] blocks. *)
Definition reshape_360 (a : Np.ndarray Q) : result (list (list Q)) :=
  let flat := concat (Np.rows a) in
  if (length flat mod 360 =? 0)%nat
  then Ok (chunks (length flat) 360 flat)
  else Raise ValueError.

Definition coef_polygon_iou
  (pred_coef_l pred_center_l pred_bbox_l gt_points_xs_l gt_points_ys_l
   : Np.ndarray Q) : result (Np.ndarray Q) :=
  gt_points_xs_l <- reshape_360 gt_points_xs_l ;;
  gt_points_ys_l <- reshape_360 gt_points_ys_l ;;
  polygon_bs <-
    (if (length gt_points_xs_l =? length gt_points_ys_l)%nat
     then Ok (Np.zip_with (Np.zip_with pair) gt_points_xs_l gt_points_ys_l)
     else Raise ValueError) ;;
  polygon_as <- coef_trans_polygon pred_coef_l pred_bbox_l pred_center_l ;;
  polygon_iou polygon_as polygon_bs.

End Composites.

(** * Instances of the library interfaces

    The instances below compute with exact rationals, so that the model
    runs on concrete polygons. *)

Module Exact.

(** Twice the signed area of the triangle [o a b]. *)
Definition cross (o a b : point) : Q :=
  (fst a - fst o) * (snd b - snd o) - (snd a - snd o) * (fst b - fst o).

Definition lex_le (p q : point) : bool :=
  Np.lt (fst p) (fst q) || (Qeq_bool (fst p) (fst q) && Qle_bool (snd p) (snd q)).

Fixpoint insert (p : point) (l : list point) : list point :=
  match l with
  | [] => [p]
  | q :: l' => if lex_le p q then p :: l else q :: insert p l'
  end.

Definition sort (l : list point) : list point := fold_right insert [] l.

(** One step of the monotone chain: the points that make no left turn
    with [p] leave the stack, then [p] enters it. *)
Fixpoint push (p : point) (st : list point) : list point :=
  match st with
  | b :: st' =>
      match st' with
      | a :: _ => if Qle_bool (cross a b p) 0 then push p st' else p :: st
      | [] => p :: st
      end
  | [] => [p]
  end.

Definition chain (l : list point) : list point :=
  fold_left (fun st p => push p st) l [].

(** The convex hull, counter-clockwise. *)
Definition convex_hull (pts : list point) : list point :=
  let s := sort pts in
  rev (List.tl (chain s)) ++ rev (List.tl (chain (rev s))).

Fixpoint shoelace (first : point) (l : list point) : Q :=
  match l with
  | [] => 0
  | p :: l' =>
      match l' with
      | [] => fst p * snd first - fst first * snd p
      | q :: _ => (fst p * snd q - fst q * snd p) + shoelace first l'
      end
  end.

Definition polygon_area (poly : list point) : Q :=
  match poly with
  | [] => 0
  | p :: _ => Qred (Qabs (shoelace p poly) / 2)
  end.

(** Where the segment [s e] meets the line through [a] and [b]. *)
Definition meet (a b s e : point) : point :=
  let cs := cross a b s in
  let ce := cross a b e in
  let t := cs / (cs - ce) in
  (Qred (fst s + t * (fst e - fst s)), Qred (snd s + t * (snd e - snd s))).

(** Sutherland-Hodgman: the part of a polygon on the left of [a b]. *)
Fixpoint clip_walk (a b s : point) (l : list point) : list point :=
  match l with
  | [] => []
  | e :: l' =>
      let inside p := Qle_bool 0 (cross a b p) in
      (if inside e
       then (if inside s then [e] else [meet a b s e; e])
       else (if inside s then [meet a b s e] else []))
      ++ clip_walk a b e l'
  end.

Definition clip_edge (subject : list point) (edge : point * point)
  : list point :=
  match subject with
  | [] => []
  | p :: _ => clip_walk (fst edge) (snd edge) (last subject p) subject
  end.

Definition edges (poly : list point) : list (point * point) :=
  match poly with
  | [] => []
  | p :: rest => combine poly (rest ++ [p])
  end.

(** The geometries are convex hulls. *)
Definition geometry : Type := list point.

(** [Polygon] refuses fewer than three points. *)
Definition Polygon_convex_hull (p : polygon) : result geometry :=
  if (length p <? 3)%nat then Raise ValueError else Ok (convex_hull p).

Definition intersection_area (g h : geometry) : result Q :=
  if ((length g <? 3) || (length h <? 3))%nat then Ok 0
  else Ok (polygon_area (fold_left clip_edge (edges h) g)).

Definition MultiPoint_convex_hull_area (pts : list point) : result Q :=
  Ok (polygon_area (convex_hull pts)).

(** An intersection that always fails. *)
Definition failing_intersection (g h : geometry) : result Q :=
  Raise TopologicalError.

(** numpy's [chebval]: Clenshaw's recursion. *)
Fixpoint clenshaw (x2 : Q) (rest : list Q) (c0 c1 : Q) : Q * Q :=
  match rest with
  | [] => (c0, c1)
  | c :: rest' => clenshaw x2 rest' (c - c1) (c0 + c1 * x2)
  end.

Definition chebval (x : Q) (c : list Q) : Q :=
  match rev c with
  | [] => 0
  | [a] => a
  | [b; a] => a + b * x
  | c1 :: c0 :: rest =>
      let r := clenshaw (2 * x) rest c0 c1 in
      Qred (fst r + snd r * x)
  end.

(** The square root, rounded down to a multiple of [1 / (10^6 d)]. *)
Definition sqrt (q : Q) : Q :=
  Qred (Qmake (Z.sqrt (Qnum q * Zpos (Qden q) * 10 ^ 12))
              (Qden q * 1000000)).

(** Bhaskara's rational approximation of the sine of an angle in
    degrees, for angles in [[0, 360)]. *)
Definition sin_deg (d : Q) : Q :=
  let half x := 4 * x * (180 - x) / (40500 - x * (180 - x)) in
  if Qle_bool d 180 then half d else - half (d - 180).

Definition cos_deg (d : Q) : Q :=
  if Qle_bool 270 d then sin_deg (d - 270) else sin_deg (d + 90).

Definition polarToCart (r angle : Q) : Q * Q :=
  (Qred (r * cos_deg angle), Qred (r * sin_deg angle)).

(** No rounding. *)
Definition float32 (q : Q) : Q := q.

Definition shapely : Shapely :=
  Build_Shapely geometry Polygon_convex_hull intersection_area
    MultiPoint_convex_hull_area.

Definition failing_shapely : Shapely :=
  Build_Shapely geometry Polygon_convex_hull failing_intersection
    MultiPoint_convex_hull_area.

Definition numerics : Numerics :=
  Build_Numerics chebval sqrt polarToCart float32.

End Exact.

(** ** Sample data *)

(** Two overlapping squares and a distant one. *)
Definition sqA : polygon := [(0, 0); (10, 0); (10, 10); (0, 10)].
Definition sqB : polygon := [(5, 5); (15, 5); (15, 15); (5, 15)].
Definition sqC : polygon := [(50, 50); (60, 50); (60, 60); (50, 60); (55, 55)].

(** A ground-truth circle of radius 2 around (2, 2), as two tables of
    shape [(1, 360)]. *)
Definition gt_xs : Np.ndarray Q :=
  Np.mk_ndarray
    [map (fun a => 2 + fst (Exact.polarToCart 2 a)) theta_list] 360.
Definition gt_ys : Np.ndarray Q :=
  Np.mk_ndarray
    [map (fun a => 2 + snd (Exact.polarToCart 2 a)) theta_list] 360.

(** * The vocabulary of the properties *)

(** ** Equality of computed values

    Numbers are compared with [==]; [nan]/[inf] entries only match
    themselves; arrays are compared entry by entry. *)

Definition entry_eq (a b : option Q) : Prop :=
  match a, b with
  | Some x, Some y => x == y
  | None, None => True
  | _, _ => False
  end.

Definition array_eq {A : Type} (R : A -> A -> Prop) (a b : Np.ndarray A) : Prop :=
  Np.shape1 a = Np.shape1 b /\ Forall2 (Forall2 R) (Np.rows a) (Np.rows b).

Definition result_eq {A : Type} (R : A -> A -> Prop) (x y : result A) : Prop :=
  match x, y with
  | Ok a, Ok b => R a b
  | Raise e, Raise e' => e = e'
  | _, _ => False
  end.

Definition pyobj_eq (u v : pyobj) : Prop :=
  match u, v with
  | Seq l, Seq l' => Forall2 Qeq l l'
  | Array1 l, Array1 l' => Forall2 Qeq l l'
  | Array2 a, Array2 a' => array_eq Qeq a a'
  | Other, Other => True
  | _, _ => False
  end.

(** ** Boxes *)

(** A coordinate lies in [[0, bound - 1]]. *)
Definition within (bound v : Q) : Prop := 0 <= v /\ v <= bound - 1.

(** Every coordinate of a result of [bbox_clip_xyxy] is inside the image:
    a tuple [(x1, y1, x2, y2)], or the flat array of the [N] values of
    [x1], then of [y1], of [x2] and of [y2]. *)
Definition clipped (width height : Q) (out : pyobj) : Prop :=
  match out with
  | Seq [x1; y1; x2; y2] =>
      within width x1 /\ within height y1 /\
      within width x2 /\ within height y2
  | Array1 l =>
      exists x1 y1 x2 y2,
        l = x1 ++ y1 ++ x2 ++ y2 /\
        length y1 = length x1 /\ length x2 = length x1 /\
        length y2 = length x1 /\
        Forall (within width) x1 /\ Forall (within height) y1 /\
        Forall (within width) x2 /\ Forall (within height) y2
  | _ => False
  end.

(** A box as a tuple or list of four numbers, or an [(N, 4)] array. *)
Definition box_input (v : pyobj) : Prop :=
  match v with
  | Seq l => length l = 4%nat
  | Array2 a => Np.shape1 a = 4%nat
  | _ => False
  end.

(** The shape of an array, when it is one. *)
Definition has_shape (out : pyobj) (shape : list nat) : Prop :=
  match out with
  | Array1 l => shape = [length l]
  | Array2 a => shape = [Np.shape0 a; Np.shape1 a] /\ Np.well_shaped a = true
  | _ => False
  end.

(** ** Polygon overlaps *)

(** Entry [(n, m)] of a matrix. *)
Definition entry (a : Np.ndarray Q) (n m : nat) : option Q :=
  match nth_error (Np.rows a) n with
  | Some r => nth_error r m
  | None => None
  end.

Section PolygonIouVocabulary.

Context {G : Shapely}.

(** What the [try] block of a pair meets: a topological failure of one of
    the two area computations, or a zero area. *)
Definition degenerate (a b : polygon) (ga gb : geometry) : Prop :=
  intersection_area ga gb = Raise TopologicalError \/
  exists inter_area,
    intersection_area ga gb = Ok inter_area /\
    (MultiPoint_convex_hull_area (a ++ b) = Raise TopologicalError \/
     exists union_area,
       MultiPoint_convex_hull_area (a ++ b) = Ok union_area /\
       (inter_area == 0 \/ union_area == 0)).

(** An exception other than [TopologicalError] raised by one of the two
    area computations of a pair. *)
Definition area_failure (polygon_as polygon_bs : list polygon) (e : exn)
  : Prop :=
  e <> TopologicalError /\
  exists a b ga gb,
    In a polygon_as /\ In b polygon_bs /\
    Polygon_convex_hull a = Ok ga /\ Polygon_convex_hull b = Ok gb /\
    (intersection_area ga gb = Raise e \/
     MultiPoint_convex_hull_area (a ++ b) = Raise e).

End PolygonIouVocabulary.

(** ** Reconstructed polygons *)

(** The corners of a row of a box table. *)
Definition xmin (box : list Q) : Q := nth 0 box 0.
Definition ymin (box : list Q) : Q := nth 1 box 0.
Definition xmax (box : list Q) : Q := nth 2 box 0.
Definition ymax (box : list Q) : Q := nth 3 box 0.

(** A box table row whose corners are in order. *)
Definition ordered_box (box : list Q) : Prop :=
  xmin box <= xmax box /\ ymin box <= ymax box.

(** The three tables have shapes [(N, K)], [(N, 4)] and [(N, 2)]. *)
Definition reconstruction_input (coefs bboxs centers : Np.ndarray Q) : Prop :=
  Np.shape0 coefs = Np.shape0 bboxs /\
  Np.shape0 centers = Np.shape0 bboxs /\
  Np.shape1 bboxs = 4%nat /\
  Np.shape1 centers = 2%nat.

Section ReconstructionVocabulary.

Context {N : Numerics}.

(** What [coef_trans_polygon] computes for one row of its tables. *)
Definition row_offsets (coef box : list Q) : list (Q * Q) :=
  let w := Qabs (xmax box - xmin box) in
  let h := Qabs (ymax box - ymin box) in
  let relative_len := sqrt (w * w + h * h) in
  Np.zip_with polarToCart
    (map float32
       (map (fun r => r * relative_len)
          (map (fun t => chebval t coef) theta)))
    (map float32 theta_list).

Definition row_polygon (coef box center : list Q) : polygon :=
  Np.zip_with pair
    (map (fun v => Np.clip v (xmin box) (xmax box))
       (map (fun v => v + float32 (nth 0 center 0))
          (map fst (row_offsets coef box))))
    (map (fun v => Np.clip v (ymin box) (ymax box))
       (map (fun v => v + float32 (nth 1 center 0))
          (map snd (row_offsets coef box)))).

End ReconstructionVocabulary.

(** ** The composites

    [coef_iou_spec] and [coef_polygon_iou_spec] follow the words of the
    specification, to be compared with [coef_iou] and [coef_polygon_iou],
    which follow the code. *)

(** A table of shape [(M, 360)]. *)
Definition points_table (a : Np.ndarray Q) : Prop :=
  Np.shape1 a = 360%nat /\ Forall (fun r => length r = 360%nat) (Np.rows a).

Section CompositesVocabulary.

Context {G : Shapely} {N : Numerics}.

(** The specification's wording of the two composites: reconstruct, then
    [polygon_iou], and nothing else. *)
Definition reconstruct_then_iou (polygon_as polygon_bs : result (list polygon))
  : result (Np.ndarray Q) :=
  polygon_as <- polygon_as ;;
  polygon_bs <- polygon_bs ;;
  polygon_iou polygon_as polygon_bs.

(** Variant (a): both sides are reconstructed. *)
Definition coef_iou_spec (coef_as coef_bs bbox_as bbox_bs center_as center_bs
                          : Np.ndarray Q) : result (Np.ndarray Q) :=
  reconstruct_then_iou
    (coef_trans_polygon coef_as bbox_as center_as)
    (coef_trans_polygon coef_bs bbox_bs center_bs).

(** Ground-truth polygon [m] has the points [(xs[m][i], ys[m][i])]. *)
Definition gt_polygons (gt_points_xs_l gt_points_ys_l : Np.ndarray Q)
  : list polygon :=
  Np.zip_with (Np.zip_with pair)
    (Np.rows gt_points_xs_l) (Np.rows gt_points_ys_l).

(** Variant (b): one side is reconstructed, the other is given as
    points. *)
Definition coef_polygon_iou_spec
  (pred_coef_l pred_center_l pred_bbox_l gt_points_xs_l gt_points_ys_l
   : Np.ndarray Q) : result (Np.ndarray Q) :=
  reconstruct_then_iou
    (coef_trans_polygon pred_coef_l pred_bbox_l pred_center_l)
    (Ok (gt_polygons gt_points_xs_l gt_points_ys_l)).

End CompositesVocabulary.

(** ** Further vocabulary *)

(** Entry [(i, j)] of an array, when it has one. *)
Definition at_index {A : Type} (a : Np.ndarray A) (i j : nat) : option A :=
  match nth_error (Np.rows a) i with
  | Some r => nth_error r j
  | None => None
  end.

(** [a[:, :4]]. *)
Definition first_four_columns (a : Np.ndarray Q) : Np.ndarray Q :=
  Np.mk_ndarray (map (firstn 4) (Np.rows a)) (Nat.min 4 (Np.shape1 a)).

(** The inputs on which [bbox_clip_xyxy] returns: a tuple or list of four
    numbers, or a 2-D array that passes the size test and has the four
    columns that are read. *)
Definition clip_accepts (v : pyobj) : Prop :=
  match v with
  | Seq l => length l = 4%nat
  | Array2 a => (Np.size a mod 4 = 0)%nat /\ (4 <= Np.shape1 a)%nat
  | _ => False
  end.

(** The inputs on which the two format converters return: a tuple or list
    of four numbers, or a 2-D array that passes the size test and whose
    column slices [[:, :2]] and [[:, 2:4]] broadcast. *)
Definition converter_accepts (v : pyobj) : Prop :=
  match v with
  | Seq l => length l = 4%nat
  | Array2 a => (Np.size a mod 4 = 0)%nat /\ Np.shape1 a <> 2%nat
  | _ => False
  end.

(** The boxes an argument or a result holds. *)
Definition boxes_of (v : pyobj) : list (list Q) :=
  match v with
  | Seq l => [l]
  | Array2 a => Np.rows a
  | _ => []
  end.

(** A tuple or list of four numbers, or an array of shape [(N, 4)]. *)
Definition four_column_boxes (v : pyobj) : Prop :=
  box_input v /\ Forall (fun r => length r = 4%nat) (boxes_of v).

(** [np.hstack] of the first four columns of a list of rows. *)
Definition hstack_columns (rs : list (list Q)) : list Q :=
  map (fun r => nth 0 r 0) rs ++ map (fun r => nth 1 r 0) rs ++
  map (fun r => nth 2 r 0) rs ++ map (fun r => nth 3 r 0) rs.

(** A converter applied to each row taken as a tuple. *)
Definition on_each_tuple (f : pyobj -> result pyobj) (rs : list (list Q))
  : result (list (list Q)) :=
  for_each (fun r => out <- f (Seq r) ;;
                     match out with
                     | Seq l => Ok l
                     | _ => Raise TypeError
                     end) rs.

(** Boxes [(xmin, ymin, xmax, ymax)] with [xmin <= xmax] and
    [ymin <= ymax], as a tuple or list or as an array of shape [(N, 4)]. *)
Definition ordered_boxes (v : pyobj) : Prop :=
  four_column_boxes v /\ Forall ordered_box (boxes_of v).

(** Every coordinate of every box lies inside the image. *)
Definition inside_image (width height : Q) (v : pyobj) : Prop :=
  Forall (fun r => within width (xmin r) /\ within height (ymin r) /\
                   within width (xmax r) /\ within height (ymax r))
         (boxes_of v).

(** The number of entries of an array, read off its rows. *)
Definition flat_size (a : Np.ndarray Q) : nat := length (concat (Np.rows a)).

(** Tables of shapes [(N, K)], [(N, 4)] and [(N, 2)] with at least one row
    and one coefficient: [chebval] needs a coefficient, and OpenCV returns
    no array for an empty one. *)
Definition reconstruction_tables (coefs bboxs centers : Np.ndarray Q) : Prop :=
  reconstruction_input coefs bboxs centers /\
  (1 <= Np.shape0 bboxs)%nat /\ (1 <= Np.shape1 coefs)%nat.

(** * Machine arithmetic

    The definitions above compute with ideal numbers.  An ndarray has an
    element type, and the arithmetic of the code is that of the type:
    [int64] wraps around, [float64] and [float32] round, overflow to an
    infinity and have a nan.  The definitions below follow the same code
    with that arithmetic, for the properties that depend on it. *)

(** ** IEEE 754 binary floating point, on rationals *)

Module Ieee.

(** A floating-point value.  [Fin 0] is +0. *)
Inductive fnum : Type :=
| Fin (q : Q)
| NZero
| PInf
| NInf
| NaN.

(** [2^e <= n / d], for positive [n] and [d]. *)
Definition pow2_le (e n d : Z) : bool :=
  if (0 <=? e)%Z then (d * 2 ^ e <=? n)%Z else (d <=? n * 2 ^ (- e))%Z.

(** The exponent [e] with [2^e <= n / d < 2^(e+1)]. *)
Definition ilog2 (n d : Z) : Z :=
  let e0 := (Z.log2 n - Z.log2 d)%Z in
  if pow2_le e0 n d then e0 else (e0 - 1)%Z.

(** The integer nearest to [n / d], ties to even. *)
Definition rne (n d : Z) : Z :=
  let fl := (n / d)%Z in
  match (2 * (n mod d) ?= d)%Z with
  | Lt => fl
  | Gt => (fl + 1)%Z
  | Eq => if Z.even fl then fl else (fl + 1)%Z
  end.

(** A binary format: [prec] significant bits, values below [2^emax]. *)
Record format : Type := mk_format { prec : Z; emax : Z }.

Definition binary64 : format := mk_format 53 1024.
Definition binary32 : format := mk_format 24 128.

(** The exponent of the smallest positive value. *)
Definition emin (f : format) : Z := (3 - emax f - prec f)%Z.

(** [n / d / 2^k] as a quotient of two integers. *)
Definition scaled_num (k n : Z) : Z :=
  if (0 <=? k)%Z then n else (n * 2 ^ (- k))%Z.
Definition scaled_den (k d : Z) : Z :=
  if (0 <=? k)%Z then (d * 2 ^ k)%Z else d.

(** [m * 2^k], in lowest terms. *)
Definition scaled_value (k m : Z) : Q :=
  if (0 <=? k)%Z then inject_Z (m * 2 ^ k)
  else Qred (m # Z.to_pos (2 ^ (- k))).

(** [n / d > 0] rounded to nearest, ties to even, as a multiple [m * 2^k]
    of the spacing of the format at [n / d]; [None] is overflow. *)
Definition round_pos (f : format) (n d : Z) : option Q :=
  let e := ilog2 n d in
  if (emax f <=? e)%Z then None
  else
    let k := Z.max (e + 1 - prec f) (emin f) in
    let m := rne (scaled_num k n) (scaled_den k d) in
    if ((2 ^ prec f <=? m) && (k =? emax f - prec f))%Z then None
    else Some (scaled_value k m).

(** The value of the format nearest to [q].  An exact zero is +0; a
    negative number that rounds to zero gives -0. *)
Definition round (f : format) (q : Q) : fnum :=
  let r := Qred q in
  match Qnum r with
  | Z0 => Fin 0
  | Zpos n =>
      match round_pos f (Zpos n) (Zpos (Qden r)) with
      | Some v => Fin v
      | None => PInf
      end
  | Zneg n =>
      match round_pos f (Zpos n) (Zpos (Qden r)) with
      | Some v => if Qeq_bool v 0 then NZero else Fin (- v)
      | None => NInf
      end
  end.

(** The number a finite value denotes. *)
Definition value (x : fnum) : option Q :=
  match x with
  | Fin q => Some q
  | NZero => Some 0
  | PInf | NInf | NaN => None
  end.

Definition signbit (x : fnum) : bool :=
  match x with
  | Fin q => negb (Qle_bool 0 q)
  | NZero | NInf => true
  | PInf | NaN => false
  end.

Definition zero (negative : bool) : fnum := if negative then NZero else Fin 0.
Definition inf (negative : bool) : fnum := if negative then NInf else PInf.

Definition fneg (x : fnum) : fnum :=
  match x with
  | Fin a => if Qeq_bool a 0 then NZero else Fin (- a)
  | NZero => Fin 0
  | PInf => NInf
  | NInf => PInf
  | NaN => NaN
  end.

Definition fabs (x : fnum) : fnum :=
  match x with
  | Fin a => Fin (Qabs a)
  | NZero => Fin 0
  | PInf | NInf => PInf
  | NaN => NaN
  end.

Definition fadd (f : format) (x y : fnum) : fnum :=
  match x, y with
  | NaN, _ | _, NaN => NaN
  | PInf, NInf | NInf, PInf => NaN
  | PInf, _ | _, PInf => PInf
  | NInf, _ | _, NInf => NInf
  | NZero, NZero => NZero
  | NZero, Fin a | Fin a, NZero => round f a
  | Fin a, Fin b => round f (a + b)
  end.

Definition fsub (f : format) (x y : fnum) : fnum := fadd f x (fneg y).

Definition fmul (f : format) (x y : fnum) : fnum :=
  let s := xorb (signbit x) (signbit y) in
  match x, y with
  | NaN, _ | _, NaN => NaN
  | _, _ =>
      match value x, value y with
      | Some a, Some b =>
          if Qeq_bool (a * b) 0 then zero s else round f (a * b)
      | Some a, None | None, Some a => if Qeq_bool a 0 then NaN else inf s
      | None, None => inf s
      end
  end.

Definition fdiv (f : format) (x y : fnum) : fnum :=
  let s := xorb (signbit x) (signbit y) in
  match x, y with
  | NaN, _ | _, NaN => NaN
  | _, _ =>
      match value x, value y with
      | Some a, Some b =>
          if Qeq_bool b 0 then (if Qeq_bool a 0 then NaN else inf s)
          else if Qeq_bool a 0 then zero s
          else round f (a / b)
      | Some _, None => zero s
      | None, Some _ => inf s
      | None, None => NaN
      end
  end.

(** [x <= y] and [x < y]; false when an operand is nan. *)
Definition fleb (x y : fnum) : bool :=
  match x, y with
  | NaN, _ | _, NaN => false
  | NInf, _ | _, PInf => true
  | PInf, _ | _, NInf => false
  | Fin a, Fin b => Qle_bool a b
  | Fin a, NZero => Qle_bool a 0
  | NZero, Fin b => Qle_bool 0 b
  | NZero, NZero => true
  end.

Definition fltb (x y : fnum) : bool :=
  match x, y with
  | NaN, _ | _, NaN => false
  | _, _ => negb (fleb y x)
  end.

(** The comparisons hold; [feq] is [==], which does not tell -0 from
    +0. *)
Definition fle (x y : fnum) : Prop := fleb x y = true.
Definition flt (x y : fnum) : Prop := fltb x y = true.
Definition feq (x y : fnum) : Prop := fle x y /\ fle y x.

(** [np.maximum] and [np.minimum]: nan when an operand is. *)
Definition fmax (x y : fnum) : fnum :=
  match x, y with
  | NaN, _ | _, NaN => NaN
  | _, _ => if fleb y x then x else y
  end.

Definition fmin (x y : fnum) : fnum :=
  match x, y with
  | NaN, _ | _, NaN => NaN
  | _, _ => if fleb x y then x else y
  end.

(** [np.clip(x, lo, hi)], which numpy defines as
    [minimum(hi, maximum(x, lo))]. *)
Definition clip (x lo hi : fnum) : fnum := fmin hi (fmax x lo).

(** [.astype] to a floating-point type. *)
Definition cast (f : format) (x : fnum) : fnum :=
  match x with
  | Fin a => round f a
  | _ => x
  end.

(** A whole number. *)
Definition of_Z (z : Z) : fnum := Fin (inject_Z z).

(** The finite values of a format: the numbers [m * 2^k] with
    [|m| < 2^prec] and [emin <= k] that are below [2^emax] in
    magnitude. *)
Definition representable (f : format) (q : Q) : Prop :=
  exists m k : Z,
    (Z.abs m < 2 ^ prec f)%Z /\ (emin f <= k)%Z /\
    q == inject_Z m * 2 ^ k /\ Qabs q < 2 ^ emax f.

(** A finite value of the format, written in lowest terms. *)
Definition is_float (f : format) (q : Q) : Prop := round f q = Fin q.

End Ieee.

(** ** int64 *)

Module Int64.

(** The value of the type congruent to [z] modulo [2^64]. *)
Definition wrap (z : Z) : Z := ((z + 2 ^ 63) mod 2 ^ 64 - 2 ^ 63)%Z.

Definition in_range (z : Z) : Prop := (- 2 ^ 63 <= z < 2 ^ 63)%Z.

(** The conversion to [float64] that true division makes. *)
Definition to_float64 (z : Z) : Ieee.fnum :=
  Ieee.round Ieee.binary64 (inject_Z z).

End Int64.

(** ** Element types *)

(** The element type of an array and the ufuncs of the code on it.  The
    scalars the code writes ([0], [1], the offset) take the type of the
    array they meet. *)
Class Dtype : Type := {
  num : Type;
  zero : num;
  one : num;
  add : num -> num -> num;
  subtract : num -> num -> num;
  multiply : num -> num -> num;
  maximum : num -> num -> num;
  minimum : num -> num -> num;
  less : num -> num -> bool;
  (** [/] under [from __future__ import division] *)
  true_divide : num -> num -> Ieee.fnum
}.

Definition int64 : Dtype := {|
  num := Z;
  zero := 0%Z;
  one := 1%Z;
  add := fun a b => Int64.wrap (a + b);
  subtract := fun a b => Int64.wrap (a - b);
  multiply := fun a b => Int64.wrap (a * b);
  maximum := Z.max;
  minimum := Z.min;
  less := Z.ltb;
  true_divide := fun a b =>
    Ieee.fdiv Ieee.binary64 (Int64.to_float64 a) (Int64.to_float64 b)
|}.

Definition float64 : Dtype := {|
  num := Ieee.fnum;
  zero := Ieee.Fin 0;
  one := Ieee.Fin 1;
  add := Ieee.fadd Ieee.binary64;
  subtract := Ieee.fsub Ieee.binary64;
  multiply := Ieee.fmul Ieee.binary64;
  maximum := Ieee.fmax;
  minimum := Ieee.fmin;
  less := Ieee.fltb;
  true_divide := Ieee.fdiv Ieee.binary64
|}.

(** ** bbox_iou and the format converters on typed arrays *)

Module Typed.

(** The argument of the converters, by the type tests they make: a tuple
    or a list of scalars, an ndarray of them with one or with two
    dimensions, or anything that is not a tuple, a list or an ndarray. *)
Inductive pyobj (A : Type) : Type :=
| Seq (l : list A)
| Array1 (l : list A)
| Array2 (a : Np.ndarray A)
| Other.

Arguments Seq {A} l.
Arguments Array1 {A} l.
Arguments Array2 {A} a.
Arguments Other {A}.

Section TypedArrays.

Context {D : Dtype}.

(** [row[:2]] and [row[2:4]]. *)
Definition top_left (r : list num) : list num := firstn 2 r.
Definition bottom_right (r : list num) : list num := firstn 2 (skipn 2 r).

(** [np.prod] along the last axis: [multiply.reduce]. *)
Definition prod (r : list num) : num :=
  match r with
  | [] => one
  | x :: r' => fold_left multiply r' x
  end.

(** A boolean as a factor. *)
Definition of_bool (b : bool) : num := if b then one else zero.

Definition tl (ra rb : list num) : list num :=
  Np.zip_with maximum (top_left ra) (top_left rb).
Definition br (ra rb : list num) : list num :=
  Np.zip_with minimum (bottom_right ra) (bottom_right rb).

(** Entry [(i, j)] of [area_i]. *)
Definition area_i (offset : num) (ra rb : list num) : num :=
  multiply
    (prod (map (fun d => add d offset)
             (Np.zip_with subtract (br ra rb) (tl ra rb))))
    (of_bool (Np.all (Np.zip_with less (tl ra rb) (br ra rb)))).

(** Entry [i] of [area_a] (and of [area_b]). *)
Definition area (offset : num) (r : list num) : num :=
  prod (map (fun d => add d offset)
          (Np.zip_with subtract (bottom_right r) (top_left r))).

(** Entry [(i, j)] of the returned quotient. *)
Definition iou_entry (offset : num) (ra rb : list num) : Ieee.fnum :=
  true_divide (area_i offset ra rb)
    (subtract (add (area offset ra) (area offset rb)) (area_i offset ra rb)).

Definition bbox_iou (bbox_a bbox_b : Np.ndarray num) (offset : num)
  : result (Np.ndarray Ieee.fnum) :=
  if ((Np.shape1 bbox_a <? 4) || (Np.shape1 bbox_b <? 4))%nat
  then Raise IndexError
  else Ok (Np.mk_ndarray
             (map (fun ra => map (fun rb => iou_entry offset ra rb)
                               (Np.rows bbox_b))
                  (Np.rows bbox_a))
             (Np.shape0 bbox_b)).

Definition broadcast (f : num -> num -> num) (r1 r2 : list num) : list num :=
  if (length r1 =? length r2)%nat then Np.zip_with f r1 r2
  else if (length r1 =? 1)%nat then map (f (hd zero r1)) r2
  else map (fun x => f x (hd zero r2)) r1.

Definition bbox_xywh_to_xyxy (xywh : pyobj num) : result (pyobj num) :=
  match xywh with
  | Seq l =>
      match l with
      | [x; y; w0; h0] =>
          let w := maximum (subtract w0 one) zero in
          let h := maximum (subtract h0 one) zero in
          Ok (Seq [x; y; add x w; add y h])
      | _ => Raise IndexError
      end
  | Array1 _ => Raise IndexError
  | Array2 a =>
      if negb (Np.size a mod 4 =? 0)%nat then Raise IndexError
      else
        let k := Np.shape1 a in
        if negb (broadcastable (cols_lo k) (cols_hi k)) then Raise ValueError
        else
          Ok (Array2 (Np.mk_ndarray
                (map (fun r =>
                        top_left r ++
                        broadcast add (top_left r)
                          (map (fun d => maximum zero (subtract d one))
                             (bottom_right r)))
                     (Np.rows a))
                (cols_lo k + broadcast_cols (cols_lo k) (cols_hi k))))
  | Other => Raise TypeError
  end.

Definition bbox_xyxy_to_xywh (xyxy : pyobj num) : result (pyobj num) :=
  match xyxy with
  | Seq l =>
      match l with
      | [x1; y1; x2; y2] =>
          let w := add (subtract x2 x1) one in
          let h := add (subtract y2 y1) one in
          Ok (Seq [x1; y1; w; h])
      | _ => Raise IndexError
      end
  | Array1 _ => Raise IndexError
  | Array2 a =>
      if negb (Np.size a mod 4 =? 0)%nat then Raise IndexError
      else
        let k := Np.shape1 a in
        if negb (broadcastable (cols_hi k) (cols_lo k)) then Raise ValueError
        else
          Ok (Array2 (Np.mk_ndarray
                (map (fun r =>
                        top_left r ++
                        map (fun d => add d one)
                          (broadcast subtract (bottom_right r) (top_left r)))
                     (Np.rows a))
                (cols_lo k + broadcast_cols (cols_hi k) (cols_lo k))))
  | Other => Raise TypeError
  end.

End TypedArrays.

End Typed.
(** ** cheby and coef_trans_polygon on float64 tables *)

Module Float.

Import Ieee.

(** The numeric primitives of numpy and OpenCV, on floating-point
    values. *)
Class Numerics : Type := {
  (** [chebyshev.chebval(t, c)] for a series [c] with a coefficient *)
  chebval : fnum -> list fnum -> fnum;
  (** [np.sqrt] *)
  sqrt : fnum -> fnum;
  (** [cv.polarToCart(r, angle, angleInDegrees=True)] on one entry *)
  polarToCart : fnum -> fnum -> fnum * fnum
}.

(** [np.linspace(-1, 1, 360)]: numpy computes [arange(360) * step + start]
    with [step = (stop - start) / 359] and stores [stop] last. *)
Definition theta : list fnum :=
  let step := fdiv binary64 (fsub binary64 (Fin 1) (Fin (-1))) (Fin 359) in
  map (fun i => fadd binary64 (fmul binary64 (of_Z (Z.of_nat i)) step)
                  (Fin (-1)))
      (seq 0 359)
  ++ [Fin 1].

(** [np.arange(359, -1, -1)] *)
Definition theta_list : list fnum :=
  map (fun i => of_Z (Z.of_nat i)) (rev (seq 0 360)).

(** [a[:, j]]. *)
Definition column (j : nat) (a : Np.ndarray fnum) : result (list fnum) :=
  if (j <? Np.shape1 a)%nat
  then Ok (map (fun r => nth j r NaN) (Np.rows a))
  else Raise IndexError.

Section FloatReconstruction.

Context {N : Numerics}.

(** [chebval] reads the last two coefficients of a series that has
    neither one nor two of them, and raises [IndexError] on an empty
    one. *)
Definition cheby (coef : Np.ndarray fnum) : result (list (list fnum)) :=
  if (Np.shape1 coef =? 0)%nat then Raise IndexError
  else Ok (map (fun c => map (fun t => chebval t c) theta) (Np.rows coef)).

(** The tables hold [float64]; [rs], the angles and the sums with the
    centers are [float32].  OpenCV returns no array for an empty [rs],
    and the sum that follows raises [TypeError]. *)
Definition coef_trans_polygon (coefs bboxs centers : Np.ndarray fnum)
  : result (list (list (fnum * fnum))) :=
  bboxs_x1 <- column 0 bboxs ;;
  bboxs_x2 <- column 2 bboxs ;;
  bboxs_y1 <- column 1 bboxs ;;
  bboxs_y2 <- column 3 bboxs ;;
  let bboxsw :=
    Np.zip_with (fun a b => fabs (fsub binary64 a b)) bboxs_x2 bboxs_x1 in
  let bboxsh :=
    Np.zip_with (fun a b => fabs (fsub binary64 a b)) bboxs_y2 bboxs_y1 in
  let relative_lens :=
    Np.zip_with
      (fun w h => sqrt (fadd binary64 (fmul binary64 w w) (fmul binary64 h h)))
      bboxsw bboxsh in
  center_xs <- column 0 centers ;;
  center_ys <- column 1 centers ;;
  r <- cheby coefs ;;
  rs <- broadcast0 (fun row len => map (fun r => fmul binary64 r len) row)
          r relative_lens ;;
  let rs := map (map (cast binary32)) rs in
  let angles := repeat (map (cast binary32) theta_list) (length rs) in
  xy <- (if (length rs =? 0)%nat then Raise TypeError
         else Ok (Np.zip_with (Np.zip_with polarToCart) rs angles)) ;;
  let x := map (map fst) xy in
  let y := map (map snd) xy in
  x <- broadcast0
         (fun row c => map (fun v => fadd binary32 v (cast binary32 c)) row)
         x center_xs ;;
  y <- broadcast0
         (fun row c => map (fun v => fadd binary32 v (cast binary32 c)) row)
         y center_ys ;;
  x <- broadcast0 (fun row b => map (fun v => clip v (fst b) (snd b)) row)
         x (combine bboxs_x1 bboxs_x2) ;;
  y <- broadcast0 (fun row b => map (fun v => clip v (fst b) (snd b)) row)
         y (combine bboxs_y1 bboxs_y2) ;;
  if (length x =? length y)%nat
  then Ok (Np.zip_with (Np.zip_with pair) x y)
  else Raise ValueError.

End FloatReconstruction.

(** An instance that computes: Clenshaw's recursion as numpy writes it,
    and [float64] and [float32] roundings of the approximations of
    [Exact]. *)
Fixpoint clenshaw (x2 : fnum) (rest : list fnum) (c0 c1 : fnum)
  : fnum * fnum :=
  match rest with
  | [] => (c0, c1)
  | c :: rest' =>
      clenshaw x2 rest' (fsub binary64 c c1)
        (fadd binary64 c0 (fmul binary64 c1 x2))
  end.

Definition clenshaw_chebval (x : fnum) (c : list fnum) : fnum :=
  match rev c with
  | [] => NaN
  | [a] => fadd binary64 a (fmul binary64 (Fin 0) x)
  | [b; a] => fadd binary64 a (fmul binary64 b x)
  | c1 :: c0 :: rest =>
      let r := clenshaw (fmul binary64 (Fin 2) x) rest c0 c1 in
      fadd binary64 (fst r) (fmul binary64 (snd r) x)
  end.

Definition approx_sqrt (x : fnum) : fnum :=
  match x with
  | Fin q => if Qle_bool 0 q then round binary64 (Exact.sqrt q) else NaN
  | NZero => NZero
  | PInf => PInf
  | NInf | NaN => NaN
  end.

Definition approx_polarToCart (r angle : fnum) : fnum * fnum :=
  match angle with
  | Fin d =>
      (fmul binary32 r (round binary32 (Exact.cos_deg d)),
       fmul binary32 r (round binary32 (Exact.sin_deg d)))
  | _ => (NaN, NaN)
  end.

Definition numerics : Numerics :=
  Build_Numerics clenshaw_chebval approx_sqrt approx_polarToCart.

(** The corners of a row of a box table. *)
Definition xmin (box : list fnum) : fnum := nth 0 box NaN.
Definition ymin (box : list fnum) : fnum := nth 1 box NaN.
Definition xmax (box : list fnum) : fnum := nth 2 box NaN.
Definition ymax (box : list fnum) : fnum := nth 3 box NaN.

(** A box table row whose corners are in order. *)
Definition ordered_box (box : list fnum) : Prop :=
  fle (xmin box) (xmax box) /\ fle (ymin box) (ymax box).

(** A polygon of 360 points, all of them in the box. *)
Definition inside_box (box : list fnum) (poly : list (fnum * fnum)) : Prop :=
  length poly = 360%nat /\
  Forall (fun p => (fle (xmin box) (fst p) /\ fle (fst p) (xmax box)) /\
                   (fle (ymin box) (snd p) /\ fle (snd p) (ymax box))) poly.

(** [v] is nan or lies in [[lo, hi]]. *)
Definition nan_or_within (lo hi v : fnum) : Prop :=
  v = NaN \/ (fle lo v /\ fle v hi).

(** A polygon of 360 points, each coordinate of which is nan or lies in
    the box. *)
Definition nan_or_inside_box (box : list fnum) (poly : list (fnum * fnum))
  : Prop :=
  length poly = 360%nat /\
  Forall (fun p => nan_or_within (xmin box) (xmax box) (fst p) /\
                   nan_or_within (ymin box) (ymax box) (snd p)) poly.

(** [v] is nan or does not pass [hi], and is nan or equal to [hi] when
    [hi <= lo]. *)
Definition nan_or_below (lo hi v : fnum) : Prop :=
  (v = NaN \/ fle v hi) /\ (fle hi lo -> v = NaN \/ feq v hi).

(** A polygon of 360 points, no coordinate of which passes the upper
    corner of the box. *)
Definition nan_or_below_upper_corner (box : list fnum)
  (poly : list (fnum * fnum)) : Prop :=
  length poly = 360%nat /\
  Forall (fun p => nan_or_below (xmin box) (xmax box) (fst p) /\
                   nan_or_below (ymin box) (ymax box) (snd p)) poly.

(** Tables of shapes [(N, K)], [(N, 4)] and [(N, 2)] with at least one
    row and one coefficient. *)
Definition reconstruction_tables (coefs bboxs centers : Np.ndarray fnum)
  : Prop :=
  Np.shape0 coefs = Np.shape0 bboxs /\
  Np.shape0 centers = Np.shape0 bboxs /\
  Np.shape1 bboxs = 4%nat /\
  Np.shape1 centers = 2%nat /\
  (1 <= Np.shape0 bboxs)%nat /\ (1 <= Np.shape1 coefs)%nat.

Section Rows.

Context {N : Numerics}.

(** The diagonal of a box. *)
Definition relative_len (box : list fnum) : fnum :=
  let w := fabs (fsub binary64 (xmax box) (xmin box)) in
  let h := fabs (fsub binary64 (ymax box) (ymin box)) in
  sqrt (fadd binary64 (fmul binary64 w w) (fmul binary64 h h)).

(** What [coef_trans_polygon] computes for one row of its tables. *)
Definition row_offsets (coef box : list fnum) : list (fnum * fnum) :=
  Np.zip_with polarToCart
    (map (cast binary32)
       (map (fun r => fmul binary64 r (relative_len box))
          (map (fun t => chebval t coef) theta)))
    (map (cast binary32) theta_list).

Definition row_polygon (coef box center : list fnum) : list (fnum * fnum) :=
  Np.zip_with pair
    (map (fun v => clip v (xmin box) (xmax box))
       (map (fun v => fadd binary32 v (cast binary32 (nth 0 center NaN)))
          (map fst (row_offsets coef box))))
    (map (fun v => clip v (ymin box) (ymax box))
       (map (fun v => fadd binary32 v (cast binary32 (nth 1 center NaN)))
          (map snd (row_offsets coef box)))).

(** Point [i] of the polygon of a row: the series at the [i]-th point of
    [theta], scaled by the diagonal of the box, is the radius at the
    angle of [359 - i] degrees; the point is moved by the center and
    clipped to the box. *)
Definition point_at (coef box center : list fnum) (i : nat) : fnum * fnum :=
  let r :=
    cast binary32
      (fmul binary64 (chebval (nth i theta NaN) coef) (relative_len box)) in
  let xy := polarToCart r (of_Z (359 - Z.of_nat i)) in
  (clip (fadd binary32 (fst xy) (cast binary32 (nth 0 center NaN)))
     (xmin box) (xmax box),
   clip (fadd binary32 (snd xy) (cast binary32 (nth 1 center NaN)))
     (ymin box) (ymax box)).

End Rows.

End Float.
(** ** Vocabulary of the typed arrays *)

(** A table of boxes: at least four columns, and rows of that length. *)
Definition typed_box_table {A : Type} (a : Np.ndarray A) : Prop :=
  (4 <= Np.shape1 a)%nat /\ Np.well_shaped a = true.

(** The rectangles of two rows of whole numbers overlap on a region of
    positive extent: the test [(tl < br).all()]. *)
Definition int64_overlapping (ra rb : list Z) : Prop :=
  (Z.max (nth 0 ra 0) (nth 0 rb 0) < Z.min (nth 2 ra 0) (nth 2 rb 0))%Z /\
  (Z.max (nth 1 ra 0) (nth 1 rb 0) < Z.min (nth 3 ra 0) (nth 3 rb 0))%Z.

(** A box [(x, y, w, h)] of [int64] with [w >= 1] and [h >= 1]. *)
Definition int64_inclusive_box (r : list Z) : Prop :=
  match r with
  | [x; y; w; h] => Forall Int64.in_range r /\ (1 <= w)%Z /\ (1 <= h)%Z
  | _ => False
  end.

(** Such a box as a tuple or list, or an [(N, 4)] array of them. *)
Definition int64_inclusive_boxes (v : Typed.pyobj Z) : Prop :=
  match v with
  | Typed.Seq l => int64_inclusive_box l
  | Typed.Array2 a =>
      Np.shape1 a = 4%nat /\ Forall int64_inclusive_box (Np.rows a)
  | _ => False
  end.

(** A box [(x, y, w, h)] of [float64] with [w >= 1] and [h >= 1] on which
    the converters do not round: [w - 1], [h - 1], [x + (w - 1)] and
    [y + (h - 1)] are values of the type. *)
Definition float64_inclusive_box (r : list Ieee.fnum) : Prop :=
  match r with
  | [Ieee.Fin x; Ieee.Fin y; Ieee.Fin w; Ieee.Fin h] =>
      (1 <= w /\ 1 <= h) /\
      (Ieee.is_float Ieee.binary64 w /\ Ieee.is_float Ieee.binary64 h) /\
      (Ieee.representable Ieee.binary64 (w - 1) /\
       Ieee.representable Ieee.binary64 (x + (w - 1))) /\
      (Ieee.representable Ieee.binary64 (h - 1) /\
       Ieee.representable Ieee.binary64 (y + (h - 1)))
  | _ => False
  end.

Definition float64_inclusive_boxes (v : Typed.pyobj Ieee.fnum) : Prop :=
  match v with
  | Typed.Seq l => float64_inclusive_box l
  | Typed.Array2 a =>
      Np.shape1 a = 4%nat /\ Forall float64_inclusive_box (Np.rows a)
  | _ => False
  end.

(** A box [(xmin, ymin, xmax, ymax)] of [int64] with [xmin <= xmax] and
    [ymin <= ymax] whose extents [xmax - xmin] and [ymax - ymin] are
    values of the type. *)
Definition int64_ordered_box (r : list Z) : Prop :=
  match r with
  | [x1; y1; x2; y2] =>
      Forall Int64.in_range r /\
      (0 <= x2 - x1 < 2 ^ 63)%Z /\ (0 <= y2 - y1 < 2 ^ 63)%Z
  | _ => False
  end.

Definition int64_ordered_boxes (v : Typed.pyobj Z) : Prop :=
  match v with
  | Typed.Seq l => int64_ordered_box l
  | Typed.Array2 a =>
      Np.shape1 a = 4%nat /\ Forall int64_ordered_box (Np.rows a)
  | _ => False
  end.

(** A box [(x, y, w, h)] of [int64] for which neither [w - 1], [h - 1]
    nor the sums [x + max(w - 1, 0)] and [y + max(h - 1, 0)] leave the
    type. *)
Definition int64_box_in_bounds (r : list Z) : Prop :=
  match r with
  | [x; y; w; h] =>
      Forall Int64.in_range r /\
      (- 2 ^ 63 < w)%Z /\ (- 2 ^ 63 < h)%Z /\
      (x + Z.max (w - 1) 0 < 2 ^ 63)%Z /\ (y + Z.max (h - 1) 0 < 2 ^ 63)%Z
  | _ => False
  end.

Definition int64_boxes_in_bounds (v : Typed.pyobj Z) : Prop :=
  match v with
  | Typed.Seq l => int64_box_in_bounds l
  | Typed.Array2 a =>
      Np.shape1 a = 4%nat /\ Forall int64_box_in_bounds (Np.rows a)
  | _ => False
  end.

(** The boxes a typed argument or result holds. *)
Definition typed_boxes_of {A : Type} (v : Typed.pyobj A) : list (list A) :=
  match v with
  | Typed.Seq l => [l]
  | Typed.Array2 a => Np.rows a
  | _ => []
  end.

(** A box whose first corner is not past the second. *)
Definition int64_corners_in_order (r : list Z) : Prop :=
  (nth 0 r 0 <= nth 2 r 0)%Z /\ (nth 1 r 0 <= nth 3 r 0)%Z.

(** ** A geometry library that rounds

    The areas of [Exact.shapely], with the intersection area off by one
    unit in the last place of a [float64], as a rounding error makes
    it. *)
Definition rounding_shapely : Shapely :=
  Build_Shapely Exact.geometry Exact.Polygon_convex_hull
    (fun g h => a <- Exact.intersection_area g h ;;
                Ok (a * (1 + 1 / inject_Z (2 ^ 52))))
    Exact.MultiPoint_convex_hull_area.

(** A polygon of two points. *)
Definition segment : polygon := [(0, 0); (1, 1)].

(** * Properties *)

(** ** Lists and rows *)

Section ListFacts.

Context {A B C : Type}.

Lemma Forall2_map_same (R : C -> C -> Prop) (f g : A -> C) (l : list A) :
  (forall x, In x l -> R (f x) (g x)) -> Forall2 R (map f l) (map g l).
Proof.
  induction l as [|x l IH]; simpl; intros H; constructor.
  - apply H; now left.
  - apply IH; intros y Hy; apply H; now right.
Qed.

Lemma zip_with_swap (R : C -> C -> Prop) (f : A -> A -> C) :
  (forall x y, R (f x y) (f y x)) ->
  forall r1 r2, Forall2 R (Np.zip_with f r1 r2) (Np.zip_with f r2 r1).
Proof.
  intros Hf; unfold Np.zip_with.
  induction r1 as [|x r1 IH]; intros [|y r2]; simpl; constructor; auto.
Qed.

Lemma zip_with_length (f : A -> B -> C) (r1 : list A) (r2 : list B) :
  length (Np.zip_with f r1 r2) = Nat.min (length r1) (length r2).
Proof.
  unfold Np.zip_with. now rewrite length_map, length_combine.
Qed.

(** Transposing the table of [f a b] gives the table of [f] with its
    arguments exchanged. *)
Lemma transpose_rows_table (f : A -> B -> C) (la : list A) (lb : list B) :
  Np.transpose_rows (length lb) (map (fun a => map (fun b => f a b) lb) la)
  = map (fun b => map (fun a => f a b) la) lb.
Proof.
  induction la as [|a la IH]; simpl.
  - induction lb as [|b lb IHb]; simpl; [reflexivity | now rewrite IHb].
  - rewrite IH. clear IH. unfold Np.zip_with.
    induction lb as [|b lb IHb]; simpl; [reflexivity | now rewrite IHb].
Qed.

End ListFacts.

(** ** Arithmetic of the numpy fragment respects [==] *)

Lemma fold_mult_proper (r r' : list Q) :
  Forall2 Qeq r r' ->
  forall acc acc', acc == acc' ->
  fold_left Qmult r acc == fold_left Qmult r' acc'.
Proof.
  induction 1 as [|x y r r' Hxy _ IH]; simpl; intros acc acc' Hacc.
  - exact Hacc.
  - apply IH. now rewrite Hacc, Hxy.
Qed.

Lemma prod_proper (r r' : list Q) :
  Forall2 Qeq r r' -> Np.prod r == Np.prod r'.
Proof.
  intros H. unfold Np.prod. now apply fold_mult_proper.
Qed.

Lemma Qle_bool_proper (a a' b b' : Q) :
  a == a' -> b == b' -> Qle_bool a b = Qle_bool a' b'.
Proof.
  intros Ha Hb.
  destruct (Qle_bool a b) eqn:E, (Qle_bool a' b') eqn:E'; try reflexivity.
  - apply Qle_bool_iff in E. rewrite Ha, Hb in E.
    apply Qle_bool_iff in E. congruence.
  - apply Qle_bool_iff in E'. rewrite <- Ha, <- Hb in E'.
    apply Qle_bool_iff in E'. congruence.
Qed.

Lemma lt_proper (a a' b b' : Q) :
  a == a' -> b == b' -> Np.lt a b = Np.lt a' b'.
Proof.
  intros Ha Hb. unfold Np.lt. f_equal. now apply Qle_bool_proper.
Qed.

Lemma Qeq_bool_proper (a a' b b' : Q) :
  a == a' -> b == b' -> Qeq_bool a b = Qeq_bool a' b'.
Proof.
  intros Ha Hb.
  destruct (Qeq_bool a b) eqn:E, (Qeq_bool a' b') eqn:E'; try reflexivity.
  - apply Qeq_bool_iff in E. rewrite Ha, Hb in E.
    apply Qeq_bool_iff in E. congruence.
  - apply Qeq_bool_iff in E'. rewrite <- Ha, <- Hb in E'.
    apply Qeq_bool_iff in E'. congruence.
Qed.

Lemma divide_proper (x x' y y' : Q) :
  x == x' -> y == y' -> entry_eq (Np.divide x y) (Np.divide x' y').
Proof.
  intros Hx Hy. unfold Np.divide.
  rewrite (Qeq_bool_proper y y' 0 0 Hy (Qeq_refl 0)).
  destruct (Qeq_bool y' 0); simpl; [exact I | now rewrite Hx, Hy].
Qed.

Lemma Forall2_Qeq_map_plus (off : Q) (r r' : list Q) :
  Forall2 Qeq r r' ->
  Forall2 Qeq (map (fun d => d + off) r) (map (fun d => d + off) r').
Proof.
  induction 1; simpl; constructor; auto. now apply Qplus_comp.
Qed.

Lemma Forall2_zip_with_proper {T : Type} (R : T -> T -> Prop)
  (f : Q -> Q -> T) :
  (forall a a' b b', a == a' -> b == b' -> R (f a b) (f a' b')) ->
  forall r1 r1', Forall2 Qeq r1 r1' ->
  forall r2 r2', Forall2 Qeq r2 r2' ->
  Forall2 R (Np.zip_with f r1 r2) (Np.zip_with f r1' r2').
Proof.
  intros Hf r1 r1' H1. unfold Np.zip_with.
  induction H1 as [|x x' r1 r1' Hx _ IH]; intros r2 r2' H2; simpl.
  - constructor.
  - destruct H2 as [|y y' r2 r2' Hy H2]; simpl; constructor; auto.
Qed.

Lemma all_proper (l l' : list bool) :
  Forall2 eq l l' -> Np.all l = Np.all l'.
Proof.
  induction 1; simpl; [reflexivity | subst; now f_equal].
Qed.

(** ** bbox_iou *)

Lemma tl_swap (ra rb : list Q) : Forall2 Qeq (tl ra rb) (tl rb ra).
Proof. apply zip_with_swap. intros x y. apply Q.max_comm. Qed.

Lemma br_swap (ra rb : list Q) : Forall2 Qeq (br ra rb) (br rb ra).
Proof. apply zip_with_swap. intros x y. apply Q.min_comm. Qed.

Lemma area_i_swap (offset : Q) (ra rb : list Q) :
  area_i offset ra rb == area_i offset rb ra.
Proof.
  unfold area_i.
  assert (Hp : Np.prod (map (fun d => d + offset)
                          (Np.zip_with Qminus (br ra rb) (tl ra rb)))
               == Np.prod (map (fun d => d + offset)
                             (Np.zip_with Qminus (br rb ra) (tl rb ra)))).
  { apply prod_proper, Forall2_Qeq_map_plus.
    apply Forall2_zip_with_proper; auto using br_swap, tl_swap.
    intros a a' b b' Ha Hb. now rewrite Ha, Hb. }
  assert (Hb : Np.all (Np.zip_with Np.lt (tl ra rb) (br ra rb))
               = Np.all (Np.zip_with Np.lt (tl rb ra) (br rb ra))).
  { apply all_proper.
    apply Forall2_zip_with_proper; auto using br_swap, tl_swap.
    intros; now apply lt_proper. }
  now rewrite Hp, Hb.
Qed.

Lemma iou_entry_swap (offset : Q) (ra rb : list Q) :
  entry_eq (iou_entry offset ra rb) (iou_entry offset rb ra).
Proof.
  unfold iou_entry. apply divide_proper.
  - apply area_i_swap.
  - rewrite (area_i_swap offset ra rb). ring.
Qed.

(** C3.  For the boxes A = (0, 0, 10, 10) and B = (5, 5, 15, 15) with
    offset 0, the intersection area is 25, the union area is
    100 + 100 - 25 = 175, and [bbox_iou] returns the 1 x 1 matrix whose
    entry is 25/175. *)
Theorem bbox_iou_example :
  let A := [0; 0; 10; 10] in
  let B := [5; 5; 15; 15] in
  area_i 0 A B == 25 /\
  area 0 A == 100 /\ area 0 B == 100 /\
  area 0 A + area 0 B - area_i 0 A B == 175 /\
  exists v,
    bbox_iou (Np.mk_ndarray [A] 4) (Np.mk_ndarray [B] 4) 0
    = Ok (Np.mk_ndarray [[Some v]] 1) /\
    v == 25 / 175.
Proof.
  cbv zeta. repeat split; try reflexivity.
  exists (25 # 175). split; reflexivity.
Qed.

(** C5.  The transpose of [bbox_iou(A, B, offset)] equals
    [bbox_iou(B, A, offset)], for all box tables and every offset; when
    one call raises, so does the other, with the same exception. *)
Theorem bbox_iou_transpose (bbox_a bbox_b : Np.ndarray Q) (offset : Q) :
  result_eq (array_eq entry_eq)
    (iou <- bbox_iou bbox_a bbox_b offset ;; Ok (Np.transpose iou))
    (bbox_iou bbox_b bbox_a offset).
Proof.
  unfold bbox_iou. rewrite (orb_comm (Np.shape1 bbox_b <? 4)%nat).
  destruct ((Np.shape1 bbox_a <? 4) || (Np.shape1 bbox_b <? 4))%nat; simpl.
  - reflexivity.
  - unfold array_eq, Np.transpose, Np.shape0; simpl. split.
    + now rewrite length_map.
    + rewrite (transpose_rows_table (iou_entry offset)).
      apply Forall2_map_same. intros rb _.
      apply Forall2_map_same. intros ra _.
      apply iou_entry_swap.
Qed.

(** ** Box format conversions *)

Lemma size_4_cols (a : Np.ndarray Q) :
  Np.shape1 a = 4%nat -> (Np.size a mod 4 =? 0)%nat = true.
Proof.
  intros H. unfold Np.size. rewrite H. apply Nat.eqb_eq.
  apply Nat.Div0.mod_mul.
Qed.

(** On an array with four columns the two converters return an array
    with four columns and one row per input row. *)
Lemma bbox_xywh_to_xyxy_array4 (a : Np.ndarray Q) :
  Np.shape1 a = 4%nat ->
  bbox_xywh_to_xyxy (Array2 a)
  = Ok (Array2 (Np.mk_ndarray
          (map (fun r =>
                  top_left r ++
                  broadcast Qplus (top_left r)
                    (map (fun d => Qmax 0 (d - 1)) (bottom_right r)))
               (Np.rows a))
          4)).
Proof.
  intros Hk. unfold bbox_xywh_to_xyxy.
  rewrite (size_4_cols a Hk), Hk. reflexivity.
Qed.

Lemma bbox_xyxy_to_xywh_array4 (a : Np.ndarray Q) :
  Np.shape1 a = 4%nat ->
  bbox_xyxy_to_xywh (Array2 a)
  = Ok (Array2 (Np.mk_ndarray
          (map (fun r =>
                  top_left r ++
                  map (fun d => d + 1)
                    (broadcast Qminus (bottom_right r) (top_left r)))
               (Np.rows a))
          4)).
Proof.
  intros Hk. unfold bbox_xyxy_to_xywh.
  rewrite (size_4_cols a Hk), Hk. reflexivity.
Qed.

(** ** bbox_clip_xyxy *)

Lemma clip_coord_upper (bound v : Q) : clip_coord bound v <= bound - 1.
Proof. unfold clip_coord. apply Q.le_min_l. Qed.

Lemma clip_coord_within (bound v : Q) :
  1 <= bound -> within bound (clip_coord bound v).
Proof.
  intros Hb. split; [|apply clip_coord_upper].
  unfold clip_coord. apply Q.min_glb; [lra | apply Q.le_max_l].
Qed.

Lemma Forall_clip_coord (bound : Q) (l : list Q) :
  1 <= bound -> Forall (within bound) (map (clip_coord bound) l).
Proof.
  intros Hb. apply Forall_forall. intros v Hv.
  apply in_map_iff in Hv. destruct Hv as [u [<- _]].
  now apply clip_coord_within.
Qed.

Lemma bbox_clip_xyxy_array4 (a : Np.ndarray Q) (width height : Q) :
  Np.shape1 a = 4%nat ->
  bbox_clip_xyxy (Array2 a) width height
  = Ok (Array1
          (map (clip_coord width) (map (fun r => nth 0 r 0) (Np.rows a)) ++
           map (clip_coord height) (map (fun r => nth 1 r 0) (Np.rows a)) ++
           map (clip_coord width) (map (fun r => nth 2 r 0) (Np.rows a)) ++
           map (clip_coord height) (map (fun r => nth 3 r 0) (Np.rows a)))).
Proof.
  intros Hk. unfold bbox_clip_xyxy, column.
  rewrite (size_4_cols a Hk), Hk. reflexivity.
Qed.

(** C7, as the code has it.  For every box (a tuple or list of four
    numbers, or an [(N, 4)] array) and all [width >= 1] and
    [height >= 1], [bbox_clip_xyxy] returns, and every coordinate of its
    result satisfies [0 <= x1, x2 <= width - 1] and
    [0 <= y1, y2 <= height - 1]. *)
Theorem bbox_clip_xyxy_bounds (v : pyobj) (width height : Q) :
  1 <= width -> 1 <= height -> box_input v ->
  exists out,
    bbox_clip_xyxy v width height = Ok out /\ clipped width height out.
Proof.
  intros Hw Hh Hv.
  destruct v as [l | l | a |]; unfold box_input in Hv; try contradiction.
  - destruct l as [|a0 [|a1 [|a2 [|a3 [|]]]]]; try discriminate.
    eexists; split; [reflexivity|].
    simpl. auto using clip_coord_within.
  - rewrite (bbox_clip_xyxy_array4 a width height Hv).
    eexists; split; [reflexivity|].
    simpl. do 4 eexists. split; [reflexivity|].
    rewrite !length_map.
    auto 10 using Forall_clip_coord.
Qed.

Lemma bbox_clip_xyxy_bounds_witness :
  (exists out,
     bbox_clip_xyxy (Seq [-3; 5; 700; 20]) 640 480 = Ok out /\
     clipped 640 480 out)
  /\
  (exists out,
     bbox_clip_xyxy
       (Array2 (Np.mk_ndarray [[-3; 5; 700; 20]; [1; 2; 3; 500]] 4)) 640 480
     = Ok out /\
     clipped 640 480 out).
Proof.
  split.
  - apply (bbox_clip_xyxy_bounds (Seq [-3; 5; 700; 20]) 640 480);
      [discriminate | discriminate | reflexivity].
  - apply (bbox_clip_xyxy_bounds
             (Array2 (Np.mk_ndarray [[-3; 5; 700; 20]; [1; 2; 3; 500]] 4))
             640 480);
      [discriminate | discriminate | reflexivity].
Defined.

(** C7 as stated fails: with [width = height = 0] every coordinate is
    clipped to [-1]. *)
Lemma bbox_clip_xyxy_counterexample :
  exists out,
    bbox_clip_xyxy (Seq [5; 5; 20; 20]) 0 0 = Ok out /\
    out = Seq [-1; -1; -1; -1] /\
    ~ clipped 0 0 out.
Proof.
  eexists; split; [vm_compute; reflexivity|]. split; [reflexivity|].
  intros [[H _] _]. vm_compute in H. now apply H.
Qed.

Lemma row_of_4 (a : Np.ndarray Q) (r : list Q) :
  Np.shape1 a = 4%nat -> Np.well_shaped a = true -> In r (Np.rows a) ->
  exists x y z t, r = [x; y; z; t].
Proof.
  intros Hk Hw Hr. unfold Np.well_shaped in Hw.
  rewrite forallb_forall in Hw. specialize (Hw r Hr).
  rewrite Hk in Hw. apply Nat.eqb_eq in Hw.
  destruct r as [|x [|y [|z [|t [|]]]]]; try discriminate.
  now exists x, y, z, t.
Qed.

(** C10.  On an ndarray of shape [(N, 4)], [bbox_clip_xyxy] returns a
    one-dimensional array of length [4 N], while [bbox_xywh_to_xyxy] and
    [bbox_xyxy_to_xywh] return an array of shape [(N, 4)]. *)
Theorem converters_output_shape (a : Np.ndarray Q) (width height : Q) :
  has_shape (Array2 a) [Np.shape0 a; 4%nat] ->
  (exists out, bbox_clip_xyxy (Array2 a) width height = Ok out /\
               has_shape out [(4 * Np.shape0 a)%nat]) /\
  (exists out, bbox_xywh_to_xyxy (Array2 a) = Ok out /\
               has_shape out [Np.shape0 a; 4%nat]) /\
  (exists out, bbox_xyxy_to_xywh (Array2 a) = Ok out /\
               has_shape out [Np.shape0 a; 4%nat]).
Proof.
  intros [Hs Hw]. assert (Hk : Np.shape1 a = 4%nat) by congruence.
  repeat split.
  - rewrite (bbox_clip_xyxy_array4 a width height Hk).
    eexists; split; [reflexivity|]. simpl.
    rewrite !length_app, !length_map. unfold Np.shape0. f_equal. lia.
  - rewrite (bbox_xywh_to_xyxy_array4 a Hk).
    eexists; split; [reflexivity|]. simpl. split.
    + unfold Np.shape0; simpl. now rewrite length_map.
    + unfold Np.well_shaped; simpl. apply forallb_forall. intros r' Hr'.
      apply in_map_iff in Hr'. destruct Hr' as [r [<- Hr]].
      destruct (row_of_4 a r Hk Hw Hr) as (x & y & z & t & ->). reflexivity.
  - rewrite (bbox_xyxy_to_xywh_array4 a Hk).
    eexists; split; [reflexivity|]. simpl. split.
    + unfold Np.shape0; simpl. now rewrite length_map.
    + unfold Np.well_shaped; simpl. apply forallb_forall. intros r' Hr'.
      apply in_map_iff in Hr'. destruct Hr' as [r [<- Hr]].
      destruct (row_of_4 a r Hk Hw Hr) as (x & y & z & t & ->). reflexivity.
Qed.

Lemma converters_output_shape_witness :
  let a := Np.mk_ndarray [[0; 0; 10; 10]; [3; 4; 1; 2]; [7; 7; 9; 9]] 4 in
  (exists out, bbox_clip_xyxy (Array2 a) 8 8 = Ok out /\
               has_shape out [12%nat]) /\
  (exists out, bbox_xywh_to_xyxy (Array2 a) = Ok out /\
               has_shape out [3%nat; 4%nat]) /\
  (exists out, bbox_xyxy_to_xywh (Array2 a) = Ok out /\
               has_shape out [3%nat; 4%nat]).
Proof.
  cbv zeta.
  apply (converters_output_shape
           (Np.mk_ndarray [[0; 0; 10; 10]; [3; 4; 1; 2]; [7; 7; 9; 9]] 4) 8 8).
  split; reflexivity.
Defined.

(** ** Loops *)

Lemma Forall2_nth_error_l {A B : Type} (R : A -> B -> Prop)
  (xs : list A) (ys : list B) (n : nat) (x : A) :
  Forall2 R xs ys -> nth_error xs n = Some x ->
  exists y, nth_error ys n = Some y /\ R x y.
Proof.
  intros H. revert n. induction H as [|x' y' xs ys Hxy _ IH]; intros n Hn.
  - destruct n; discriminate.
  - destruct n as [|n]; simpl in *.
    + injection Hn as <-. now exists y'.
    + now apply IH.
Qed.

Lemma Forall2_In_r {A B : Type} (R : A -> B -> Prop)
  (xs : list A) (ys : list B) (y : B) :
  Forall2 R xs ys -> In y ys -> exists x, In x xs /\ R x y.
Proof.
  induction 1 as [|x' y' xs ys Hxy _ IH]; simpl; intros Hin; [contradiction|].
  destruct Hin as [<- | Hin].
  - exists x'. split; [now left | assumption].
  - destruct (IH Hin) as (x & Hx & HR). exists x. split; [now right | assumption].
Qed.

Section ForEach.

Context {A B : Type}.
Variable f : A -> result B.

Lemma for_each_Ok (xs : list A) (ys : list B) :
  for_each f xs = Ok ys -> Forall2 (fun x y => f x = Ok y) xs ys.
Proof.
  revert ys. induction xs as [|x xs IH]; simpl; intros ys H.
  - injection H as <-. constructor.
  - destruct (f x) as [y|e] eqn:Ex; simpl in H; [|discriminate].
    destruct (for_each f xs) as [ys'|e] eqn:Exs; simpl in H; [|discriminate].
    injection H as <-. constructor; auto.
Qed.

Lemma for_each_Raise (xs : list A) (e : exn) :
  for_each f xs = Raise e -> exists x, In x xs /\ f x = Raise e.
Proof.
  induction xs as [|x xs IH]; simpl; intros H; [discriminate|].
  destruct (f x) as [y|e'] eqn:Ex; simpl in H.
  - destruct (for_each f xs) as [ys'|e''] eqn:Exs; simpl in H; [discriminate|].
    injection H as ->. destruct (IH eq_refl) as [x' [Hin Hx']].
    exists x'. split; [now right | assumption].
  - injection H as ->. exists x. split; [now left | assumption].
Qed.

End ForEach.

(** ** polygon_iou *)

Section PolygonIouFacts.

Context {G : Shapely}.

Lemma pair_iou_degenerate (a b : polygon) (ga gb : geometry) :
  degenerate a b ga gb -> pair_iou a b ga gb = Ok 0.
Proof.
  unfold pair_iou. intros [H | (ia & Hi & [H | (ua & Hu & Hz)])].
  - now rewrite H.
  - now rewrite Hi, H.
  - rewrite Hi, Hu. simpl.
    destruct Hz as [Hz | Hz]; apply Qeq_bool_iff in Hz; rewrite Hz;
      [now rewrite orb_true_r | reflexivity].
Qed.

Lemma pair_iou_Raise (a b : polygon) (ga gb : geometry) (e : exn) :
  pair_iou a b ga gb = Raise e ->
  e <> TopologicalError /\
  (intersection_area ga gb = Raise e \/
   MultiPoint_convex_hull_area (a ++ b) = Raise e).
Proof.
  unfold pair_iou.
  destruct (intersection_area ga gb) as [ia|e1]; simpl.
  - destruct (MultiPoint_convex_hull_area (a ++ b)) as [ua|e2]; simpl.
    + discriminate.
    + destruct e2; intros H; try discriminate; injection H as <-;
        (split; [discriminate | now right]).
  - destruct e1; intros H; try discriminate; injection H as <-;
      (split; [discriminate | now left]).
Qed.

(** The value a pair gets lies in [[0, 1]] when its two areas are
    ordered as those of a region and of a region that contains it. *)
Lemma pair_iou_unit (a b : polygon) (ga gb : geometry) (v : Q) :
  (forall inter_area union_area,
     intersection_area ga gb = Ok inter_area ->
     MultiPoint_convex_hull_area (a ++ b) = Ok union_area ->
     0 <= inter_area <= union_area) ->
  pair_iou a b ga gb = Ok v -> 0 <= v <= 1.
Proof.
  unfold pair_iou. intros Hord.
  destruct (intersection_area ga gb) as [ia|e1]; simpl.
  - destruct (MultiPoint_convex_hull_area (a ++ b)) as [ua|e2]; simpl.
    + destruct (Hord ia ua eq_refl eq_refl) as [H0 Hle].
      destruct (Qeq_bool ua 0 || Qeq_bool ia 0) eqn:Ez;
        intros H; injection H as <-; [lra|].
      apply orb_false_elim in Ez. destruct Ez as [Eu _].
      assert (Hu : 0 < ua).
      { destruct (Qlt_le_dec 0 ua) as [|Hneg]; [assumption|].
        assert (E : ua == 0) by lra.
        apply Qeq_bool_iff in E. congruence. }
      split.
      * apply Qle_shift_div_l; [assumption | lra].
      * apply Qle_shift_div_r; [assumption | lra].
    + destruct e2; intros H; try discriminate; injection H as <-; lra.
  - destruct e1; intros H; try discriminate; injection H as <-; lra.
Qed.

(** The rows of a returned matrix, pair by pair. *)
Lemma polygon_iou_entry (polygon_as polygon_bs : list polygon)
  (ious : Np.ndarray Q) (n m : nat) (a b : polygon) :
  polygon_iou polygon_as polygon_bs = Ok ious ->
  nth_error polygon_as n = Some a ->
  nth_error polygon_bs m = Some b ->
  exists ga gb v,
    Polygon_convex_hull a = Ok ga /\ Polygon_convex_hull b = Ok gb /\
    pair_iou a b ga gb = Ok v /\ entry ious n m = Some v.
Proof.
  unfold polygon_iou. intros H Ha Hb.
  destruct (for_each _ polygon_as) as [rows|e] eqn:Erows; simpl in H;
    [|discriminate].
  injection H as <-.
  apply for_each_Ok in Erows.
  destruct (Forall2_nth_error_l _ _ _ _ _ Erows Ha) as (row & Hrow & Hfa).
  destruct (Polygon_convex_hull a) as [ga|e] eqn:Ega; simpl in Hfa;
    [|discriminate].
  apply for_each_Ok in Hfa.
  destruct (Forall2_nth_error_l _ _ _ _ _ Hfa Hb) as (v & Hv & Hfb).
  destruct (Polygon_convex_hull b) as [gb|e] eqn:Egb; simpl in Hfb;
    [|discriminate].
  exists ga, gb, v. repeat split; try assumption.
  unfold entry; simpl. now rewrite Hrow.
Qed.

Lemma polygon_iou_shape (polygon_as polygon_bs : list polygon)
  (ious : Np.ndarray Q) :
  polygon_iou polygon_as polygon_bs = Ok ious ->
  Np.shape0 ious = length polygon_as /\
  Np.shape1 ious = length polygon_bs /\
  Np.well_shaped ious = true.
Proof.
  unfold polygon_iou. intros H.
  destruct (for_each _ polygon_as) as [rows|e] eqn:Erows; simpl in H;
    [|discriminate].
  injection H as <-.
  apply for_each_Ok in Erows.
  unfold Np.shape0, Np.well_shaped; simpl. repeat split.
  - symmetry. eapply Forall2_length; eassumption.
  - apply forallb_forall. intros row Hrow.
    destruct (Forall2_In_r _ _ _ _ Erows Hrow) as (a & _ & Hfa).
    destruct (Polygon_convex_hull a) as [ga|e]; simpl in Hfa; [|discriminate].
    apply for_each_Ok in Hfa. apply Nat.eqb_eq.
    symmetry. eapply Forall2_length; eassumption.
Qed.

Lemma polygon_iou_Raise (polygon_as polygon_bs : list polygon) (e : exn) :
  polygon_iou polygon_as polygon_bs = Raise e ->
  (exists p, In p (polygon_as ++ polygon_bs) /\
             Polygon_convex_hull p = Raise e) \/
  area_failure polygon_as polygon_bs e.
Proof.
  unfold polygon_iou. intros H.
  destruct (for_each _ polygon_as) as [rows|e'] eqn:Erows; simpl in H;
    [discriminate|].
  injection H as ->.
  apply for_each_Raise in Erows. destruct Erows as (a & Hina & Hfa).
  destruct (Polygon_convex_hull a) as [ga|e'] eqn:Ega; simpl in Hfa.
  - apply for_each_Raise in Hfa. destruct Hfa as (b & Hinb & Hfb).
    destruct (Polygon_convex_hull b) as [gb|e'] eqn:Egb; simpl in Hfb.
    + right. apply pair_iou_Raise in Hfb. destruct Hfb as [Hne Hor].
      split; [assumption|]. now exists a, b, ga, gb.
    + injection Hfb as ->. left. exists b. split; [|assumption].
      apply in_or_app. now right.
  - injection Hfa as ->. left. exists a. split; [|assumption].
    apply in_or_app. now left.
Qed.

(** C2, as the code has it.  For a pair whose two hulls are built,
    [polygon_iou] stores exactly 0 when the intersection area or the
    pooled-hull area is zero, and when one of the two area computations
    of the [try] block raises [TopologicalError].  The exceptions it
    lets through are those of the hull constructions, which stand
    outside the [try] block, and exceptions other than
    [TopologicalError] of the area computations; when there are none it
    returns an [N x M] matrix. *)
Theorem polygon_iou_degenerate_pairs (polygon_as polygon_bs : list polygon) :
  (forall ious n m a b ga gb,
     polygon_iou polygon_as polygon_bs = Ok ious ->
     nth_error polygon_as n = Some a ->
     nth_error polygon_bs m = Some b ->
     Polygon_convex_hull a = Ok ga ->
     Polygon_convex_hull b = Ok gb ->
     degenerate a b ga gb ->
     entry ious n m = Some 0) /\
  (forall e,
     polygon_iou polygon_as polygon_bs = Raise e ->
     (exists p, In p (polygon_as ++ polygon_bs) /\
                Polygon_convex_hull p = Raise e) \/
     area_failure polygon_as polygon_bs e) /\
  ((forall p, In p (polygon_as ++ polygon_bs) ->
              exists g, Polygon_convex_hull p = Ok g) ->
   (forall e, ~ area_failure polygon_as polygon_bs e) ->
   exists ious,
     polygon_iou polygon_as polygon_bs = Ok ious /\
     Np.shape0 ious = length polygon_as /\
     Np.shape1 ious = length polygon_bs).
Proof.
  split; [|split].
  - intros ious n m a b ga gb Hret Ha Hb Hga Hgb Hdeg.
    destruct (polygon_iou_entry _ _ _ _ _ _ _ Hret Ha Hb)
      as (ga' & gb' & v & Hga' & Hgb' & Hv & Hentry).
    rewrite Hga in Hga'. injection Hga' as <-.
    rewrite Hgb in Hgb'. injection Hgb' as <-.
    rewrite (pair_iou_degenerate _ _ _ _ Hdeg) in Hv. injection Hv as <-.
    exact Hentry.
  - intros e. apply polygon_iou_Raise.
  - intros Hhull Harea.
    destruct (polygon_iou polygon_as polygon_bs) as [ious|e] eqn:E.
    + exists ious. split; [reflexivity|].
      destruct (polygon_iou_shape _ _ _ E) as (H0 & H1 & _). now split.
    + exfalso. destruct (polygon_iou_Raise _ _ _ E) as [(p & Hp & Hr) | Hf].
      * destruct (Hhull p Hp) as [g Hg]. congruence.
      * exact (Harea e Hf).
Qed.


End PolygonIouFacts.

(** On the exact instance the squares [sqA] and [sqC] do not meet; on
    the failing one every intersection raises. *)
Lemma polygon_iou_degenerate_pairs_witness :
  (exists ious,
     polygon_iou (G := Exact.shapely) [sqA; sqB] [sqB; sqC] = Ok ious /\
     entry ious 0 1 = Some 0) /\
  (exists ious,
     polygon_iou (G := Exact.failing_shapely) [sqA; sqB] [sqB; sqC]
     = Ok ious /\
     entry ious 1 0 = Some 0).
Proof.
  split.
  - eexists. split; [vm_compute; reflexivity|].
    eapply (proj1 (polygon_iou_degenerate_pairs (G := Exact.shapely)
                     [sqA; sqB] [sqB; sqC])
              _ 0%nat 1%nat sqA sqC);
      try (vm_compute; reflexivity).
    right. eexists. split; [vm_compute; reflexivity|].
    right. eexists. split; [vm_compute; reflexivity|].
    left. reflexivity.
  - eexists. split; [vm_compute; reflexivity|].
    eapply (proj1 (polygon_iou_degenerate_pairs (G := Exact.failing_shapely)
                     [sqA; sqB] [sqB; sqC])
              _ 1%nat 0%nat sqB sqB);
      try (vm_compute; reflexivity).
    left. reflexivity.
Defined.


(** ** coef_trans_polygon *)

Section Fusion.

Context {T A B C : Type}.

Lemma zip_with_map_map (f : A -> B -> C) (g : T -> A) (h : T -> B)
  (l : list T) :
  Np.zip_with f (map g l) (map h l) = map (fun t => f (g t) (h t)) l.
Proof.
  unfold Np.zip_with. induction l as [|t l IH]; simpl; [reflexivity|].
  now rewrite IH.
Qed.

Lemma combine_map_map (g : T -> A) (h : T -> B) (l : list T) :
  combine (map g l) (map h l) = map (fun t => (g t, h t)) l.
Proof.
  induction l as [|t l IH]; simpl; [reflexivity | now rewrite IH].
Qed.

End Fusion.

Lemma repeat_length {A C : Type} (c : C) (l : list A) :
  repeat c (length l) = map (fun _ => c) l.
Proof.
  induction l as [|t l IH]; simpl; [reflexivity | now rewrite IH].
Qed.

Lemma broadcast0_map_map {T A B C : Type} (f : A -> B -> C)
  (g : T -> A) (h : T -> B) (l : list T) :
  broadcast0 f (map g l) (map h l) = Ok (map (fun t => f (g t) (h t)) l).
Proof.
  unfold broadcast0. rewrite !length_map, Nat.eqb_refl.
  now rewrite zip_with_map_map.
Qed.

Lemma map_fst_combine {A B : Type} (l : list A) (l' : list B) :
  length l = length l' -> map fst (combine l l') = l.
Proof.
  revert l'. induction l as [|x l IH]; intros [|y l'] H; simpl in *;
    try discriminate; [reflexivity|].
  f_equal. apply IH. now injection H.
Qed.

Lemma map_snd_combine {A B : Type} (l : list A) (l' : list B) :
  length l = length l' -> map snd (combine l l') = l'.
Proof.
  revert l'. induction l as [|x l IH]; intros [|y l'] H; simpl in *;
    try discriminate; [reflexivity|].
  f_equal. apply IH. now injection H.
Qed.

Lemma Forall2_map_map {T A B : Type} (R : A -> B -> Prop)
  (g : T -> A) (h : T -> B) (l : list T) :
  (forall t, In t l -> R (g t) (h t)) -> Forall2 R (map g l) (map h l).
Proof.
  induction l as [|t l IH]; simpl; intros H; constructor.
  - apply H; now left.
  - apply IH; intros u Hu; apply H; now right.
Qed.

Lemma length_theta_list : length theta_list = 360%nat.
Proof. unfold theta_list. now rewrite length_map, length_rev, length_seq. Qed.

Section ReconstructionFacts.

Context {N : Numerics}.

Lemma coef_trans_polygon_rows (coefs bboxs centers : Np.ndarray Q) :
  reconstruction_tables coefs bboxs centers ->
  coef_trans_polygon coefs bboxs centers
  = Ok (map (fun t => row_polygon (fst t) (fst (snd t)) (snd (snd t)))
          (combine (Np.rows coefs)
             (combine (Np.rows bboxs) (Np.rows centers)))) /\
  Np.rows bboxs
  = map (fun t => fst (snd t))
      (combine (Np.rows coefs) (combine (Np.rows bboxs) (Np.rows centers))).
Proof.
  intros ((Hc & Hct & Hb4 & Hc2) & Hn & Hk).
  unfold Np.shape0 in Hc, Hct, Hn.
  set (T := combine (Np.rows coefs) (combine (Np.rows bboxs) (Np.rows centers))).
  assert (Ecoef : Np.rows coefs = map fst T).
  { unfold T. rewrite map_fst_combine; [reflexivity|].
    rewrite length_combine. lia. }
  assert (Ebox : Np.rows bboxs = map (fun t => fst (snd t)) T).
  { unfold T. rewrite <- (map_map snd fst).
    rewrite map_snd_combine by (rewrite length_combine; lia).
    rewrite map_fst_combine; [reflexivity | lia]. }
  assert (Ecen : Np.rows centers = map (fun t => snd (snd t)) T).
  { unfold T. rewrite <- (map_map snd snd).
    rewrite map_snd_combine by (rewrite length_combine; lia).
    rewrite map_snd_combine; [reflexivity | lia]. }
  assert (HT : (length T =? 0)%nat = false).
  { apply Nat.eqb_neq. unfold T. rewrite !length_combine. lia. }
  split; [|exact Ebox].
  unfold coef_trans_polygon, column, cheby.
  rewrite Hb4, Hc2.
  destruct (Nat.eqb_spec (Np.shape1 coefs) 0) as [E0|_]; [lia|].
  cbn [Nat.ltb Nat.leb bind].
  rewrite Ecoef, Ebox, Ecen.
  rewrite !map_map.
  rewrite !zip_with_map_map.
  rewrite broadcast0_map_map. cbn [bind].
  rewrite !map_map, !length_map, HT. cbn [bind].
  rewrite !repeat_length.
  rewrite !zip_with_map_map.
  rewrite !map_map.
  rewrite !combine_map_map.
  rewrite !broadcast0_map_map. cbn [bind].
  rewrite !broadcast0_map_map. cbn [bind].
  rewrite !length_map, Nat.eqb_refl.
  rewrite zip_with_map_map.
  reflexivity.
Qed.

End ReconstructionFacts.

(** ** coef_iou and coef_polygon_iou *)

Lemma chunks_concat (n : nat) (rows : list (list Q)) :
  (0 < n)%nat ->
  Forall (fun r => length r = n) rows ->
  forall fuel, (length (concat rows) <= fuel)%nat ->
  chunks fuel n (concat rows) = rows.
Proof.
  intros Hn Hrows. induction Hrows as [|r rows Hr _ IH]; intros fuel Hfuel.
  - destruct fuel; reflexivity.
  - simpl in *. rewrite length_app in Hfuel.
    destruct fuel as [|fuel]; [lia|].
    destruct r as [|x r']; [simpl in Hr; lia|].
    change ((x :: r') ++ concat rows) with (x :: (r' ++ concat rows)).
    cbn [chunks].
    change (x :: (r' ++ concat rows)) with ((x :: r') ++ concat rows).
    rewrite firstn_app, skipn_app, Hr, Nat.sub_diag.
    rewrite <- Hr at 1 3. rewrite firstn_all, skipn_all.
    cbn [firstn skipn app]. rewrite app_nil_r.
    f_equal. apply IH. simpl in Hfuel. lia.
Qed.

Lemma concat_length_mul (n : nat) (rows : list (list Q)) :
  Forall (fun r => length r = n) rows ->
  length (concat rows) = (length rows * n)%nat.
Proof.
  induction 1 as [|r rows Hr _ IH]; simpl; [reflexivity|].
  rewrite length_app, IH, Hr. reflexivity.
Qed.

Lemma reshape_360_rows (a : Np.ndarray Q) :
  points_table a -> reshape_360 a = Ok (Np.rows a).
Proof.
  intros [_ Hrows]. unfold reshape_360.
  rewrite (concat_length_mul 360 _ Hrows), Nat.Div0.mod_mul, Nat.eqb_refl.
  f_equal. apply chunks_concat; [lia | assumption|].
  now rewrite (concat_length_mul 360 _ Hrows).
Qed.

Section CompositesFacts.

Context {G : Shapely} {N : Numerics}.

(** C8.  [coef_iou] is [polygon_iou] applied to the reconstruction of
    each side, and, for ground-truth tables of shapes [(M, 360)],
    [coef_polygon_iou] is [polygon_iou] applied to the reconstructed
    predictions and the ground-truth points taken as [M] polygons of 360
    points. *)
Theorem composites_delegate :
  (forall coef_as coef_bs bbox_as bbox_bs center_as center_bs,
     coef_iou coef_as coef_bs bbox_as bbox_bs center_as center_bs
     = coef_iou_spec coef_as coef_bs bbox_as bbox_bs center_as center_bs) /\
  (forall pred_coef_l pred_center_l pred_bbox_l gt_points_xs_l gt_points_ys_l,
     points_table gt_points_xs_l ->
     points_table gt_points_ys_l ->
     Np.shape0 gt_points_xs_l = Np.shape0 gt_points_ys_l ->
     coef_polygon_iou
       pred_coef_l pred_center_l pred_bbox_l gt_points_xs_l gt_points_ys_l
     = coef_polygon_iou_spec pred_coef_l pred_center_l pred_bbox_l
         gt_points_xs_l gt_points_ys_l).
Proof.
  split.
  - reflexivity.
  - intros pred_coef_l pred_center_l pred_bbox_l xs ys Hxs Hys Hlen.
    unfold coef_polygon_iou, coef_polygon_iou_spec, reconstruct_then_iou.
    rewrite (reshape_360_rows xs Hxs), (reshape_360_rows ys Hys).
    cbn [bind]. unfold Np.shape0 in Hlen. rewrite Hlen, Nat.eqb_refl.
    cbn [bind].
    destruct (coef_trans_polygon pred_coef_l pred_bbox_l pred_center_l);
      reflexivity.
Qed.

End CompositesFacts.

Lemma composites_delegate_witness :
  coef_polygon_iou (G := Exact.shapely) (N := Exact.numerics)
    (Np.mk_ndarray [[1 # 2; 0]] 2) (Np.mk_ndarray [[1; 2]] 2)
    (Np.mk_ndarray [[0; 0; 3; 4]] 4) gt_xs gt_ys
  = coef_polygon_iou_spec (G := Exact.shapely) (N := Exact.numerics)
      (Np.mk_ndarray [[1 # 2; 0]] 2) (Np.mk_ndarray [[1; 2]] 2)
      (Np.mk_ndarray [[0; 0; 3; 4]] 4) gt_xs gt_ys.
Proof.
  apply (proj2 (composites_delegate (G := Exact.shapely)
                  (N := Exact.numerics))).
  - split; [reflexivity|].
    constructor; [|constructor]. now rewrite length_map, length_theta_list.
  - split; [reflexivity|].
    constructor; [|constructor]. now rewrite length_map, length_theta_list.
  - reflexivity.
Defined.

(** * Further properties *)

(** ** bbox_iou: errors, shape and entries *)

(** X1.  [bbox_iou] raises exactly when a table has fewer than four
    columns, and then [IndexError]; otherwise it returns a matrix with one
    row per row of [bbox_a] and one column per row of [bbox_b]. *)
Theorem bbox_iou_errors_and_shape (bbox_a bbox_b : Np.ndarray Q) (offset : Q) :
  (forall e, bbox_iou bbox_a bbox_b offset = Raise e ->
             e = IndexError /\
             ((Np.shape1 bbox_a < 4)%nat \/ (Np.shape1 bbox_b < 4)%nat)) /\
  ((Np.shape1 bbox_a < 4)%nat \/ (Np.shape1 bbox_b < 4)%nat ->
   bbox_iou bbox_a bbox_b offset = Raise IndexError) /\
  (forall iou, bbox_iou bbox_a bbox_b offset = Ok iou ->
               Np.shape0 iou = Np.shape0 bbox_a /\
               Np.shape1 iou = Np.shape0 bbox_b /\
               Np.well_shaped iou = true).
Proof.
  unfold bbox_iou.
  destruct (Nat.ltb_spec (Np.shape1 bbox_a) 4) as [Ea | Ea];
    destruct (Nat.ltb_spec (Np.shape1 bbox_b) 4) as [Eb | Eb]; simpl.
  1-3: (split; [intros e H; injection H as <-; split; [reflexivity | lia]
               | split; [reflexivity | discriminate]]).
  split; [discriminate|]. split; [lia|].
  intros iou H. injection H as <-.
  unfold Np.shape0, Np.well_shaped; simpl. rewrite length_map.
  repeat split. apply forallb_forall. intros r Hr.
  apply in_map_iff in Hr. destruct Hr as (ra & <- & _).
  rewrite length_map. apply Nat.eqb_refl.
Qed.

Lemma bbox_iou_errors_and_shape_witness :
  bbox_iou (Np.mk_ndarray [[0; 0; 10]] 3)
           (Np.mk_ndarray [[5; 5; 15; 15]] 4) 0 = Raise IndexError /\
  exists iou,
    bbox_iou (Np.mk_ndarray [[0; 0; 10; 10]; [2; 2; 4; 8]] 4)
             (Np.mk_ndarray [[5; 5; 15; 15]] 4) 0 = Ok iou /\
    Np.shape0 iou = 2%nat /\ Np.shape1 iou = 1%nat /\
    Np.well_shaped iou = true.
Proof.
  split.
  - apply (proj1 (proj2 (bbox_iou_errors_and_shape _ _ 0))).
    left. cbv. lia.
  - destruct (bbox_iou (Np.mk_ndarray [[0; 0; 10; 10]; [2; 2; 4; 8]] 4)
                (Np.mk_ndarray [[5; 5; 15; 15]] 4) 0) as [iou|e] eqn:Hret.
    + exists iou. split; [reflexivity|].
      exact (proj2 (proj2 (bbox_iou_errors_and_shape _ _ 0)) iou Hret).
    + exfalso. vm_compute in Hret. discriminate.
Defined.

(** X4.  [bbox_iou] reads the first four columns only: further columns of
    a table (scores, classes) do not change the result. *)
Theorem bbox_iou_first_four_columns (bbox_a bbox_b : Np.ndarray Q)
  (offset : Q) :
  (4 <= Np.shape1 bbox_a)%nat -> (4 <= Np.shape1 bbox_b)%nat ->
  bbox_iou (first_four_columns bbox_a) (first_four_columns bbox_b) offset
  = bbox_iou bbox_a bbox_b offset.
Proof.
  intros Ha Hb. unfold bbox_iou, first_four_columns, Np.shape0.
  cbn [Np.shape1 Np.rows]. rewrite !Nat.min_l by assumption.
  destruct (Nat.ltb_spec (Np.shape1 bbox_a) 4); [lia|].
  destruct (Nat.ltb_spec (Np.shape1 bbox_b) 4); [lia|].
  cbn [Nat.ltb Nat.leb orb]. rewrite length_map. f_equal. f_equal.
  rewrite map_map. apply map_ext. intros ra.
  rewrite map_map. apply map_ext. intros rb.
  assert (Etl : forall r, top_left (firstn 4 r) = top_left r).
  { intros r. unfold top_left. now rewrite firstn_firstn. }
  assert (Ebr : forall r, bottom_right (firstn 4 r) = bottom_right r).
  { intros r. unfold bottom_right.
    change 4%nat with (2 + 2)%nat. rewrite <- firstn_skipn_comm.
    now rewrite firstn_firstn. }
  unfold iou_entry, area_i, area, tl, br. now rewrite !Etl, !Ebr.
Qed.

Lemma bbox_iou_first_four_columns_witness :
  let a := Np.mk_ndarray [[0; 0; 10; 10; 9 # 10]; [2; 2; 4; 8; 1 # 2]] 5 in
  let b := Np.mk_ndarray [[5; 5; 15; 15; 7; 1]] 6 in
  bbox_iou (first_four_columns a) (first_four_columns b) 0 = bbox_iou a b 0.
Proof.
  cbv zeta. apply bbox_iou_first_four_columns; simpl; lia.
Defined.

(** ** The converters: accepted inputs and exceptions *)

Lemma broadcastable_lo_hi (k : nat) :
  broadcastable (cols_lo k) (cols_hi k) = negb (k =? 2)%nat.
Proof.
  destruct k as [|[|[|[|[|k]]]]]; reflexivity.
Qed.

Lemma broadcastable_hi_lo (k : nat) :
  broadcastable (cols_hi k) (cols_lo k) = negb (k =? 2)%nat.
Proof.
  destruct k as [|[|[|[|[|k]]]]]; reflexivity.
Qed.

(** X7.  Among tuples, lists, ndarrays of one or of two dimensions and
    objects of another type, [bbox_clip_xyxy] returns exactly on a tuple
    or list of four numbers and on a 2-D array whose size is a multiple
    of 4 and which has at least four columns; the size test alone does
    not ensure the latter.  It raises [TypeError] exactly on an object
    that is not a tuple, a list or an ndarray, and [IndexError] in every
    other case. *)
Theorem bbox_clip_xyxy_accepts (v : pyobj) (width height : Q) :
  (clip_accepts v <-> exists out, bbox_clip_xyxy v width height = Ok out) /\
  (bbox_clip_xyxy v width height = Raise TypeError <-> v = Other) /\
  (forall e, bbox_clip_xyxy v width height = Raise e ->
             e = TypeError \/ e = IndexError).
Proof.
  destruct v as [l | l | a |].
  - destruct l as [|a0 [|a1 [|a2 [|a3 [|a4 l]]]]]; simpl;
      (split; [split; [intros H; try discriminate H; eauto
                      | intros [out H]; try discriminate H; reflexivity]
              | split; [split; discriminate
                       | intros e H; try discriminate H;
                         injection H as <-; now right]]).
  - simpl. split; [split; [contradiction | intros [out H]; discriminate]|].
    split; [split; discriminate|].
    intros e H. injection H as <-. now right.
  - unfold bbox_clip_xyxy, clip_accepts, column.
    destruct (Nat.eqb_spec (Np.size a mod 4) 0) as [Es | Es]; cbn [negb].
    + destruct (Nat.ltb_spec 3 (Np.shape1 a)) as [L3 | L3].
      * destruct (Nat.ltb_spec 0 (Np.shape1 a)); [|lia].
        destruct (Nat.ltb_spec 1 (Np.shape1 a)); [|lia].
        destruct (Nat.ltb_spec 2 (Np.shape1 a)); [|lia].
        cbn [bind].
        split; [split; [eauto | intros _; split; [assumption | lia]]|].
        split; [split; discriminate | discriminate].
      * destruct (0 <? Np.shape1 a)%nat, (1 <? Np.shape1 a)%nat,
          (2 <? Np.shape1 a)%nat; cbn [bind];
          (split; [split; [lia | intros [out H]; discriminate]
                  | split; [split; discriminate
                           | intros e H; injection H as <-; now right]]).
    + split; [split; [intros [H _]; contradiction
                     | intros [out H]; discriminate]|].
      split; [split; discriminate|].
      intros e H. injection H as <-. now right.
  - simpl. split; [split; [contradiction | intros [out H]; discriminate]|].
    split; [split; reflexivity|].
    intros e H. injection H as <-. now left.
Qed.

Ltac converter_cases :=
  repeat match goal with
         | |- _ /\ _ => split
         | |- _ <-> _ => split
         | |- _ -> _ => intro
         | H : exists _, _ |- _ => destruct H
         | H : _ /\ _ |- _ => destruct H
         | H : Array2 _ = Array2 _ |- _ => injection H as <-
         end;
  try discriminate; try contradiction; try congruence; eauto.

(** X8.  Among tuples, lists, ndarrays of one or of two dimensions and
    objects of another type, [bbox_xywh_to_xyxy] and [bbox_xyxy_to_xywh]
    return exactly on a tuple or list of four numbers and on a 2-D array
    whose size is a multiple of 4 and which does not have exactly two
    columns.  On such an array with two columns they raise [ValueError]
    (the slices [[:, :2]] and [[:, 2:4]] do not broadcast); they raise
    [TypeError] exactly on an object that is not a tuple, a list or an
    ndarray. *)
Theorem converters_accept (v : pyobj) :
  (converter_accepts v <-> exists out, bbox_xywh_to_xyxy v = Ok out) /\
  (converter_accepts v <-> exists out, bbox_xyxy_to_xywh v = Ok out) /\
  (bbox_xywh_to_xyxy v = Raise TypeError <-> v = Other) /\
  (bbox_xyxy_to_xywh v = Raise TypeError <-> v = Other) /\
  (bbox_xywh_to_xyxy v = Raise ValueError <->
   exists a, v = Array2 a /\ (Np.size a mod 4 = 0)%nat /\
             Np.shape1 a = 2%nat) /\
  (bbox_xyxy_to_xywh v = Raise ValueError <->
   exists a, v = Array2 a /\ (Np.size a mod 4 = 0)%nat /\
             Np.shape1 a = 2%nat).
Proof.
  destruct v as [l | l | a |].
  - destruct l as [|a0 [|a1 [|a2 [|a3 [|a4 l]]]]]; simpl; converter_cases.
  - simpl; converter_cases.
  - unfold bbox_xywh_to_xyxy, bbox_xyxy_to_xywh, converter_accepts.
    rewrite broadcastable_lo_hi, broadcastable_hi_lo, negb_involutive.
    destruct (Nat.eqb_spec (Np.size a mod 4) 0) as [Es | Es];
      destruct (Nat.eqb_spec (Np.shape1 a) 2) as [Ek | Ek]; cbn [negb];
      converter_cases.
  - simpl; converter_cases.
Qed.

(** X9.  The size test does not ensure four columns: on an array of shape
    [(N, 3)] with [N] a multiple of 4, [bbox_xywh_to_xyxy] returns an
    array of shape [(N, 4)] in which the third column serves as width and
    as height. *)
Theorem bbox_xywh_to_xyxy_three_columns (a : Np.ndarray Q) :
  Np.shape1 a = 3%nat -> (Np.shape0 a mod 4 = 0)%nat ->
  Forall (fun r => length r = 3%nat) (Np.rows a) ->
  bbox_xywh_to_xyxy (Array2 a)
  = Ok (Array2 (Np.mk_ndarray
          (map (fun r =>
                  let x := nth 0 r 0 in
                  let y := nth 1 r 0 in
                  let w := nth 2 r 0 in
                  [x; y; x + Qmax 0 (w - 1); y + Qmax 0 (w - 1)])
               (Np.rows a))
          4)).
Proof.
  intros Hk Hn Hrows. unfold bbox_xywh_to_xyxy, Np.size.
  rewrite Hk.
  assert (Es : ((Np.shape0 a * 3) mod 4 =? 0)%nat = true).
  { apply Nat.eqb_eq.
    apply Nat.Div0.div_exact in Hn. rewrite Hn.
    rewrite <- Nat.mul_assoc, Nat.mul_comm. apply Nat.Div0.mod_mul. }
  rewrite Es. cbn [negb cols_lo cols_hi broadcastable broadcast_cols
                   Nat.min Nat.sub Nat.eqb orb Nat.add].
  do 3 f_equal. apply map_ext_in. intros r Hr.
  rewrite Forall_forall in Hrows. specialize (Hrows r Hr).
  destruct r as [|x [|y [|w [|]]]]; try discriminate. reflexivity.
Qed.

Lemma bbox_xywh_to_xyxy_three_columns_witness :
  bbox_xywh_to_xyxy
    (Array2 (Np.mk_ndarray [[0; 0; 10]; [1; 2; 3]; [4; 4; 1]; [5; 6; 0]] 3))
  = Ok (Array2 (Np.mk_ndarray
          (map (fun r =>
                  let x := nth 0 r 0 in
                  let y := nth 1 r 0 in
                  let w := nth 2 r 0 in
                  [x; y; x + Qmax 0 (w - 1); y + Qmax 0 (w - 1)])
               [[0; 0; 10]; [1; 2; 3]; [4; 4; 1]; [5; 6; 0]])
          4)).
Proof.
  apply (bbox_xywh_to_xyxy_three_columns
           (Np.mk_ndarray [[0; 0; 10]; [1; 2; 3]; [4; 4; 1]; [5; 6; 0]] 3));
    [reflexivity | reflexivity | repeat constructor].
Defined.

(** ** Rows of four columns *)

Lemma four_column_rows (a : Np.ndarray Q) (r : list Q) :
  Forall (fun r => length r = 4%nat) (Np.rows a) -> In r (Np.rows a) ->
  exists x y z t, r = [x; y; z; t].
Proof.
  intros Hrows Hr. rewrite Forall_forall in Hrows. specialize (Hrows r Hr).
  destruct r as [|x [|y [|z [|t [|]]]]]; try discriminate.
  now exists x, y, z, t.
Qed.

(** ** bbox_clip_xyxy: composition and the two branches *)

Lemma clip_coord_idempotent (bound v : Q) :
  clip_coord bound (clip_coord bound v) == clip_coord bound v.
Proof.
  unfold clip_coord.
  destruct (Qlt_le_dec (bound - 1) 0) as [Hneg | Hpos].
  - assert (E : forall u, Qmin (bound - 1) (Qmax 0 u) == bound - 1).
    { intros u. apply Q.min_l. pose proof (Q.le_max_l 0 u). lra. }
    now rewrite !E.
  - assert (E : Qmax 0 (Qmin (bound - 1) (Qmax 0 v))
                == Qmin (bound - 1) (Qmax 0 v)).
    { apply Q.max_r. apply Q.min_glb; [assumption | apply Q.le_max_l]. }
    rewrite E. apply Q.min_r. apply Q.le_min_l.
Qed.

Lemma clip_coord_inside (bound v : Q) :
  within bound v -> clip_coord bound v == v.
Proof.
  intros [H0 H1]. unfold clip_coord.
  rewrite (Q.max_r 0 v H0). now apply Q.min_r.
Qed.

Lemma clip_coord_monotone (bound u v : Q) :
  u <= v -> clip_coord bound u <= clip_coord bound v.
Proof.
  intros H. unfold clip_coord.
  apply Q.min_le_compat_l. now apply Q.max_le_compat_l.
Qed.

(** X12.  Clipping twice: on a tuple or list the second call changes
    nothing, for every width and height; on an [(N, 4)] array the result
    of the first call is one-dimensional and the second call raises
    [IndexError]. *)
Theorem bbox_clip_xyxy_twice (v : pyobj) (width height : Q) :
  box_input v ->
  match v with
  | Array2 _ =>
      (b <- bbox_clip_xyxy v width height ;; bbox_clip_xyxy b width height)
      = Raise IndexError
  | _ =>
      result_eq pyobj_eq
        (b <- bbox_clip_xyxy v width height ;; bbox_clip_xyxy b width height)
        (bbox_clip_xyxy v width height)
  end.
Proof.
  intros Hin.
  destruct v as [l | l | a |]; unfold box_input in Hin; try contradiction.
  - destruct l as [|a0 [|a1 [|a2 [|a3 [|]]]]]; try discriminate.
    simpl. repeat constructor; apply clip_coord_idempotent.
  - now rewrite (bbox_clip_xyxy_array4 a width height Hin).
Qed.

Lemma bbox_clip_xyxy_twice_witness :
  result_eq pyobj_eq
    (b <- bbox_clip_xyxy (Seq [-3; 5; 700; 20]) 640 0 ;;
     bbox_clip_xyxy b 640 0)
    (bbox_clip_xyxy (Seq [-3; 5; 700; 20]) 640 0)
  /\
  (b <- bbox_clip_xyxy
          (Array2 (Np.mk_ndarray [[-3; 5; 700; 20]; [1; 2; 3; 500]] 4))
          640 480 ;;
   bbox_clip_xyxy b 640 480)
  = Raise IndexError.
Proof.
  split.
  - apply (bbox_clip_xyxy_twice (Seq [-3; 5; 700; 20]) 640 0). reflexivity.
  - apply (bbox_clip_xyxy_twice
             (Array2 (Np.mk_ndarray [[-3; 5; 700; 20]; [1; 2; 3; 500]] 4))
             640 480).
    reflexivity.
Defined.

(** X13.  A box whose coordinates are all inside the image is returned
    unchanged: as the same tuple, or, for an [(N, 4)] array, as the four
    columns of the array one after the other. *)
Theorem bbox_clip_xyxy_inside (v : pyobj) (width height : Q) :
  four_column_boxes v -> inside_image width height v ->
  result_eq pyobj_eq
    (bbox_clip_xyxy v width height)
    (Ok match v with
        | Array2 a => Array1 (hstack_columns (Np.rows a))
        | _ => v
        end).
Proof.
  intros [Hin Hlen] Hins.
  destruct v as [l | l | a |]; unfold box_input in Hin; try contradiction.
  - destruct l as [|a0 [|a1 [|a2 [|a3 [|]]]]]; try discriminate.
    unfold inside_image in Hins; simpl in Hins. apply Forall_inv in Hins.
    unfold xmin, xmax, ymin, ymax in Hins; simpl in Hins.
    destruct Hins as (H0 & H1 & H2 & H3).
    simpl. repeat constructor; now apply clip_coord_inside.
  - rewrite (bbox_clip_xyxy_array4 a width height Hin).
    unfold inside_image in Hins; simpl in Hins.
    rewrite Forall_forall in Hins.
    unfold result_eq, pyobj_eq, hstack_columns.
    repeat apply Forall2_app; rewrite map_map;
      apply Forall2_map_same; intros r Hr;
      destruct (Hins r Hr) as (H0 & H1 & H2 & H3);
      now apply clip_coord_inside.
Qed.

Lemma bbox_clip_xyxy_inside_witness :
  result_eq pyobj_eq
    (bbox_clip_xyxy (Seq [0; 5; 639; 20]) 640 480)
    (Ok (Seq [0; 5; 639; 20]))
  /\
  result_eq pyobj_eq
    (bbox_clip_xyxy
       (Array2 (Np.mk_ndarray [[0; 5; 639; 20]; [1; 2; 3; 479]] 4)) 640 480)
    (Ok (Array1 [0; 1; 5; 2; 639; 3; 20; 479])).
Proof.
  split.
  - apply (bbox_clip_xyxy_inside (Seq [0; 5; 639; 20]) 640 480).
    + split; [reflexivity | repeat constructor].
    + repeat constructor; discriminate.
  - apply (bbox_clip_xyxy_inside
             (Array2 (Np.mk_ndarray [[0; 5; 639; 20]; [1; 2; 3; 479]] 4))
             640 480).
    + split; [reflexivity | repeat constructor].
    + repeat constructor; discriminate.
Defined.

(** X14.  Clipping never inverts a box: from [x1 <= x2] and [y1 <= y2]
    the clipped coordinates keep [x1 <= x2] and [y1 <= y2], for every
    width and height. *)
Theorem bbox_clip_xyxy_keeps_order (v : pyobj) (width height : Q) :
  ordered_boxes v ->
  exists out,
    bbox_clip_xyxy v width height = Ok out /\
    match out with
    | Seq l => ordered_box l
    | Array1 l =>
        exists x1 y1 x2 y2,
          l = x1 ++ y1 ++ x2 ++ y2 /\ length y1 = length x1 /\
          Forall2 Qle x1 x2 /\ Forall2 Qle y1 y2
    | _ => False
    end.
Proof.
  intros [[Hin Hlen] Hord].
  destruct v as [l | l | a |]; unfold box_input in Hin; try contradiction.
  - destruct l as [|a0 [|a1 [|a2 [|a3 [|]]]]]; try discriminate.
    simpl in Hord. apply Forall_inv in Hord.
    unfold ordered_box, xmin, xmax, ymin, ymax in *; simpl in Hord.
    destruct Hord as [Hx Hy].
    eexists. split; [reflexivity|]. simpl.
    split; now apply clip_coord_monotone.
  - rewrite (bbox_clip_xyxy_array4 a width height Hin).
    eexists. split; [reflexivity|]. simpl in Hord.
    rewrite Forall_forall in Hord.
    do 4 eexists. split; [reflexivity|].
    split; [now rewrite !length_map|].
    split; rewrite !map_map; apply Forall2_map_map; intros r Hr;
      apply clip_coord_monotone; apply (Hord r Hr).
Qed.

Lemma bbox_clip_xyxy_keeps_order_witness :
  exists out,
    bbox_clip_xyxy
      (Array2 (Np.mk_ndarray [[-3; 5; 700; 20]; [900; 2; 950; 500]] 4))
      640 480 = Ok out /\
    match out with
    | Seq l => ordered_box l
    | Array1 l =>
        exists x1 y1 x2 y2,
          l = x1 ++ y1 ++ x2 ++ y2 /\ length y1 = length x1 /\
          Forall2 Qle x1 x2 /\ Forall2 Qle y1 y2
    | _ => False
    end.
Proof.
  apply (bbox_clip_xyxy_keeps_order
           (Array2 (Np.mk_ndarray [[-3; 5; 700; 20]; [900; 2; 950; 500]] 4))
           640 480).
  repeat split; repeat constructor; discriminate.
Defined.

Lemma for_each_map {A B : Type} (f : A -> result B) (g : A -> B)
  (xs : list A) :
  (forall x, In x xs -> f x = Ok (g x)) -> for_each f xs = Ok (map g xs).
Proof.
  induction xs as [|x xs IH]; simpl; intros H; [reflexivity|].
  rewrite (H x (or_introl eq_refl)). simpl.
  rewrite IH by (intros y Hy; apply H; now right). reflexivity.
Qed.

(** X15.  On an array of shape [(N, 4)] each of the three functions
    computes, row by row, what it computes on that row given as a tuple:
    the two converters return these rows as an [(N, 4)] array,
    [bbox_clip_xyxy] returns their four columns one after the other. *)
Theorem array_branch_is_tuple_branch (a : Np.ndarray Q) (width height : Q) :
  four_column_boxes (Array2 a) ->
  result_eq pyobj_eq
    (bbox_xywh_to_xyxy (Array2 a))
    (outs <- on_each_tuple bbox_xywh_to_xyxy (Np.rows a) ;;
     Ok (Array2 (Np.mk_ndarray outs 4))) /\
  result_eq pyobj_eq
    (bbox_xyxy_to_xywh (Array2 a))
    (outs <- on_each_tuple bbox_xyxy_to_xywh (Np.rows a) ;;
     Ok (Array2 (Np.mk_ndarray outs 4))) /\
  bbox_clip_xyxy (Array2 a) width height
  = (outs <- on_each_tuple (fun v => bbox_clip_xyxy v width height)
               (Np.rows a) ;;
     Ok (Array1 (hstack_columns outs))).
Proof.
  intros [Hin Hlen]. unfold box_input in Hin. simpl in Hlen.
  split; [|split].
  - rewrite (bbox_xywh_to_xyxy_array4 a Hin). unfold on_each_tuple.
    rewrite (for_each_map _
               (fun r => [nth 0 r 0; nth 1 r 0;
                          nth 0 r 0 + Qmax (nth 2 r 0 - 1) 0;
                          nth 1 r 0 + Qmax (nth 3 r 0 - 1) 0])).
    + cbn [bind result_eq pyobj_eq]. split; [reflexivity|].
      cbn [Np.rows]. apply Forall2_map_same. intros r Hr.
      destruct (four_column_rows a r Hlen Hr) as (x & y & w & h & ->).
      cbn. repeat constructor; try reflexivity;
        apply Qplus_comp; try reflexivity; apply Q.max_comm.
    + intros r Hr.
      destruct (four_column_rows a r Hlen Hr) as (x & y & w & h & ->).
      reflexivity.
  - rewrite (bbox_xyxy_to_xywh_array4 a Hin). unfold on_each_tuple.
    rewrite (for_each_map _
               (fun r => [nth 0 r 0; nth 1 r 0;
                          nth 2 r 0 - nth 0 r 0 + 1;
                          nth 3 r 0 - nth 1 r 0 + 1])).
    + cbn [bind result_eq pyobj_eq]. split; [reflexivity|].
      cbn [Np.rows]. apply Forall2_map_same. intros r Hr.
      destruct (four_column_rows a r Hlen Hr) as (x & y & w & h & ->).
      cbn. repeat constructor; reflexivity.
    + intros r Hr.
      destruct (four_column_rows a r Hlen Hr) as (x & y & w & h & ->).
      reflexivity.
  - rewrite (bbox_clip_xyxy_array4 a width height Hin). unfold on_each_tuple.
    rewrite (for_each_map _
               (fun r => [clip_coord width (nth 0 r 0);
                          clip_coord height (nth 1 r 0);
                          clip_coord width (nth 2 r 0);
                          clip_coord height (nth 3 r 0)])).
    + cbn [bind]. unfold hstack_columns. now rewrite !map_map.
    + intros r Hr.
      destruct (four_column_rows a r Hlen Hr) as (x & y & w & h & ->).
      reflexivity.
Qed.

Lemma array_branch_is_tuple_branch_witness :
  let a := Np.mk_ndarray [[0; 0; 10; 10]; [3; 4; -1; 2]; [7; 7; 900; 9]] 4 in
  result_eq pyobj_eq
    (bbox_xywh_to_xyxy (Array2 a))
    (outs <- on_each_tuple bbox_xywh_to_xyxy (Np.rows a) ;;
     Ok (Array2 (Np.mk_ndarray outs 4))) /\
  result_eq pyobj_eq
    (bbox_xyxy_to_xywh (Array2 a))
    (outs <- on_each_tuple bbox_xyxy_to_xywh (Np.rows a) ;;
     Ok (Array2 (Np.mk_ndarray outs 4))) /\
  bbox_clip_xyxy (Array2 a) 640 480
  = (outs <- on_each_tuple (fun v => bbox_clip_xyxy v 640 480)
               (Np.rows a) ;;
     Ok (Array1 (hstack_columns outs))).
Proof.
  cbv zeta.
  apply (array_branch_is_tuple_branch
           (Np.mk_ndarray [[0; 0; 10; 10]; [3; 4; -1; 2]; [7; 7; 900; 9]] 4)
           640 480).
  split; [reflexivity | repeat constructor].
Defined.

(** ** polygon_iou: entries and empty collections *)

Section PolygonIouFurther.

Context {G : Shapely}.

(** X16.  The matrix is computed pair by pair: entry [(n, m)] of
    [polygon_iou(polygon_as, polygon_bs)] is the single entry of
    [polygon_iou] on polygon [n] of the first collection and polygon [m]
    of the second alone. *)
Theorem polygon_iou_pairwise (polygon_as polygon_bs : list polygon)
  (ious : Np.ndarray Q) (n m : nat) (a b : polygon) :
  polygon_iou polygon_as polygon_bs = Ok ious ->
  nth_error polygon_as n = Some a ->
  nth_error polygon_bs m = Some b ->
  exists v,
    entry ious n m = Some v /\
    polygon_iou [a] [b] = Ok (Np.mk_ndarray [[v]] 1).
Proof.
  intros Hret Ha Hb.
  destruct (polygon_iou_entry _ _ _ _ _ _ _ Hret Ha Hb)
    as (ga & gb & v & Hga & Hgb & Hv & Hentry).
  exists v. split; [exact Hentry|].
  unfold polygon_iou. simpl. rewrite Hga. simpl. rewrite Hgb. simpl.
  now rewrite Hv.
Qed.

(** X17.  For a pair whose two areas are computed and are not zero, the
    entry is the intersection area of the two hulls divided by the area
    of the hull of the pooled points. *)
Theorem polygon_iou_quotient (polygon_as polygon_bs : list polygon)
  (ious : Np.ndarray Q) (n m : nat) (a b : polygon) (ga gb : geometry)
  (inter_area union_area : Q) :
  polygon_iou polygon_as polygon_bs = Ok ious ->
  nth_error polygon_as n = Some a ->
  nth_error polygon_bs m = Some b ->
  Polygon_convex_hull a = Ok ga ->
  Polygon_convex_hull b = Ok gb ->
  intersection_area ga gb = Ok inter_area ->
  MultiPoint_convex_hull_area (a ++ b) = Ok union_area ->
  ~ inter_area == 0 -> ~ union_area == 0 ->
  entry ious n m = Some (inter_area / union_area).
Proof.
  intros Hret Ha Hb Hga Hgb Hi Hu Hin Hun.
  destruct (polygon_iou_entry _ _ _ _ _ _ _ Hret Ha Hb)
    as (ga' & gb' & v & Hga' & Hgb' & Hv & Hentry).
  rewrite Hga in Hga'. injection Hga' as <-.
  rewrite Hgb in Hgb'. injection Hgb' as <-.
  unfold pair_iou in Hv. rewrite Hi, Hu in Hv. simpl in Hv.
  destruct (Qeq_bool union_area 0) eqn:Eu;
    [apply Qeq_bool_iff in Eu; contradiction|].
  destruct (Qeq_bool inter_area 0) eqn:Ei;
    [apply Qeq_bool_iff in Ei; contradiction|].
  simpl in Hv. injection Hv as <-. exact Hentry.
Qed.

(** X18.  Empty collections.  With no polygon in [polygon_as] the result
    is the empty matrix with [M] columns and no geometry is built, so
    that a polygon of [polygon_bs] that cannot be built goes unnoticed.
    With no polygon in [polygon_bs] the hull of every polygon of
    [polygon_as] is still built: the call returns [N] empty rows when all
    of them can be, and raises the exception of the first that cannot. *)
Theorem polygon_iou_empty (polygons : list polygon) :
  polygon_iou [] polygons = Ok (Np.mk_ndarray [] (length polygons)) /\
  polygon_iou polygons []
  = (hulls <- for_each Polygon_convex_hull polygons ;;
     Ok (Np.mk_ndarray (map (fun _ => []) hulls) 0)).
Proof.
  split; [reflexivity|].
  unfold polygon_iou. simpl.
  assert (E : forall ps,
            for_each (fun polygon_a =>
                        polya <- Polygon_convex_hull polygon_a ;;
                        Ok (@nil Q)) ps
            = (hulls <- for_each Polygon_convex_hull ps ;;
               Ok (map (fun _ => @nil Q) hulls))).
  { induction ps as [|p ps IH]; simpl; [reflexivity|].
    destruct (Polygon_convex_hull p) as [g|e]; simpl; [|reflexivity].
    rewrite IH.
    destruct (for_each Polygon_convex_hull ps); reflexivity. }
  rewrite E.
  destruct (for_each Polygon_convex_hull polygons); reflexivity.
Qed.

End PolygonIouFurther.

Lemma polygon_iou_pairwise_witness :
  exists ious v,
    polygon_iou (G := Exact.shapely) [sqA; sqB] [sqB; sqC] = Ok ious /\
    entry ious 0 0 = Some v /\
    polygon_iou (G := Exact.shapely) [sqA] [sqB]
    = Ok (Np.mk_ndarray [[v]] 1).
Proof.
  assert (Hret : polygon_iou (G := Exact.shapely) [sqA; sqB] [sqB; sqC]
                 = Ok (Np.mk_ndarray [[25 # 200; 0]; [100 # 100; 0]] 2))
    by (vm_compute; reflexivity).
  destruct (polygon_iou_pairwise _ _ _ 0%nat 0%nat sqA sqB
              Hret eq_refl eq_refl) as (v & Hv & Hpair).
  exists (Np.mk_ndarray [[25 # 200; 0]; [100 # 100; 0]] 2), v. auto.
Defined.

Lemma polygon_iou_quotient_witness :
  exists ious,
    polygon_iou (G := Exact.shapely) [sqA; sqB] [sqB; sqC] = Ok ious /\
    entry ious 0 0 = Some (25 / 200).
Proof.
  assert (Hret : polygon_iou (G := Exact.shapely) [sqA; sqB] [sqB; sqC]
                 = Ok (Np.mk_ndarray [[25 # 200; 0]; [100 # 100; 0]] 2))
    by (vm_compute; reflexivity).
  exists (Np.mk_ndarray [[25 # 200; 0]; [100 # 100; 0]] 2).
  split; [exact Hret|].
  refine (polygon_iou_quotient (G := Exact.shapely) _ _ _ 0%nat 0%nat
            sqA sqB _ _ 25 200 Hret eq_refl eq_refl _ _ _ _ _ _);
    try (vm_compute; reflexivity);
    intros H; vm_compute in H; discriminate.
Defined.

(** ** coef_trans_polygon: rows, bounds and errors *)

Lemma nth_error_combine {A B : Type} (l : list A) (l' : list B) (n : nat)
  (x : A) (y : B) :
  nth_error l n = Some x -> nth_error l' n = Some y ->
  nth_error (combine l l') n = Some (x, y).
Proof.
  revert l' n. induction l as [|a l IH]; intros [|b l'] [|n] Hx Hy;
    simpl in *; try discriminate.
  - now injection Hx as ->; injection Hy as ->.
  - now apply IH.
Qed.

Lemma broadcast0_mismatch {A B C : Type} (f : A -> B -> C)
  (xs : list A) (ys : list B) :
  length xs <> length ys -> length xs <> 1%nat -> length ys <> 1%nat ->
  broadcast0 f xs ys = Raise ValueError.
Proof.
  intros Hne Hx Hy. unfold broadcast0.
  destruct (Nat.eqb_spec (length xs) (length ys)); [contradiction|].
  destruct xs as [|x [|x' xs]]; destruct ys as [|y [|y' ys]];
    simpl in *; try reflexivity; try contradiction; lia.
Qed.

Section ReconstructionFurther.

Context {N : Numerics}.

(** X19.  The batch is computed row by row: polygon [n] of
    [coef_trans_polygon] on tables of [N] rows is the polygon that
    [coef_trans_polygon] returns on row [n] of each table alone. *)
Theorem coef_trans_polygon_rowwise (coefs bboxs centers : Np.ndarray Q) :
  reconstruction_tables coefs bboxs centers ->
  exists polygons,
    coef_trans_polygon coefs bboxs centers = Ok polygons /\
    length polygons = Np.shape0 bboxs /\
    forall n coef box center,
      nth_error (Np.rows coefs) n = Some coef ->
      nth_error (Np.rows bboxs) n = Some box ->
      nth_error (Np.rows centers) n = Some center ->
      exists p,
        nth_error polygons n = Some p /\
        coef_trans_polygon (Np.mk_ndarray [coef] (Np.shape1 coefs))
          (Np.mk_ndarray [box] 4) (Np.mk_ndarray [center] 2)
        = Ok [p].
Proof.
  intros Hin.
  destruct (coef_trans_polygon_rows coefs bboxs centers Hin) as [Hret Ebox].
  eexists. split; [exact Hret|]. split.
  - rewrite length_map. unfold Np.shape0. rewrite Ebox at 2.
    now rewrite length_map.
  - intros n coef box center Hc Hb Hct.
    exists (row_polygon coef box center). split.
    + rewrite nth_error_map.
      rewrite (nth_error_combine _ _ n coef (box, center) Hc
                 (nth_error_combine _ _ n box center Hb Hct)).
      reflexivity.
    + destruct (coef_trans_polygon_rows
                  (Np.mk_ndarray [coef] (Np.shape1 coefs))
                  (Np.mk_ndarray [box] 4) (Np.mk_ndarray [center] 2))
        as [Hone _]; [repeat split; [apply le_n | apply Hin]|].
      exact Hone.
Qed.

(** X21.  [coef_trans_polygon] raises [IndexError] when the box table has
    fewer than four columns, or the center table fewer than two; and
    [ValueError] when the coefficient and box tables have different
    numbers of rows, neither of which is 1 (they do not broadcast).  Each
    is raised before any polygon is computed. *)
Theorem coef_trans_polygon_errors (coefs bboxs centers : Np.ndarray Q) :
  ((Np.shape1 bboxs < 4)%nat ->
   coef_trans_polygon coefs bboxs centers = Raise IndexError) /\
  ((4 <= Np.shape1 bboxs)%nat -> (Np.shape1 centers < 2)%nat ->
   coef_trans_polygon coefs bboxs centers = Raise IndexError) /\
  ((4 <= Np.shape1 bboxs)%nat -> (2 <= Np.shape1 centers)%nat ->
   (1 <= Np.shape1 coefs)%nat ->
   Np.shape0 coefs <> Np.shape0 bboxs ->
   Np.shape0 coefs <> 1%nat -> Np.shape0 bboxs <> 1%nat ->
   coef_trans_polygon coefs bboxs centers = Raise ValueError).
Proof.
  unfold coef_trans_polygon, column. repeat split.
  - intros Hb.
    destruct (Nat.ltb_spec 0 (Np.shape1 bboxs)); [|reflexivity].
    destruct (Nat.ltb_spec 2 (Np.shape1 bboxs)); [|reflexivity].
    destruct (Nat.ltb_spec 1 (Np.shape1 bboxs)); [|reflexivity].
    destruct (Nat.ltb_spec 3 (Np.shape1 bboxs)); [lia | reflexivity].
  - intros Hb Hc.
    destruct (Nat.ltb_spec 0 (Np.shape1 bboxs)); [|lia].
    destruct (Nat.ltb_spec 2 (Np.shape1 bboxs)); [|lia].
    destruct (Nat.ltb_spec 1 (Np.shape1 bboxs)); [|lia].
    destruct (Nat.ltb_spec 3 (Np.shape1 bboxs)); [|lia].
    cbn [bind].
    destruct (Nat.ltb_spec 0 (Np.shape1 centers)); [|reflexivity].
    destruct (Nat.ltb_spec 1 (Np.shape1 centers)); [lia | reflexivity].
  - intros Hb Hc Hk Hne Hc1 Hb1. unfold cheby.
    destruct (Nat.eqb_spec (Np.shape1 coefs) 0); [lia|].
    destruct (Nat.ltb_spec 0 (Np.shape1 bboxs)); [|lia].
    destruct (Nat.ltb_spec 2 (Np.shape1 bboxs)); [|lia].
    destruct (Nat.ltb_spec 1 (Np.shape1 bboxs)); [|lia].
    destruct (Nat.ltb_spec 3 (Np.shape1 bboxs)); [|lia].
    destruct (Nat.ltb_spec 0 (Np.shape1 centers)); [|lia].
    destruct (Nat.ltb_spec 1 (Np.shape1 centers)); [|lia].
    cbn [bind].
    rewrite broadcast0_mismatch; [reflexivity | | |];
      rewrite ?zip_with_length, ?length_map;
      unfold Np.shape0 in *; lia.
Qed.

End ReconstructionFurther.

Lemma coef_trans_polygon_rowwise_witness :
  let coefs := Np.mk_ndarray [[1 # 2; 0]; [1 # 4; 1 # 10]] 2 in
  let bboxs := Np.mk_ndarray [[0; 0; 3; 4]; [10; 10; 22; 15]] 4 in
  let centers := Np.mk_ndarray [[1; 2]; [16; 12]] 2 in
  exists polygons p,
    coef_trans_polygon (N := Exact.numerics) coefs bboxs centers
    = Ok polygons /\
    nth_error polygons 1 = Some p /\
    coef_trans_polygon (N := Exact.numerics)
      (Np.mk_ndarray [[1 # 4; 1 # 10]] 2)
      (Np.mk_ndarray [[10; 10; 22; 15]] 4) (Np.mk_ndarray [[16; 12]] 2)
    = Ok [p].
Proof.
  cbv zeta.
  destruct (coef_trans_polygon_rowwise (N := Exact.numerics)
              (Np.mk_ndarray [[1 # 2; 0]; [1 # 4; 1 # 10]] 2)
              (Np.mk_ndarray [[0; 0; 3; 4]; [10; 10; 22; 15]] 4)
              (Np.mk_ndarray [[1; 2]; [16; 12]] 2))
    as (polygons & Hret & _ & Hrow); [repeat split; cbv; lia|].
  destruct (Hrow 1%nat [1 # 4; 1 # 10] [10; 10; 22; 15] [16; 12]
              eq_refl eq_refl eq_refl) as (p & Hp & Hone).
  exists polygons, p. auto.
Defined.

Lemma coef_trans_polygon_errors_witness :
  coef_trans_polygon (N := Exact.numerics)
    (Np.mk_ndarray [[1 # 2; 0]] 2) (Np.mk_ndarray [[0; 0; 3]] 3)
    (Np.mk_ndarray [[1; 2]] 2) = Raise IndexError /\
  coef_trans_polygon (N := Exact.numerics)
    (Np.mk_ndarray [[1 # 2; 0]] 2) (Np.mk_ndarray [[0; 0; 3; 4]] 4)
    (Np.mk_ndarray [[1]] 1) = Raise IndexError /\
  coef_trans_polygon (N := Exact.numerics)
    (Np.mk_ndarray [[1 # 2; 0]; [1; 0]] 2)
    (Np.mk_ndarray [[0; 0; 3; 4]; [0; 0; 1; 1]; [1; 1; 2; 2]] 4)
    (Np.mk_ndarray [[1; 2]; [0; 0]; [1; 1]] 2) = Raise ValueError.
Proof.
  split; [|split].
  - apply (proj1 (coef_trans_polygon_errors (N := Exact.numerics) _ _ _)).
    cbv; lia.
  - apply (proj1 (proj2 (coef_trans_polygon_errors
                           (N := Exact.numerics) _ _ _)));
      cbv; lia.
  - apply (proj2 (proj2 (coef_trans_polygon_errors
                           (N := Exact.numerics) _ _ _)));
      cbv; lia.
Defined.

(** ** coef_polygon_iou: the ground-truth tables *)

Lemma chunks_blocks (n k : nat) :
  (0 < n)%nat ->
  forall (l : list Q) (fuel : nat),
    length l = (k * n)%nat -> (length l <= fuel)%nat ->
    length (chunks fuel n l) = k /\
    Forall (fun b => length b = n) (chunks fuel n l) /\
    concat (chunks fuel n l) = l.
Proof.
  intros Hn. induction k as [|k IH]; intros l fuel Hl Hfuel.
  - destruct l; [|discriminate].
    destruct fuel; simpl; repeat split; constructor.
  - rewrite Nat.mul_succ_l in Hl.
    assert (Hlen : (n <= length l)%nat) by lia.
    destruct l as [|x l']; [simpl in Hlen; lia|].
    destruct fuel as [|fuel]; [simpl in Hfuel; lia|].
    cbn [chunks].
    destruct (IH (skipn n (x :: l')) fuel) as (H1 & H2 & H3).
    + rewrite length_skipn. lia.
    + rewrite length_skipn. lia.
    + split; [simpl; now rewrite H1|]. split.
      * constructor; [|exact H2]. rewrite length_firstn. lia.
      * cbn [concat]. rewrite H3. apply firstn_skipn.
Qed.

Lemma reshape_360_cases (a : Np.ndarray Q) :
  ((flat_size a mod 360 = 0)%nat ->
   reshape_360 a = Ok (chunks (flat_size a) 360 (concat (Np.rows a))) /\
   length (chunks (flat_size a) 360 (concat (Np.rows a)))
   = (flat_size a / 360)%nat) /\
  ((flat_size a mod 360 <> 0)%nat -> reshape_360 a = Raise ValueError).
Proof.
  unfold reshape_360, flat_size. split; intros H.
  - rewrite H, Nat.eqb_refl. split; [reflexivity|].
    apply chunks_blocks; [lia | | lia].
    apply Nat.Div0.div_exact in H. lia.
  - destruct (Nat.eqb_spec (length (concat (Np.rows a)) mod 360) 0);
      [contradiction | reflexivity].
Qed.

(** X23.  [reshape(-1, 360, 1)] cuts the entries of a table, row after
    row, into blocks of 360: it returns when the number of entries is a
    multiple of 360, whatever the shape (rows of 720 entries give two
    polygons each), and raises [ValueError] otherwise. *)
Theorem reshape_360_blocks (a : Np.ndarray Q) :
  ((flat_size a mod 360 = 0)%nat ->
   exists blocks,
     reshape_360 a = Ok blocks /\
     length blocks = (flat_size a / 360)%nat /\
     Forall (fun b => length b = 360%nat) blocks /\
     concat blocks = concat (Np.rows a)) /\
  ((flat_size a mod 360 <> 0)%nat -> reshape_360 a = Raise ValueError).
Proof.
  split; intros H.
  - destruct (proj1 (reshape_360_cases a) H) as [Hret Hlen].
    eexists. split; [exact Hret|]. split; [exact Hlen|].
    unfold flat_size in *.
    apply (chunks_blocks 360 (length (concat (Np.rows a)) / 360));
      [lia | | lia].
    apply Nat.Div0.div_exact in H. lia.
  - exact (proj2 (reshape_360_cases a) H).
Qed.

Lemma reshape_360_blocks_witness :
  let a := Np.mk_ndarray [concat (Np.rows gt_xs ++ Np.rows gt_ys)] 720 in
  exists blocks,
    reshape_360 a = Ok blocks /\
    length blocks = 2%nat /\
    Forall (fun b => length b = 360%nat) blocks /\
    concat blocks = concat (Np.rows a).
Proof.
  cbv zeta.
  destruct (proj1 (reshape_360_blocks
                     (Np.mk_ndarray
                        [concat (Np.rows gt_xs ++ Np.rows gt_ys)] 720)))
    as (blocks & Hret & Hlen & Hall & Hcat).
  - vm_compute. reflexivity.
  - exists blocks. split; [exact Hret|]. split; [|split].
    + rewrite Hlen. vm_compute. reflexivity.
    + exact Hall.
    + exact Hcat.
Defined.

Section CompositesFurther.

Context {G : Shapely} {N : Numerics}.

(** X24.  [coef_polygon_iou] reshapes the ground truth first: when the
    number of entries of a ground-truth table is not a multiple of 360,
    or the two tables have different numbers of entries, it raises
    [ValueError], whatever the predictions are. *)
Theorem coef_polygon_iou_ground_truth_errors
  (pred_coef_l pred_center_l pred_bbox_l gt_points_xs_l gt_points_ys_l
   : Np.ndarray Q) :
  (flat_size gt_points_xs_l mod 360 <> 0)%nat \/
  (flat_size gt_points_ys_l mod 360 <> 0)%nat \/
  flat_size gt_points_xs_l <> flat_size gt_points_ys_l ->
  coef_polygon_iou pred_coef_l pred_center_l pred_bbox_l
    gt_points_xs_l gt_points_ys_l = Raise ValueError.
Proof.
  intros H. unfold coef_polygon_iou.
  destruct (Nat.eq_dec (flat_size gt_points_xs_l mod 360) 0) as [Ex | Ex];
    [|now rewrite (proj2 (reshape_360_cases gt_points_xs_l) Ex)].
  destruct (proj1 (reshape_360_cases gt_points_xs_l) Ex) as [-> Lx].
  cbn [bind].
  destruct (Nat.eq_dec (flat_size gt_points_ys_l mod 360) 0) as [Ey | Ey];
    [|now rewrite (proj2 (reshape_360_cases gt_points_ys_l) Ey)].
  destruct (proj1 (reshape_360_cases gt_points_ys_l) Ey) as [-> Ly].
  cbn [bind].
  destruct H as [H | [H | H]]; try contradiction.
  rewrite Lx, Ly.
  destruct (Nat.eqb_spec (flat_size gt_points_xs_l / 360)
              (flat_size gt_points_ys_l / 360)) as [E | E];
    [|reflexivity].
  exfalso. apply H.
  apply Nat.Div0.div_exact in Ex. apply Nat.Div0.div_exact in Ey.
  rewrite Ex, Ey, E. reflexivity.
Qed.

(** X25.  When they return, [coef_iou] and [coef_polygon_iou] return a
    matrix with one row per row of the first box table and one column per
    row of the second box table, or per ground-truth polygon. *)
Theorem composites_shape :
  (forall coef_as coef_bs bbox_as bbox_bs center_as center_bs ious,
     reconstruction_tables coef_as bbox_as center_as ->
     reconstruction_tables coef_bs bbox_bs center_bs ->
     coef_iou coef_as coef_bs bbox_as bbox_bs center_as center_bs = Ok ious ->
     Np.shape0 ious = Np.shape0 bbox_as /\
     Np.shape1 ious = Np.shape0 bbox_bs) /\
  (forall pred_coef_l pred_center_l pred_bbox_l gt_points_xs_l gt_points_ys_l
          ious,
     reconstruction_tables pred_coef_l pred_bbox_l pred_center_l ->
     points_table gt_points_xs_l -> points_table gt_points_ys_l ->
     coef_polygon_iou pred_coef_l pred_center_l pred_bbox_l
       gt_points_xs_l gt_points_ys_l = Ok ious ->
     Np.shape0 ious = Np.shape0 pred_bbox_l /\
     Np.shape1 ious = Np.shape0 gt_points_xs_l).
Proof.
  assert (Hlen : forall coefs bboxs centers,
            reconstruction_tables coefs bboxs centers ->
            exists polygons,
              coef_trans_polygon coefs bboxs centers = Ok polygons /\
              length polygons = Np.shape0 bboxs).
  { intros coefs bboxs centers Hin.
    destruct (coef_trans_polygon_rows coefs bboxs centers Hin) as [Hret Ebox].
    eexists. split; [exact Hret|].
    rewrite length_map. unfold Np.shape0. rewrite Ebox at 2.
    now rewrite length_map. }
  split.
  - intros coef_as coef_bs bbox_as bbox_bs center_as center_bs ious
      Ha Hb Hret.
    unfold coef_iou in Hret.
    destruct (Hlen _ _ _ Ha) as (pa & Epa & La).
    destruct (Hlen _ _ _ Hb) as (pb & Epb & Lb).
    rewrite Epa, Epb in Hret. cbn [bind] in Hret.
    destruct (polygon_iou_shape _ _ _ Hret) as (H0 & H1 & _).
    now rewrite H0, H1, La, Lb.
  - intros pred_coef_l pred_center_l pred_bbox_l xs ys ious Hp Hxs Hys Hret.
    unfold coef_polygon_iou in Hret.
    rewrite (reshape_360_rows xs Hxs), (reshape_360_rows ys Hys) in Hret.
    cbn [bind] in Hret.
    destruct (Nat.eqb_spec (length (Np.rows xs)) (length (Np.rows ys)))
      as [E | E]; [|discriminate].
    cbn [bind] in Hret.
    destruct (Hlen _ _ _ Hp) as (pa & Epa & La). rewrite Epa in Hret.
    cbn [bind] in Hret.
    destruct (polygon_iou_shape _ _ _ Hret) as (H0 & H1 & _).
    rewrite H0, H1, La. split; [reflexivity|].
    rewrite zip_with_length. unfold Np.shape0. rewrite <- E.
    apply Nat.min_id.
Qed.

End CompositesFurther.

Lemma coef_polygon_iou_ground_truth_errors_witness :
  coef_polygon_iou (G := Exact.shapely) (N := Exact.numerics)
    (Np.mk_ndarray [[1 # 2; 0]] 2) (Np.mk_ndarray [[1; 2]] 2)
    (Np.mk_ndarray [[0; 0; 3; 4]] 4)
    gt_xs (Np.mk_ndarray [[1; 2; 3]] 3) = Raise ValueError.
Proof.
  apply (coef_polygon_iou_ground_truth_errors
           (G := Exact.shapely) (N := Exact.numerics)).
  right. left. vm_compute. discriminate.
Defined.

Lemma composites_shape_witness :
  exists ious,
    coef_iou (G := Exact.shapely) (N := Exact.numerics)
      (Np.mk_ndarray [[1 # 2; 0]] 2) (Np.mk_ndarray [[1 # 2; 0]] 2)
      (Np.mk_ndarray [[0; 0; 3; 4]] 4) (Np.mk_ndarray [[0; 0; 3; 4]] 4)
      (Np.mk_ndarray [[1; 2]] 2) (Np.mk_ndarray [[2; 2]] 2) = Ok ious /\
    Np.shape0 ious = 1%nat /\ Np.shape1 ious = 1%nat.
Proof.
  assert (Hex : exists ious,
            coef_iou (G := Exact.shapely) (N := Exact.numerics)
              (Np.mk_ndarray [[1 # 2; 0]] 2) (Np.mk_ndarray [[1 # 2; 0]] 2)
              (Np.mk_ndarray [[0; 0; 3; 4]] 4) (Np.mk_ndarray [[0; 0; 3; 4]] 4)
              (Np.mk_ndarray [[1; 2]] 2) (Np.mk_ndarray [[2; 2]] 2) = Ok ious)
    by (vm_compute; eexists; reflexivity).
  destruct Hex as [ious Hret].
  exists ious. split; [exact Hret|].
  refine (proj1 (composites_shape (G := Exact.shapely)
                   (N := Exact.numerics)) _ _ _ _ _ _ ious _ _ Hret);
    repeat split; cbv; lia.
Defined.

(** * Properties of the typed arrays *)

(** ** int64 arithmetic *)

Lemma wrap_spec (z : Z) : exists k : Z, Int64.wrap z = (z + k * 2 ^ 64)%Z.
Proof.
  exists (- ((z + 2 ^ 63) / 2 ^ 64))%Z. unfold Int64.wrap.
  pose proof (Z.div_mod (z + 2 ^ 63) (2 ^ 64)) as H.
  lia.
Qed.

Lemma wrap_congr (a b k : Z) :
  a = (b + k * 2 ^ 64)%Z -> Int64.wrap a = Int64.wrap b.
Proof.
  intros ->. unfold Int64.wrap.
  replace (b + k * 2 ^ 64 + 2 ^ 63)%Z with (b + 2 ^ 63 + k * 2 ^ 64)%Z by lia.
  now rewrite Z.mod_add by lia.
Qed.

Lemma wrap_in_range (z : Z) : Int64.in_range (Int64.wrap z).
Proof.
  unfold Int64.in_range, Int64.wrap.
  pose proof (Z.mod_pos_bound (z + 2 ^ 63) (2 ^ 64)). lia.
Qed.

Lemma wrap_id (z : Z) : Int64.in_range z -> Int64.wrap z = z.
Proof.
  unfold Int64.in_range, Int64.wrap. intros H.
  rewrite Z.mod_small by lia. lia.
Qed.

Lemma wrap_wrap (z : Z) : Int64.wrap (Int64.wrap z) = Int64.wrap z.
Proof. apply wrap_id, wrap_in_range. Qed.

Lemma wrap_add_l (a b : Z) :
  Int64.wrap (Int64.wrap a + b) = Int64.wrap (a + b).
Proof.
  destruct (wrap_spec a) as [k ->]. apply (wrap_congr _ _ k). lia.
Qed.

Lemma wrap_add_r (a b : Z) :
  Int64.wrap (a + Int64.wrap b) = Int64.wrap (a + b).
Proof.
  destruct (wrap_spec b) as [k ->]. apply (wrap_congr _ _ k). lia.
Qed.

Lemma wrap_sub_l (a b : Z) :
  Int64.wrap (Int64.wrap a - b) = Int64.wrap (a - b).
Proof.
  destruct (wrap_spec a) as [k ->]. apply (wrap_congr _ _ k). lia.
Qed.

Lemma wrap_sub_r (a b : Z) :
  Int64.wrap (a - Int64.wrap b) = Int64.wrap (a - b).
Proof.
  destruct (wrap_spec b) as [k ->]. apply (wrap_congr _ _ (- k)). lia.
Qed.

Lemma wrap_mul_l (a b : Z) :
  Int64.wrap (Int64.wrap a * b) = Int64.wrap (a * b).
Proof.
  destruct (wrap_spec a) as [k ->]. apply (wrap_congr _ _ (k * b)). lia.
Qed.

Lemma wrap_mul_r (a b : Z) :
  Int64.wrap (a * Int64.wrap b) = Int64.wrap (a * b).
Proof.
  destruct (wrap_spec b) as [k ->]. apply (wrap_congr _ _ (a * k)). lia.
Qed.

Lemma wrap_mul (a b : Z) :
  Int64.wrap (Int64.wrap a * Int64.wrap b) = Int64.wrap (a * b).
Proof. now rewrite wrap_mul_l, wrap_mul_r. Qed.

(** The area of a box, as the code computes it on [int64]. *)
Lemma int64_area_box (offset x1 y1 x2 y2 : Z) (rest : list Z) :
  Typed.area (D := int64) offset (x1 :: y1 :: x2 :: y2 :: rest)
  = Int64.wrap ((x2 - x1 + offset) * (y2 - y1 + offset)).
Proof.
  unfold Typed.area, Typed.prod, Np.zip_with; cbn.
  now rewrite !wrap_add_l, wrap_mul.
Qed.

(** ** Rounding *)

Lemma round_Qeq (f : Ieee.format) (p q : Q) :
  p == q -> Ieee.round f p = Ieee.round f q.
Proof.
  intros H. unfold Ieee.round. now rewrite (Qred_complete p q H).
Qed.

Lemma Qred_inject_Z (z : Z) : Qred (inject_Z z) = inject_Z z.
Proof.
  unfold Qred, inject_Z. cbn [Qnum Qden].
  pose proof (Z.ggcd_gcd z 1) as Hg.
  pose proof (Z.ggcd_correct_divisors z 1) as Hd.
  destruct (Z.ggcd z 1) as [g [n d]]. cbn [fst] in Hg.
  rewrite Z.gcd_1_r in Hg. subst g. destruct Hd as [Hn Hd].
  rewrite Z.mul_1_l in Hn, Hd. now subst.
Qed.

Lemma rne_lower (n d : Z) : (0 < d)%Z -> (n / d <= Ieee.rne n d)%Z.
Proof.
  intros Hd. unfold Ieee.rne.
  destruct (2 * (n mod d) ?= d)%Z; [destruct (Z.even (n / d))| |]; lia.
Qed.

Lemma rne_1 (n : Z) : Ieee.rne n 1 = n.
Proof.
  unfold Ieee.rne. rewrite Z.mod_1_r, Z.div_1_r. reflexivity.
Qed.

(** A non-zero [int64] becomes a non-zero finite [float64] of the same
    sign. *)
Lemma round_pos_int64 (n : positive) :
  (Zpos n <= 2 ^ 63)%Z ->
  exists v, Ieee.round_pos Ieee.binary64 (Zpos n) 1 = Some v /\ 0 < v.
Proof.
  intros Hn.
  unfold Ieee.round_pos, Ieee.scaled_num, Ieee.scaled_den, Ieee.scaled_value,
    Ieee.ilog2, Ieee.pow2_le, Ieee.emin.
  change (Z.log2 1) with 0%Z. rewrite Z.sub_0_r.
  pose proof (Z.log2_nonneg (Zpos n)) as H0.
  pose proof (Z.log2_spec (Zpos n) eq_refl) as [Hlo Hhi].
  set (e := Z.log2 (Zpos n)) in *.
  assert (He : (e <= 63)%Z).
  { destruct (Z.le_gt_cases e 63) as [|Hgt]; [assumption|].
    assert (2 ^ 64 <= 2 ^ e)%Z by (apply Z.pow_le_mono_r; lia). lia. }
  destruct (Z.leb_spec 0 e) as [_|]; [|lia].
  rewrite Z.mul_1_l.
  destruct (Z.leb_spec (2 ^ e) (Zpos n)) as [_|]; [|lia].
  cbn [Ieee.emax Ieee.prec Ieee.binary64].
  destruct (Z.leb_spec 1024 e) as [|_]; [lia|].
  set (k := Z.max (e + 1 - 53) (3 - 1024 - 53)).
  assert (Hk : k = (e - 52)%Z) by (unfold k; lia).
  assert (Hk2 : (k =? 1024 - 53)%Z = false) by (apply Z.eqb_neq; lia).
  rewrite Hk2, andb_false_r.
  eexists. split; [reflexivity|].
  destruct (Z.leb_spec 0 k) as [Hpos|Hneg].
  - rewrite Z.mul_1_l.
    assert (Hm : (1 <= Ieee.rne (Zpos n) (2 ^ k))%Z).
    { assert (Hd : (0 < 2 ^ k)%Z) by (apply Z.pow_pos_nonneg; lia).
      pose proof (rne_lower (Zpos n) (2 ^ k) Hd) as Hr.
      assert (2 ^ k <= 2 ^ e)%Z by (apply Z.pow_le_mono_r; lia).
      assert (1 <= Zpos n / 2 ^ k)%Z.
      { apply Z.div_le_lower_bound; lia. }
      lia. }
    assert (Hd : (0 < 2 ^ k)%Z) by (apply Z.pow_pos_nonneg; lia).
    unfold Qlt, inject_Z; cbn [Qnum Qden]. nia.
  - rewrite rne_1.
    assert (Hd : (0 < 2 ^ (- k))%Z) by (apply Z.pow_pos_nonneg; lia).
    assert (Hq : 0 < (Zpos n * 2 ^ (- k)) # Z.to_pos (2 ^ (- k))).
    { unfold Qlt; cbn [Qnum Qden]. nia. }
    now rewrite Qred_correct.
Qed.

Lemma to_float64_nonzero (z : Z) :
  Int64.in_range z -> z <> 0%Z ->
  exists c, Int64.to_float64 z = Ieee.Fin c /\
            (0 < c <-> (0 < z)%Z) /\ ~ c == 0.
Proof.
  unfold Int64.in_range, Int64.to_float64, Ieee.round. intros Hr Hz.
  rewrite Qred_inject_Z. cbn [inject_Z Qnum Qden].
  destruct z as [|n|n]; [congruence| |].
  - destruct (round_pos_int64 n) as (v & -> & Hv); [lia|].
    exists v. split; [reflexivity|]. split; [|lra].
    split; [reflexivity | now intros _].
  - destruct (round_pos_int64 n) as (v & -> & Hv); [lia|].
    assert (Qeq_bool v 0 = false) as ->.
    { apply not_true_is_false. intros E. apply Qeq_bool_iff in E. lra. }
    exists (- v). split; [reflexivity|]. split; [|lra].
    split; [intros H; lra | intros H; lia].
Qed.

Lemma signbit_Fin (c : Q) : Ieee.signbit (Ieee.Fin c) = negb (Qle_bool 0 c).
Proof. reflexivity. Qed.

(** A non-zero finite value divided by itself is 1. *)
Lemma fdiv_self (f : Ieee.format) (c : Q) :
  ~ c == 0 -> Ieee.round f 1 = Ieee.Fin 1 ->
  Ieee.fdiv f (Ieee.Fin c) (Ieee.Fin c) = Ieee.Fin 1.
Proof.
  intros Hc H1. unfold Ieee.fdiv. cbn [Ieee.value].
  assert (Qeq_bool c 0 = false) as ->.
  { apply not_true_is_false. intros E. now apply Qeq_bool_iff in E. }
  rewrite <- H1. apply round_Qeq. now field.
Qed.

Lemma to_float64_self (z : Z) :
  Int64.in_range z -> z <> 0%Z ->
  true_divide (Dtype := int64) z z = Ieee.Fin 1.
Proof.
  intros Hr Hz. cbn [true_divide int64].
  destruct (to_float64_nonzero z Hr Hz) as (c & -> & _ & Hc).
  now apply fdiv_self.
Qed.

(** Zero divided by an [int64]. *)
Lemma to_float64_zero_over (z : Z) :
  Int64.in_range z ->
  true_divide (Dtype := int64) 0%Z z
  = match (z ?= 0)%Z with
    | Eq => Ieee.NaN
    | Gt => Ieee.Fin 0
    | Lt => Ieee.NZero
    end.
Proof.
  intros Hr. cbn [true_divide int64].
  destruct (Z.eq_dec z 0) as [->|Hz]; [reflexivity|].
  destruct (to_float64_nonzero z Hr Hz) as (c & -> & Hs & Hc).
  change (Int64.to_float64 0) with (Ieee.Fin 0).
  unfold Ieee.fdiv. cbn [Ieee.value].
  assert (Qeq_bool c 0 = false) as ->.
  { apply not_true_is_false. intros E. now apply Qeq_bool_iff in E. }
  change (Qeq_bool 0 0) with true. cbv iota.
  change (Ieee.signbit (Ieee.Fin 0)) with false.
  rewrite signbit_Fin. cbn [xorb].
  destruct (Z.compare_spec z 0) as [E|L|G]; [congruence| |].
  - assert (Qle_bool 0 c = false) as ->; [|reflexivity].
    apply not_true_is_false. intros E. apply Qle_bool_iff in E.
    assert (0 < c) by lra. apply Hs in H. lia.
  - assert (Qle_bool 0 c = true) as ->; [|reflexivity].
    apply Qle_bool_iff. apply Hs in G. lra.
Qed.

(** ** bbox_iou on int64 tables *)

Lemma typed_box_table_row {A : Type} (a : Np.ndarray A) (i : nat) (r : list A) :
  typed_box_table a -> nth_error (Np.rows a) i = Some r ->
  exists x1 y1 x2 y2 rest, r = x1 :: y1 :: x2 :: y2 :: rest.
Proof.
  intros [Hk Hw] Hr. unfold Np.well_shaped in Hw.
  rewrite forallb_forall in Hw.
  specialize (Hw r (nth_error_In _ _ Hr)). apply Nat.eqb_eq in Hw.
  destruct r as [|x1 [|y1 [|x2 [|y2 rest]]]]; simpl in Hw; try lia.
  now exists x1, y1, x2, y2, rest.
Qed.

Lemma typed_bbox_iou_at_index {D : Dtype} (bbox_a bbox_b : Np.ndarray num)
  (offset : num) (iou : Np.ndarray Ieee.fnum) (i j : nat) (ra rb : list num) :
  Typed.bbox_iou bbox_a bbox_b offset = Ok iou ->
  nth_error (Np.rows bbox_a) i = Some ra ->
  nth_error (Np.rows bbox_b) j = Some rb ->
  at_index iou i j = Some (Typed.iou_entry offset ra rb).
Proof.
  unfold Typed.bbox_iou. intros H Ha Hb.
  destruct ((Np.shape1 bbox_a <? 4) || (Np.shape1 bbox_b <? 4))%nat;
    [discriminate|].
  injection H as <-. unfold at_index. cbn [Np.rows].
  rewrite nth_error_map, Ha. cbn [option_map].
  now rewrite nth_error_map, Hb.
Qed.

(** The overlap of two rows, as the code computes it on [int64]. *)
Lemma int64_area_i_rows (offset x1 y1 x2 y2 u1 v1 u2 v2 : Z)
  (rest rest' : list Z) :
  Typed.area_i (D := int64) offset
    (x1 :: y1 :: x2 :: y2 :: rest) (u1 :: v1 :: u2 :: v2 :: rest')
  = Int64.wrap
      ((Z.min x2 u2 - Z.max x1 u1 + offset) *
       (Z.min y2 v2 - Z.max y1 v1 + offset) *
       (if ((Z.max x1 u1 <? Z.min x2 u2) && (Z.max y1 v1 <? Z.min y2 v2))%Z
        then 1 else 0)).
Proof.
  unfold Typed.area_i, Typed.prod, Typed.tl, Typed.br, Typed.of_bool,
    Np.zip_with, Np.all; cbn.
  rewrite !wrap_add_l, wrap_mul, wrap_mul_l.
  rewrite andb_true_r.
  now destruct ((Z.max x1 u1 <? Z.min x2 u2) && (Z.max y1 v1 <? Z.min y2 v2))%Z.
Qed.

(** A box of an [int64] table against itself. *)
Lemma int64_bbox_iou_self (offset x1 y1 x2 y2 : Z) :
  (x1 < x2)%Z -> (y1 < y2)%Z ->
  Int64.wrap ((x2 - x1 + offset) * (y2 - y1 + offset)) <> 0%Z ->
  let b := Np.mk_ndarray [[x1; y1; x2; y2]] 4 in
  Typed.bbox_iou (D := int64) b b offset
  = Ok (Np.mk_ndarray [[Ieee.Fin 1]] 1).
Proof.
  intros Hx Hy Hnz b. unfold Typed.bbox_iou, b.
  cbn [Np.shape1 Nat.ltb Nat.leb orb Np.rows map Np.shape0 length].
  unfold Typed.iou_entry.
  rewrite int64_area_i_rows, int64_area_box.
  rewrite Z.max_id, Z.max_id, Z.min_id, Z.min_id.
  apply Z.ltb_lt in Hx, Hy. rewrite Hx, Hy. cbn [andb].
  rewrite Z.mul_1_r.
  set (A := Int64.wrap ((x2 - x1 + offset) * (y2 - y1 + offset))) in *.
  assert (HA : Int64.in_range A) by apply wrap_in_range.
  assert (E : subtract (Dtype := int64) (add (Dtype := int64) A A) A = A).
  { cbn [subtract add int64]. rewrite wrap_sub_l.
    replace (A + A - A)%Z with A by lia. now apply wrap_id. }
  rewrite E, to_float64_self by assumption. reflexivity.
Qed.

(** X2.  On [int64] tables, for two boxes that do not overlap on a
    region of positive extent (disjoint or only touching, whatever the
    offset), the entry of [bbox_iou] is a zero, with the sign of the sum
    of the two areas as [int64] arithmetic gives it, and nan when that
    sum is zero. *)
Theorem bbox_iou_disjoint (bbox_a bbox_b : Np.ndarray Z) (offset : Z)
  (iou : Np.ndarray Ieee.fnum) (i j : nat) (ra rb : list Z) :
  typed_box_table bbox_a -> typed_box_table bbox_b ->
  Typed.bbox_iou (D := int64) bbox_a bbox_b offset = Ok iou ->
  nth_error (Np.rows bbox_a) i = Some ra ->
  nth_error (Np.rows bbox_b) j = Some rb ->
  ~ int64_overlapping ra rb ->
  at_index iou i j
  = Some match (Int64.wrap (Typed.area (D := int64) offset ra +
                            Typed.area (D := int64) offset rb) ?= 0)%Z with
         | Eq => Ieee.NaN
         | Gt => Ieee.Fin 0
         | Lt => Ieee.NZero
         end.
Proof.
  intros Ta Tb Hret Ha Hb Hno.
  rewrite (typed_bbox_iou_at_index _ _ _ _ _ _ _ _ Hret Ha Hb). f_equal.
  destruct (typed_box_table_row _ _ _ Ta Ha) as (x1 & y1 & x2 & y2 & rest & ->).
  destruct (typed_box_table_row _ _ _ Tb Hb) as (u1 & v1 & u2 & v2 & rest' & ->).
  unfold Typed.iou_entry. rewrite int64_area_i_rows.
  assert (E : ((Z.max x1 u1 <? Z.min x2 u2) && (Z.max y1 v1 <? Z.min y2 v2))%Z
              = false).
  { apply not_true_is_false. intros E. apply andb_true_iff in E.
    destruct E as [Ex Ey]. apply Z.ltb_lt in Ex, Ey.
    apply Hno. split; assumption. }
  rewrite E, Z.mul_0_r. change (Int64.wrap 0) with 0%Z.
  cbn [subtract add int64]. rewrite Z.sub_0_r, wrap_wrap.
  apply to_float64_zero_over, wrap_in_range.
Qed.

Lemma bbox_iou_disjoint_witness :
  let a := Np.mk_ndarray [[0; 0; 10; 10]%Z] 4 in
  let b := Np.mk_ndarray [[10; 0; 20; 10]; [30; 30; 40; 40]]%Z 4 in
  exists iou,
    Typed.bbox_iou (D := int64) a b 1%Z = Ok iou /\
    at_index iou 0 0 = Some (Ieee.Fin 0).
Proof.
  cbv zeta. eexists. split; [reflexivity|].
  refine (bbox_iou_disjoint
            (Np.mk_ndarray [[0; 0; 10; 10]%Z] 4)
            (Np.mk_ndarray [[10; 0; 20; 10]; [30; 30; 40; 40]]%Z 4)
            1%Z _ 0%nat 0%nat _ _ _ _ eq_refl eq_refl eq_refl _).
  - split; [apply Nat.le_refl | reflexivity].
  - split; [apply Nat.le_refl | reflexivity].
  - intros [Hx _]. vm_compute in Hx. discriminate.
Defined.

(** ** The format converters on int64 boxes *)

Lemma typed_size_4_cols {A : Type} (a : Np.ndarray A) :
  Np.shape1 a = 4%nat -> (Np.size a mod 4 =? 0)%nat = true.
Proof.
  intros H. unfold Np.size. rewrite H. apply Nat.eqb_eq.
  apply Nat.Div0.mod_mul.
Qed.

Lemma typed_xywh_to_xyxy_array4 {D : Dtype} (a : Np.ndarray num) :
  Np.shape1 a = 4%nat ->
  Typed.bbox_xywh_to_xyxy (Typed.Array2 a)
  = Ok (Typed.Array2 (Np.mk_ndarray
          (map (fun r =>
                  Typed.top_left r ++
                  Typed.broadcast add (Typed.top_left r)
                    (map (fun d => maximum zero (subtract d one))
                       (Typed.bottom_right r)))
               (Np.rows a))
          4)).
Proof.
  intros Hk. unfold Typed.bbox_xywh_to_xyxy.
  rewrite (typed_size_4_cols a Hk), Hk. reflexivity.
Qed.

Lemma typed_xyxy_to_xywh_array4 {D : Dtype} (a : Np.ndarray num) :
  Np.shape1 a = 4%nat ->
  Typed.bbox_xyxy_to_xywh (Typed.Array2 a)
  = Ok (Typed.Array2 (Np.mk_ndarray
          (map (fun r =>
                  Typed.top_left r ++
                  map (fun d => add d one)
                    (Typed.broadcast subtract (Typed.bottom_right r)
                       (Typed.top_left r)))
               (Np.rows a))
          4)).
Proof.
  intros Hk. unfold Typed.bbox_xyxy_to_xywh.
  rewrite (typed_size_4_cols a Hk), Hk. reflexivity.
Qed.

Lemma array4_map_id {A : Type} (f : list A -> list A) (a : Np.ndarray A) :
  Np.shape1 a = 4%nat ->
  (forall r, In r (Np.rows a) -> f r = r) ->
  Np.mk_ndarray (map f (Np.rows a)) 4 = a.
Proof.
  intros Hk Hf. destruct a as [rows k]. cbn in *. subst k. f_equal.
  rewrite <- (map_id rows) at 2. now apply map_ext_in.
Qed.

(** [x + (w - 1) - x + 1] is [w] in wrap-around arithmetic. *)
Lemma int64_there_and_back (x w : Z) :
  Int64.in_range w -> (1 <= w)%Z ->
  Int64.wrap (Int64.wrap (Int64.wrap (x + Z.max (Int64.wrap (w - 1)) 0) - x) + 1)
  = w.
Proof.
  intros Hr Hw. unfold Int64.in_range in Hr.
  rewrite (wrap_id (w - 1)) by (unfold Int64.in_range; lia).
  rewrite Z.max_l by lia.
  rewrite wrap_add_l.
  destruct (wrap_spec (x + (w - 1))) as [k ->].
  rewrite (wrap_congr _ w k) by lia.
  now apply wrap_id.
Qed.

(** The round trip on [int64] boxes, also when [x + w - 1] wraps
    around. *)
Lemma int64_xywh_xyxy_roundtrip (v : Typed.pyobj Z) :
  int64_inclusive_boxes v ->
  (b <- Typed.bbox_xywh_to_xyxy (D := int64) v ;;
   Typed.bbox_xyxy_to_xywh (D := int64) b) = Ok v.
Proof.
  destruct v as [l | l | a |]; intros Hv; unfold int64_inclusive_boxes in Hv;
    try contradiction.
  - destruct l as [|x [|y [|w [|h [|]]]]]; simpl in Hv; try contradiction.
    destruct Hv as (Hr & Hw & Hh).
    inversion Hr as [|? ? _ Hr1]; inversion Hr1 as [|? ? _ Hr2];
      inversion Hr2 as [|? ? Hrw Hr3]; inversion Hr3 as [|? ? Hrh _]; subst.
    cbn [Typed.bbox_xywh_to_xyxy bind Typed.bbox_xyxy_to_xywh
           add subtract maximum zero one int64].
    now rewrite !int64_there_and_back.
  - destruct Hv as [Hk Hrows].
    pose proof (typed_xywh_to_xyxy_array4 (D := int64) a Hk) as E1.
    cbn [num int64] in E1. rewrite E1. unfold bind.
    pose proof (typed_xyxy_to_xywh_array4 (D := int64)) as E2.
    cbn [num int64] in E2. rewrite E2 by reflexivity.
    do 2 f_equal. cbn [Np.rows]. rewrite map_map.
    apply array4_map_id; [assumption|]. intros r Hin.
    rewrite Forall_forall in Hrows. specialize (Hrows r Hin).
    destruct r as [|x [|y [|w [|h [|]]]]]; simpl in Hrows; try contradiction.
    destruct Hrows as (Hr & Hw & Hh).
    inversion Hr as [|? ? _ Hr1]; inversion Hr1 as [|? ? _ Hr2];
      inversion Hr2 as [|? ? Hrw Hr3]; inversion Hr3 as [|? ? Hrh _]; subst.
    cbn [Typed.top_left Typed.bottom_right firstn skipn map app
           Typed.broadcast length Nat.eqb Np.zip_with combine fst snd
           add subtract maximum zero one int64].
    rewrite !(Z.max_comm 0).
    now rewrite !int64_there_and_back.
Qed.

Lemma Forall_in_range_4 (x y z t : Z) :
  Forall Int64.in_range [x; y; z; t] ->
  Int64.in_range x /\ Int64.in_range y /\ Int64.in_range z /\ Int64.in_range t.
Proof.
  intros H. rewrite !Forall_cons_iff in H. tauto.
Qed.

(** [x1 + max(0, (x2 - x1 + 1) - 1)] is [x2] in wrap-around arithmetic. *)
Lemma int64_back_and_there (x1 x2 : Z) :
  Int64.in_range x2 -> (0 <= x2 - x1 < 2 ^ 63)%Z ->
  Int64.wrap
    (x1 + Z.max 0 (Int64.wrap (Int64.wrap (Int64.wrap (x2 - x1) + 1) - 1)))
  = x2.
Proof.
  intros Hr Hd.
  assert (E : Int64.wrap (Int64.wrap (Int64.wrap (x2 - x1) + 1) - 1)
              = (x2 - x1)%Z).
  { rewrite wrap_sub_l. destruct (wrap_spec (x2 - x1)) as [k ->].
    rewrite (wrap_congr _ (x2 - x1) k) by lia.
    apply wrap_id. unfold Int64.in_range. lia. }
  rewrite E, Z.max_r by lia.
  replace (x1 + (x2 - x1))%Z with x2 by lia. now apply wrap_id.
Qed.

(** X10.  On [int64] boxes (xmin, ymin, xmax, ymax) with [xmin <= xmax]
    and [ymin <= ymax] whose extents are values of the type, given as a
    tuple or list or as the rows of an [(N, 4)] array,
    [bbox_xywh_to_xyxy(bbox_xyxy_to_xywh(box))] returns the box. *)
Theorem xyxy_xywh_roundtrip (v : Typed.pyobj Z) :
  int64_ordered_boxes v ->
  (b <- Typed.bbox_xyxy_to_xywh (D := int64) v ;;
   Typed.bbox_xywh_to_xyxy (D := int64) b) = Ok v.
Proof.
  destruct v as [l | l | a |]; intros Hv; unfold int64_ordered_boxes in Hv;
    try contradiction.
  - destruct l as [|x1 [|y1 [|x2 [|y2 [|]]]]]; simpl in Hv; try contradiction.
    destruct Hv as (Hr & Hx & Hy).
    apply Forall_in_range_4 in Hr. destruct Hr as (_ & _ & Hrx & Hry).
    cbn [Typed.bbox_xywh_to_xyxy bind Typed.bbox_xyxy_to_xywh
           add subtract maximum zero one int64].
    rewrite !(Z.max_comm _ 0).
    now rewrite !int64_back_and_there.
  - destruct Hv as [Hk Hrows].
    pose proof (typed_xyxy_to_xywh_array4 (D := int64) a Hk) as E1.
    cbn [num int64] in E1. rewrite E1. unfold bind.
    pose proof (typed_xywh_to_xyxy_array4 (D := int64)) as E2.
    cbn [num int64] in E2. rewrite E2 by reflexivity.
    do 2 f_equal. cbn [Np.rows]. rewrite map_map.
    apply array4_map_id; [assumption|]. intros r Hin.
    rewrite Forall_forall in Hrows. specialize (Hrows r Hin).
    destruct r as [|x1 [|y1 [|x2 [|y2 [|]]]]]; simpl in Hrows;
      try contradiction.
    destruct Hrows as (Hr & Hx & Hy).
    apply Forall_in_range_4 in Hr. destruct Hr as (_ & _ & Hrx & Hry).
    cbn [Typed.top_left Typed.bottom_right firstn skipn map app
           Typed.broadcast length Nat.eqb Np.zip_with combine fst snd
           add subtract maximum zero one int64].
    now rewrite !int64_back_and_there.
Qed.

Lemma xyxy_xywh_roundtrip_witness :
  (b <- Typed.bbox_xyxy_to_xywh (D := int64) (Typed.Seq [3; 4; 3; 9]%Z) ;;
   Typed.bbox_xywh_to_xyxy (D := int64) b)
  = Ok (Typed.Seq [3; 4; 3; 9]%Z)
  /\
  (b <- Typed.bbox_xyxy_to_xywh (D := int64)
          (Typed.Array2
             (Np.mk_ndarray [[0; 0; 2 ^ 63 - 1; 9]; [3; 4; 3; 9]]%Z 4)) ;;
   Typed.bbox_xywh_to_xyxy (D := int64) b)
  = Ok (Typed.Array2
          (Np.mk_ndarray [[0; 0; 2 ^ 63 - 1; 9]; [3; 4; 3; 9]]%Z 4)).
Proof.
  split.
  - apply (xyxy_xywh_roundtrip (Typed.Seq [3; 4; 3; 9]%Z)).
    cbn. split; [|lia].
    repeat constructor; vm_compute; discriminate.
  - apply (xyxy_xywh_roundtrip
             (Typed.Array2
                (Np.mk_ndarray [[0; 0; 2 ^ 63 - 1; 9]; [3; 4; 3; 9]]%Z 4))).
    cbn. split; [reflexivity|].
    repeat constructor; try lia; vm_compute; discriminate.
Defined.

Lemma int64_corner_sum (x w : Z) :
  Int64.in_range x -> Int64.in_range w ->
  (- 2 ^ 63 < w)%Z -> (x + Z.max (w - 1) 0 < 2 ^ 63)%Z ->
  (x <= Int64.wrap (x + Z.max (Int64.wrap (w - 1)) 0))%Z.
Proof.
  unfold Int64.in_range. intros Hx Hw Hlo Hhi.
  rewrite (wrap_id (w - 1)) by (unfold Int64.in_range; lia).
  rewrite wrap_id by (unfold Int64.in_range; lia). lia.
Qed.

(** X11.  On [int64] boxes (x, y, w, h), negative widths and heights
    included, for which neither [w - 1], [h - 1] nor the sums with [x]
    and [y] leave the type, the boxes [bbox_xywh_to_xyxy] returns have
    [xmin <= xmax] and [ymin <= ymax]. *)
Theorem bbox_xywh_to_xyxy_ordered (v : Typed.pyobj Z) :
  int64_boxes_in_bounds v ->
  exists out,
    Typed.bbox_xywh_to_xyxy (D := int64) v = Ok out /\
    Forall int64_corners_in_order (typed_boxes_of out).
Proof.
  destruct v as [l | l | a |]; intros Hv; unfold int64_boxes_in_bounds in Hv;
    try contradiction.
  - destruct l as [|x [|y [|w [|h [|]]]]]; simpl in Hv; try contradiction.
    destruct Hv as (Hr & Hw & Hh & Hx & Hy).
    apply Forall_in_range_4 in Hr. destruct Hr as (Hrx & Hry & Hrw & Hrh).
    eexists. split; [reflexivity|].
    constructor; [|constructor].
    cbn [add subtract maximum zero one int64].
    split; cbn [nth]; now apply int64_corner_sum.
  - destruct Hv as [Hk Hrows].
    pose proof (typed_xywh_to_xyxy_array4 (D := int64) a Hk) as E1.
    cbn [num int64] in E1. rewrite E1.
    eexists. split; [reflexivity|].
    cbn [typed_boxes_of Np.rows]. apply Forall_forall. intros r' Hr'.
    apply in_map_iff in Hr'. destruct Hr' as (r & <- & Hin).
    rewrite Forall_forall in Hrows. specialize (Hrows r Hin).
    destruct r as [|x [|y [|w [|h [|]]]]]; simpl in Hrows; try contradiction.
    destruct Hrows as (Hr & Hw & Hh & Hx & Hy).
    apply Forall_in_range_4 in Hr. destruct Hr as (Hrx & Hry & Hrw & Hrh).
    cbn [Typed.top_left Typed.bottom_right firstn skipn map app
           Typed.broadcast length Nat.eqb Np.zip_with combine fst snd
           add subtract maximum zero one int64].
    rewrite !(Z.max_comm 0).
    split; cbn [nth]; now apply int64_corner_sum.
Qed.

Lemma bbox_xywh_to_xyxy_ordered_witness :
  (exists out,
     Typed.bbox_xywh_to_xyxy (D := int64) (Typed.Seq [5; 5; -3; 0]%Z) = Ok out /\
     Forall int64_corners_in_order (typed_boxes_of out)) /\
  (exists out,
     Typed.bbox_xywh_to_xyxy (D := int64)
       (Typed.Array2 (Np.mk_ndarray [[5; 5; -3; 0]; [0; 0; 10; 10]]%Z 4))
     = Ok out /\
     Forall int64_corners_in_order (typed_boxes_of out)).
Proof.
  split.
  - apply (bbox_xywh_to_xyxy_ordered (Typed.Seq [5; 5; -3; 0]%Z)).
    cbn. split; [|lia].
    repeat constructor; vm_compute; discriminate.
  - apply (bbox_xywh_to_xyxy_ordered
             (Typed.Array2
                (Np.mk_ndarray [[5; 5; -3; 0]; [0; 0; 10; 10]]%Z 4))).
    cbn. split; [reflexivity|].
    repeat constructor; try lia; vm_compute; discriminate.
Defined.

(** ** Rounding to a binary format *)

Lemma pow2_pos (k : Z) : 0 < 2 ^ k.
Proof. apply Qpower_0_lt. reflexivity. Qed.

Lemma pow2_add (a b : Z) : 2 ^ (a + b) == 2 ^ a * 2 ^ b.
Proof. apply Qpower_plus. discriminate. Qed.

Lemma pow2_opp (k : Z) : 2 ^ (- k) * 2 ^ k == 1.
Proof.
  rewrite <- pow2_add. replace (- k + k)%Z with 0%Z by lia. reflexivity.
Qed.

Lemma pow2_Z (k : Z) : (0 <= k)%Z -> 2 ^ k == inject_Z (2 ^ k).
Proof. intros H. now rewrite Zpower_Qpower. Qed.

Lemma pow2_le_mono (a b : Z) : (a <= b)%Z -> 2 ^ a <= 2 ^ b.
Proof. intros H. apply Qpower_le_compat_l; [assumption | discriminate]. Qed.

Lemma pow2_lt_mono (a b : Z) : (a < b)%Z -> 2 ^ a < 2 ^ b.
Proof. intros H. apply Qpower_lt_compat_l; [assumption | reflexivity]. Qed.

Lemma pow2_lt_inv (a b : Z) : 2 ^ a < 2 ^ b -> (a < b)%Z.
Proof. intros H. apply (Qpower_lt_compat_l_inv 2); [assumption | reflexivity]. Qed.

Lemma Zpow2_pos (k : Z) : (0 <= k)%Z -> (0 < 2 ^ k)%Z.
Proof. intros H. apply Z.pow_pos_nonneg; lia. Qed.

(** [n / d] as a rational. *)
Lemma Qmake_pos (n : Z) (d : positive) :
  inject_Z n == (n # d) * inject_Z (Zpos d).
Proof. unfold Qeq, Qmult, inject_Z; simpl. lia. Qed.

Lemma pow2_le_spec (e : Z) (n d : positive) :
  Ieee.pow2_le e (Zpos n) (Zpos d) = true <-> 2 ^ e <= Zpos n # d.
Proof.
  unfold Ieee.pow2_le.
  pose proof (Qmake_pos (Zpos n) d) as Hq.
  assert (Hd : 0 < inject_Z (Zpos d)) by reflexivity.
  destruct (Z.leb_spec 0 e) as [He|He].
  - rewrite Z.leb_le, Zle_Qle, inject_Z_mult, <- pow2_Z by assumption.
    rewrite Hq, (Qmult_comm (inject_Z (Zpos d))).
    apply Qmult_le_r. exact Hd.
  - rewrite Z.leb_le, Zle_Qle, inject_Z_mult, <- pow2_Z by lia.
    pose proof (pow2_pos e) as Hp.
    rewrite Hq.
    rewrite <- (Qmult_le_r _ _ (2 ^ e) Hp).
    setoid_replace ((Zpos n # d) * inject_Z (Zpos d) * 2 ^ (- e) * 2 ^ e)
      with ((Zpos n # d) * (2 ^ (- e) * 2 ^ e) * inject_Z (Zpos d)) by ring.
    rewrite pow2_opp, Qmult_1_r, (Qmult_comm (inject_Z (Zpos d))).
    apply Qmult_le_r. exact Hd.
Qed.

Lemma log2_bounds (n : positive) :
  2 ^ Z.log2 (Zpos n) <= inject_Z (Zpos n) < 2 ^ (Z.log2 (Zpos n) + 1).
Proof.
  pose proof (Z.log2_spec (Zpos n) eq_refl) as [Hlo Hhi].
  pose proof (Z.log2_nonneg (Zpos n)) as H0.
  rewrite !pow2_Z by lia. split.
  - now rewrite <- Zle_Qle.
  - now rewrite <- Zlt_Qlt.
Qed.

(** [ilog2] is the binary exponent of [n / d]. *)
Lemma ilog2_spec (n d : positive) :
  let e := Ieee.ilog2 (Zpos n) (Zpos d) in
  2 ^ e <= Zpos n # d < 2 ^ (e + 1).
Proof.
  intros e. unfold Ieee.ilog2 in e.
  pose proof (log2_bounds n) as [Hn1 Hn2].
  pose proof (log2_bounds d) as [Hd1 Hd2].
  set (ln := Z.log2 (Zpos n)) in *. set (ld := Z.log2 (Zpos d)) in *.
  pose proof (Qmake_pos (Zpos n) d) as Hq.
  assert (Hdpos : 0 < inject_Z (Zpos d)) by reflexivity.
  pose proof (pow2_pos ld) as Hld. pose proof (pow2_pos ln) as Hln.
  assert (Hup : Zpos n # d < 2 ^ (ln - ld + 1)).
  { assert (E : 2 ^ (ln - ld + 1) * 2 ^ ld == 2 ^ (ln + 1)).
    { rewrite <- pow2_add. now replace (ln - ld + 1 + ld)%Z with (ln + 1)%Z by lia. }
    pose proof (pow2_pos (ln - ld + 1)). nra. }
  assert (Hlow : 2 ^ (ln - ld - 1) <= Zpos n # d).
  { assert (E : 2 ^ (ln - ld - 1) * 2 ^ (ld + 1) == 2 ^ ln).
    { rewrite <- pow2_add. now replace (ln - ld - 1 + (ld + 1))%Z with ln by lia. }
    pose proof (pow2_pos (ln - ld - 1)).
    assert (0 < Zpos n # d) by reflexivity. nra. }
  subst e. destruct (Ieee.pow2_le (ln - ld) (Zpos n) (Zpos d)) eqn:E.
  - apply pow2_le_spec in E. split; assumption.
  - split; [assumption|].
    replace (ln - ld - 1 + 1)%Z with (ln - ld)%Z by lia.
    apply Qnot_le_lt. intros H. apply pow2_le_spec in H. congruence.
Qed.

Lemma rne_exact (m D : Z) : (0 < D)%Z -> Ieee.rne (m * D) D = m.
Proof.
  intros HD. unfold Ieee.rne.
  rewrite Z.mod_mul, Z.div_mul by lia.
  rewrite Z.mul_0_r.
  destruct (Z.compare_spec 0 D); [lia | reflexivity | lia].
Qed.

Lemma rne_upper (N B D : Z) :
  (0 < D)%Z -> (N < B * D)%Z -> (Ieee.rne N D <= B)%Z.
Proof.
  intros HD H. unfold Ieee.rne.
  assert (N / D < B)%Z by (apply Z.div_lt_upper_bound; lia).
  destruct (2 * (N mod D) ?= D)%Z; [destruct (Z.even (N / D))| |]; lia.
Qed.

Lemma rne_nonneg (N D : Z) : (0 < D)%Z -> (0 <= N)%Z -> (0 <= Ieee.rne N D)%Z.
Proof.
  intros HD HN. pose proof (rne_lower N D HD).
  assert (0 <= N / D)%Z by (apply Z.div_pos; lia). lia.
Qed.

Lemma scaled_den_pos (k : Z) (d : positive) : (0 < Ieee.scaled_den k (Zpos d))%Z.
Proof.
  unfold Ieee.scaled_den. destruct (Z.leb_spec 0 k); [|lia].
  pose proof (Zpow2_pos k). lia.
Qed.

Lemma scaled_spec (k : Z) (n d : positive) :
  inject_Z (Ieee.scaled_num k (Zpos n))
  == (Zpos n # d) * 2 ^ (- k) * inject_Z (Ieee.scaled_den k (Zpos d)).
Proof.
  unfold Ieee.scaled_num, Ieee.scaled_den.
  pose proof (Qmake_pos (Zpos n) d) as Hq.
  destruct (Z.leb_spec 0 k) as [Hk|Hk].
  - rewrite inject_Z_mult, <- pow2_Z by assumption.
    pose proof (pow2_opp k) as E.
    rewrite Hq at 1.
    setoid_replace ((Zpos n # d) * 2 ^ (- k) * (inject_Z (Zpos d) * 2 ^ k))
      with ((Zpos n # d) * inject_Z (Zpos d) * (2 ^ (- k) * 2 ^ k)) by ring.
    rewrite E. ring.
  - rewrite inject_Z_mult, <- pow2_Z by lia. rewrite Hq at 1. ring.
Qed.

Lemma scaled_value_spec (k m : Z) : Ieee.scaled_value k m == inject_Z m * 2 ^ k.
Proof.
  unfold Ieee.scaled_value. destruct (Z.leb_spec 0 k) as [Hk|Hk].
  - now rewrite inject_Z_mult, <- pow2_Z.
  - rewrite Qred_correct.
    pose proof (Zpow2_pos (- k) ltac:(lia)) as Hz.
    rewrite Qmake_Qdiv, Z2Pos.id by assumption.
    rewrite <- pow2_Z by lia.
    unfold Qdiv. rewrite <- Qpower_opp, Z.opp_involutive. reflexivity.
Qed.

Lemma scaled_value_reduced (k m : Z) : Qred (Ieee.scaled_value k m) = Ieee.scaled_value k m.
Proof.
  unfold Ieee.scaled_value. destruct (0 <=? k)%Z.
  - apply Qred_inject_Z.
  - apply Qred_complete, Qred_correct.
Qed.

Lemma round_pos_unfold (f : Ieee.format) (n d : Z) :
  Ieee.round_pos f n d
  = let e := Ieee.ilog2 n d in
    if (Ieee.emax f <=? e)%Z then None
    else
      let k := Z.max (e + 1 - Ieee.prec f) (Ieee.emin f) in
      let m := Ieee.rne (Ieee.scaled_num k n) (Ieee.scaled_den k d) in
      if ((2 ^ Ieee.prec f <=? m) && (k =? Ieee.emax f - Ieee.prec f))%Z
      then None
      else Some (Ieee.scaled_value k m).
Proof. reflexivity. Qed.

Section Rounding.

Variable f : Ieee.format.
Hypothesis Hprec : (1 <= Ieee.prec f)%Z.
Hypothesis Hemax : (2 <= Ieee.emax f)%Z.

Lemma inject_Z_lt_pow2 (m p : Z) :
  (0 <= p)%Z -> (m < 2 ^ p)%Z <-> inject_Z m < 2 ^ p.
Proof. intros Hp. now rewrite Zlt_Qlt, pow2_Z. Qed.

(** A positive number of the format is rounded to itself. *)
Lemma round_pos_representable (n d : positive) (M K : Z) :
  (M < 2 ^ Ieee.prec f)%Z -> (Ieee.emin f <= K)%Z ->
  Zpos n # d == inject_Z M * 2 ^ K -> Zpos n # d < 2 ^ Ieee.emax f ->
  Ieee.round_pos f (Zpos n) (Zpos d) = Some (Qred (Zpos n # d)).
Proof.
  intros HM HK HX Hmax. rewrite round_pos_unfold. cbv zeta.
  pose proof (ilog2_spec n d) as [Hlo Hhi]. cbv zeta in Hlo, Hhi.
  set (e := Ieee.ilog2 (Zpos n) (Zpos d)) in *.
  set (X := Zpos n # d) in *.
  assert (He : (e < Ieee.emax f)%Z).
  { apply pow2_lt_inv. eapply Qle_lt_trans; eassumption. }
  destruct (Z.leb_spec (Ieee.emax f) e) as [|_]; [lia|].
  set (k := Z.max (e + 1 - Ieee.prec f) (Ieee.emin f)).
  assert (HMq : inject_Z M < 2 ^ Ieee.prec f)
    by (apply inject_Z_lt_pow2; [lia | assumption]).
  assert (HeK : (e < Ieee.prec f + K)%Z).
  { apply pow2_lt_inv. apply Qle_lt_trans with X; [assumption|].
    rewrite HX, pow2_add. apply Qmult_lt_r; [apply pow2_pos | assumption]. }
  assert (Hk : (k <= K)%Z) by (unfold k; lia).
  set (m := (M * 2 ^ (K - k))%Z).
  assert (Hm : X == inject_Z m * 2 ^ k).
  { unfold m. rewrite inject_Z_mult, <- pow2_Z by lia.
    rewrite <- Qmult_assoc, <- pow2_add.
    now replace (K - k + k)%Z with K by lia. }
  assert (Hsc : X * 2 ^ (- k) == inject_Z m).
  { rewrite Hm, <- Qmult_assoc, (Qmult_comm (2 ^ k)), pow2_opp. ring. }
  assert (HN : Ieee.scaled_num k (Zpos n) = (m * Ieee.scaled_den k (Zpos d))%Z).
  { apply inject_Z_injective. rewrite inject_Z_mult, <- Hsc.
    apply scaled_spec. }
  rewrite HN, rne_exact by apply scaled_den_pos.
  assert (Hmp : (m < 2 ^ Ieee.prec f)%Z).
  { apply inject_Z_lt_pow2; [lia|]. rewrite <- Hsc.
    apply Qlt_le_trans with (2 ^ (e + 1) * 2 ^ (- k)).
    - apply Qmult_lt_r; [apply pow2_pos | assumption].
    - rewrite <- pow2_add. apply pow2_le_mono. unfold k. lia. }
  destruct (Z.leb_spec (2 ^ Ieee.prec f) m) as [|_]; [lia|].
  cbn [andb]. f_equal.
  rewrite <- scaled_value_reduced. apply Qred_complete.
  rewrite scaled_value_spec. symmetry. exact Hm.
Qed.

(** What [round_pos] returns is a number of the format, in lowest
    terms. *)
Lemma round_pos_is_representable (n d : positive) (v : Q) :
  Ieee.round_pos f (Zpos n) (Zpos d) = Some v ->
  Qred v = v /\
  exists M K : Z,
    (0 <= M < 2 ^ Ieee.prec f)%Z /\ (Ieee.emin f <= K)%Z /\
    v == inject_Z M * 2 ^ K /\ v < 2 ^ Ieee.emax f.
Proof.
  rewrite round_pos_unfold. cbv zeta.
  pose proof (ilog2_spec n d) as [Hlo Hhi]. cbv zeta in Hlo, Hhi.
  set (e := Ieee.ilog2 (Zpos n) (Zpos d)) in *.
  set (X := Zpos n # d) in *.
  destruct (Z.leb_spec (Ieee.emax f) e) as [|He]; [discriminate|].
  set (k := Z.max (e + 1 - Ieee.prec f) (Ieee.emin f)).
  assert (Hk : (k <= Ieee.emax f - Ieee.prec f)%Z)
    by (unfold k, Ieee.emin; lia).
  pose proof (scaled_den_pos k d) as HD.
  pose proof (scaled_spec k n d) as Hsc. fold X in Hsc.
  set (NN := Ieee.scaled_num k (Zpos n)) in *.
  set (DD := Ieee.scaled_den k (Zpos d)) in *.
  assert (HN0 : (0 <= NN)%Z).
  { unfold NN, Ieee.scaled_num. destruct (0 <=? k)%Z; [lia|].
    pose proof (Zpow2_pos (- k)). destruct (Z.le_gt_cases 0 (- k)); [|lia].
    nia. }
  assert (Hub : X * 2 ^ (- k) < 2 ^ Ieee.prec f).
  { apply Qlt_le_trans with (2 ^ (e + 1) * 2 ^ (- k)).
    - apply Qmult_lt_r; [apply pow2_pos | assumption].
    - rewrite <- pow2_add. apply pow2_le_mono. unfold k. lia. }
  assert (HNB : (NN < 2 ^ Ieee.prec f * DD)%Z).
  { rewrite Zlt_Qlt, inject_Z_mult, Hsc, <- pow2_Z by lia.
    apply Qmult_lt_r; [|assumption].
    rewrite <- (Zlt_Qlt 0). exact HD. }
  pose proof (rne_upper NN _ DD HD HNB) as Hm1.
  pose proof (rne_nonneg NN DD HD HN0) as Hm0.
  set (m := Ieee.rne NN DD) in *.
  pose proof (scaled_value_spec k m) as Hv.
  pose proof (pow2_pos k) as Hpk.
  destruct (Z.leb_spec (2 ^ Ieee.prec f) m) as [Hge|Hlt].
  - destruct (Z.eqb_spec k (Ieee.emax f - Ieee.prec f)) as [|Hne];
      [discriminate|].
    cbn [andb]. intros H; injection H as <-.
    split; [apply scaled_value_reduced|].
    assert (Em : m = (2 ^ Ieee.prec f)%Z) by lia.
    assert (Ev : Ieee.scaled_value k m == 2 ^ (Ieee.prec f + k)).
    { rewrite Hv, Em, <- pow2_Z, <- pow2_add by lia. reflexivity. }
    exists (2 ^ (Ieee.prec f - 1))%Z, (k + 1)%Z. repeat split.
    + apply Z.lt_le_incl, Zpow2_pos. lia.
    + apply Z.pow_lt_mono_r; lia.
    + unfold k. lia.
    + rewrite Ev, <- pow2_Z, <- pow2_add by lia.
      now replace (Ieee.prec f - 1 + (k + 1))%Z with (Ieee.prec f + k)%Z by lia.
    + rewrite Ev. apply pow2_lt_mono. lia.
  - cbn [andb]. intros H; injection H as <-.
    split; [apply scaled_value_reduced|].
    exists m, k. repeat split; try assumption.
    + unfold k. lia.
    + rewrite Hv.
      apply Qlt_le_trans with (2 ^ Ieee.prec f * 2 ^ k).
      * apply Qmult_lt_r; [assumption|].
        apply inject_Z_lt_pow2; [lia | assumption].
      * rewrite <- pow2_add. apply pow2_le_mono. lia.
Qed.

Lemma Qred_parts (q : Q) : Qred q = Qnum (Qred q) # Qden (Qred q).
Proof. now destruct (Qred q). Qed.

(** A non-zero number of the format is rounded to itself. *)
Lemma round_representable (q : Q) :
  Ieee.representable f q -> ~ q == 0 -> Ieee.round f q = Ieee.Fin (Qred q).
Proof.
  intros (M & K & HM & HK & Hq & Hmax) Hnz.
  unfold Ieee.round. cbv zeta.
  pose proof (Qred_correct q) as Hr. pose proof (Qred_parts q) as Hp.
  destruct (Qnum (Qred q)) as [|n|n] eqn:En.
  - exfalso. apply Hnz. rewrite <- Hr, Hp. reflexivity.
  - set (d := Qden (Qred q)) in *.
    assert (HX : Zpos n # d == inject_Z M * 2 ^ K) by (rewrite <- Hp, Hr; exact Hq).
    rewrite (round_pos_representable n d M K); try assumption.
    + rewrite <- Hp. f_equal. apply Qred_complete, Qred_correct.
    + lia.
    + rewrite <- Hp, Hr. apply Qabs_Qlt_condition in Hmax. tauto.
  - set (d := Qden (Qred q)) in *.
    assert (Hneg : Zpos n # d == - q).
    { rewrite <- Hr, Hp. reflexivity. }
    assert (HX : Zpos n # d == inject_Z (- M) * 2 ^ K).
    { rewrite Hneg, Hq, inject_Z_opp. ring. }
    rewrite (round_pos_representable n d (- M) K); try assumption.
    + assert (E : Qred (Zpos n # d) = Zpos n # d).
      { rewrite (Qred_complete _ _ Hneg), Qred_opp, Hp. reflexivity. }
      rewrite E.
      assert (Qeq_bool (Zpos n # d) 0 = false) as -> by reflexivity.
      f_equal. rewrite Hp. reflexivity.
    + lia.
    + rewrite Hneg. apply Qabs_Qlt_condition in Hmax. lra.
Qed.

(** What [round] returns, when it is finite, is a number of the format,
    in lowest terms. *)
Lemma round_is_representable (q v : Q) :
  Ieee.round f q = Ieee.Fin v -> Qred v = v /\ Ieee.representable f v.
Proof.
  unfold Ieee.round. cbv zeta.
  destruct (Qnum (Qred q)) as [|n|n].
  - intros H; injection H as <-. split; [reflexivity|].
    exists 0%Z, (Ieee.emin f). split; [|split; [|split]].
    + apply Zpow2_pos. lia.
    + lia.
    + ring.
    + apply pow2_pos.
  - destruct (Ieee.round_pos f (Zpos n) (Zpos (Qden (Qred q)))) as [w|] eqn:E;
      [|discriminate].
    intros H; injection H as <-.
    destruct (round_pos_is_representable _ _ _ E)
      as (Hred & M & K & HM & HK & Hw & Hmax).
    split; [assumption|]. exists M, K.
    split; [|split; [|split]]; try assumption.
    + lia.
    + assert (0 <= w).
      { rewrite Hw. apply Qmult_le_0_compat;
          [rewrite <- (Zle_Qle 0); lia | apply Qlt_le_weak, pow2_pos]. }
      rewrite Qabs_pos; assumption.
  - destruct (Ieee.round_pos f (Zpos n) (Zpos (Qden (Qred q)))) as [w|] eqn:E;
      [|discriminate].
    destruct (round_pos_is_representable _ _ _ E)
      as (Hred & M & K & HM & HK & Hw & Hmax).
    destruct (Qeq_bool w 0); [discriminate|].
    intros H; injection H as <-.
    split; [now rewrite Qred_opp, Hred|].
    exists (- M)%Z, K. split; [|split; [|split]]; try assumption.
    + lia.
    + rewrite Hw, inject_Z_opp. ring.
    + assert (0 <= w).
      { rewrite Hw. apply Qmult_le_0_compat;
          [rewrite <- (Zle_Qle 0); lia | apply Qlt_le_weak, pow2_pos]. }
      rewrite Qabs_opp, Qabs_pos; assumption.
Qed.

(** Rounding a second time changes nothing. *)
Lemma round_idempotent (q v : Q) :
  Ieee.round f q = Ieee.Fin v -> Ieee.round f v = Ieee.Fin v.
Proof.
  intros H. destruct (round_is_representable q v H) as [Hred Hrep].
  destruct (Qeq_dec v 0) as [Hz|Hz].
  - rewrite (round_Qeq f v 0 Hz).
    assert (E : v = 0).
    { rewrite <- Hred. rewrite (Qred_complete v 0 Hz). reflexivity. }
    now rewrite E.
  - rewrite round_representable by assumption. now rewrite Hred.
Qed.

(** Twice a number of the format is one, short of overflow. *)
Lemma representable_double (v : Q) :
  Ieee.representable f v -> Qabs v < 2 ^ (Ieee.emax f - 1) ->
  Ieee.representable f (v + v).
Proof.
  intros (M & K & HM & HK & Hv & _) Hmax.
  exists M, (K + 1)%Z. split; [|split; [|split]]; try assumption.
  - lia.
  - rewrite pow2_add. change (2 ^ 1) with 2. rewrite Hv. ring.
  - replace (Ieee.emax f) with (Ieee.emax f - 1 + 1)%Z by lia.
    rewrite pow2_add. change (2 ^ 1) with 2.
    setoid_replace (v + v) with (v * 2) by ring.
    rewrite Qabs_Qmult. change (Qabs 2) with 2.
    apply Qmult_lt_r; [reflexivity | assumption].
Qed.

End Rounding.

(** ** float64 *)

Lemma binary64_prec : (1 <= Ieee.prec Ieee.binary64)%Z.
Proof. cbn. lia. Qed.

Lemma binary64_emax : (2 <= Ieee.emax Ieee.binary64)%Z.
Proof. cbn. lia. Qed.

Lemma representable_Qeq (f : Ieee.format) (p q : Q) :
  p == q -> Ieee.representable f p -> Ieee.representable f q.
Proof.
  intros E (M & K & HM & HK & Hp & Hmax). exists M, K.
  split; [|split; [|split]]; try assumption.
  - now rewrite <- E.
  - now rewrite <- E.
Qed.

Lemma Qeq_bool_false (a b : Q) : ~ a == b -> Qeq_bool a b = false.
Proof.
  intros H. apply not_true_is_false. intros E. now apply Qeq_bool_iff in E.
Qed.

(** A number of [float64] is rounded to a value that equals it. *)
Lemma round64_exact (q : Q) :
  Ieee.representable Ieee.binary64 q ->
  exists c, Ieee.round Ieee.binary64 q = Ieee.Fin c /\ c == q /\
            Ieee.is_float Ieee.binary64 c.
Proof.
  intros Hr. destruct (Qeq_dec q 0) as [Hz|Hz].
  - exists 0. rewrite (round_Qeq _ q 0 Hz).
    split; [reflexivity|]. split; [now symmetry | reflexivity].
  - pose proof (round_representable _ binary64_prec q Hr Hz) as E.
    exists (Qred q). split; [exact E|]. split; [apply Qred_correct|].
    unfold Ieee.is_float.
    exact (round_idempotent _ binary64_prec binary64_emax _ _ E).
Qed.

Lemma is_float_representable (q : Q) :
  Ieee.is_float Ieee.binary64 q -> Ieee.representable Ieee.binary64 q.
Proof.
  intros H.
  exact (proj2 (round_is_representable _ binary64_prec binary64_emax _ _ H)).
Qed.

(** The whole numbers below [2^53] in magnitude are values of
    [float64]. *)
Lemma representable_Z (z : Z) :
  (Z.abs z < 2 ^ 53)%Z -> Ieee.representable Ieee.binary64 (inject_Z z).
Proof.
  intros Hz. exists z, 0%Z. split; [|split; [|split]].
  - exact Hz.
  - cbv. discriminate.
  - change (2 ^ 0) with 1. ring.
  - apply Qlt_le_trans with (2 ^ 53).
    + apply Qabs_Qlt_condition.
      rewrite (pow2_Z 53) by lia. rewrite <- inject_Z_opp, <- !Zlt_Qlt. lia.
    + apply pow2_le_mono. cbn. lia.
Qed.

Lemma is_float_Z (z : Z) :
  (Z.abs z < 2 ^ 53)%Z -> Ieee.is_float Ieee.binary64 (inject_Z z).
Proof.
  intros Hz. unfold Ieee.is_float.
  destruct (Z.eq_dec z 0) as [->|Hnz]; [reflexivity|].
  rewrite (round_representable _ binary64_prec).
  - now rewrite Qred_inject_Z.
  - now apply representable_Z.
  - intros E. apply Hnz. apply (inject_Z_injective z 0). exact E.
Qed.

Lemma fmax_self (x : Ieee.fnum) : Ieee.fmax x x = x.
Proof. destruct x; simpl; try reflexivity. now destruct (Qle_bool q q). Qed.

Lemma fmin_self (x : Ieee.fnum) : Ieee.fmin x x = x.
Proof. destruct x; simpl; try reflexivity. now destruct (Qle_bool q q). Qed.

(** A non-zero finite product is a rounded number. *)
Lemma fmul_Fin_round (f : Ieee.format) (u v : Ieee.fnum) (a : Q) :
  Ieee.fmul f u v = Ieee.Fin a -> ~ a == 0 ->
  exists q, Ieee.round f q = Ieee.Fin a.
Proof.
  unfold Ieee.fmul, Ieee.zero, Ieee.inf. intros H Ha.
  destruct u as [p| | | |], v as [q| | | |];
    cbn [Ieee.value Ieee.signbit] in H; try discriminate H;
    repeat match type of H with
           | context [if ?c then _ else _] => destruct c eqn:?
           end;
    try discriminate H; try (eexists; exact H);
    injection H as <-; exfalso; apply Ha; reflexivity.
Qed.

(** A finite non-zero [float64] below [2^1023] in magnitude, as the area
    of a box that meets itself: the quotient is 1. *)
Lemma float64_self_quotient (q a : Q) :
  Ieee.round Ieee.binary64 q = Ieee.Fin a ->
  ~ a == 0 -> Qabs a < 2 ^ 1023 ->
  let A := Ieee.Fin a in
  let area_i := Ieee.fmul Ieee.binary64 A (Ieee.Fin 1) in
  Ieee.fdiv Ieee.binary64 area_i
    (Ieee.fsub Ieee.binary64 (Ieee.fadd Ieee.binary64 A A) area_i)
  = Ieee.Fin 1.
Proof.
  intros Hq Ha Hmax A area_i.
  destruct (round_is_representable _ binary64_prec binary64_emax _ _ Hq)
    as [Hred Hrep].
  pose proof (round_idempotent _ binary64_prec binary64_emax _ _ Hq) as Hid.
  assert (Ei : area_i = A).
  { unfold area_i, A, Ieee.fmul. cbn [Ieee.value].
    rewrite Qeq_bool_false by (rewrite Qmult_1_r; exact Ha).
    rewrite <- Hid. apply round_Qeq. ring. }
  rewrite Ei. unfold A.
  assert (Hdbl : Ieee.fadd Ieee.binary64 (Ieee.Fin a) (Ieee.Fin a)
                 = Ieee.Fin (Qred (a + a))).
  { cbn [Ieee.fadd].
    apply (round_representable _ binary64_prec).
    - apply representable_double; assumption.
    - intros E. apply Ha. lra. }
  rewrite Hdbl. unfold Ieee.fsub. cbn [Ieee.fneg].
  rewrite (Qeq_bool_false a 0 Ha). cbn [Ieee.fadd].
  assert (E : Ieee.round Ieee.binary64 (Qred (a + a) + - a) = Ieee.Fin a).
  { rewrite <- Hid. apply round_Qeq. rewrite Qred_correct. ring. }
  rewrite E. now apply fdiv_self.
Qed.

(** A box of a [float64] table against itself. *)
Lemma float64_bbox_iou_self (offset x1 y1 x2 y2 : Ieee.fnum) (a : Q) :
  Ieee.flt x1 x2 -> Ieee.flt y1 y2 ->
  Typed.area (D := float64) offset [x1; y1; x2; y2] = Ieee.Fin a ->
  ~ a == 0 -> Qabs a < 2 ^ 1023 ->
  let b := Np.mk_ndarray [[x1; y1; x2; y2]] 4 in
  Typed.bbox_iou (D := float64) b b offset
  = Ok (Np.mk_ndarray [[Ieee.Fin 1]] 1).
Proof.
  intros Hx Hy HA Ha Hmax b. unfold Typed.bbox_iou, b.
  cbn [Np.shape1 Nat.ltb Nat.leb orb Np.rows map Np.shape0 length].
  unfold Typed.iou_entry, Typed.area_i. rewrite HA.
  unfold Typed.tl, Typed.br, Typed.top_left, Typed.bottom_right,
    Np.zip_with, Np.all.
  cbn [firstn skipn combine map fst snd forallb maximum minimum less
         float64 multiply add subtract].
  rewrite !fmax_self, !fmin_self.
  unfold Ieee.flt in Hx, Hy. rewrite Hx, Hy. cbn [andb Typed.of_bool one float64].
  unfold Typed.area, Typed.prod, Typed.top_left, Typed.bottom_right,
    Np.zip_with in HA.
  cbn [firstn skipn combine map fst snd fold_left multiply add subtract
         float64] in HA.
  unfold Typed.prod.
  cbn [fold_left multiply add subtract float64].
  rewrite HA.
  destruct (fmul_Fin_round _ _ _ _ HA Ha) as [q Hq].
  cbn [true_divide float64].
  rewrite (float64_self_quotient q a Hq Ha Hmax). reflexivity.
Qed.

(** ** The format converters on float64 boxes *)

(** [w - 1], not below zero. *)
Lemma float64_extent (w : Q) :
  1 <= w -> Ieee.representable Ieee.binary64 (w - 1) ->
  (exists c, Ieee.fmax (Ieee.fsub Ieee.binary64 (Ieee.Fin w) (Ieee.Fin 1))
                       (Ieee.Fin 0) = Ieee.Fin c /\ c == w - 1) /\
  (exists c, Ieee.fmax (Ieee.Fin 0)
                       (Ieee.fsub Ieee.binary64 (Ieee.Fin w) (Ieee.Fin 1))
             = Ieee.Fin c /\ c == w - 1).
Proof.
  intros Hw Hr.
  assert (E : Ieee.fsub Ieee.binary64 (Ieee.Fin w) (Ieee.Fin 1)
              = Ieee.round Ieee.binary64 (w - 1)) by reflexivity.
  rewrite E. destruct (round64_exact _ Hr) as (c & -> & Hc & _).
  assert (H0 : 0 <= c) by lra.
  split.
  - exists c. split; [|assumption]. cbn [Ieee.fmax Ieee.fleb].
    apply Qle_bool_iff in H0. now rewrite H0.
  - cbn [Ieee.fmax Ieee.fleb]. destruct (Qle_bool c 0) eqn:Ec.
    + exists 0. split; [reflexivity|]. apply Qle_bool_iff in Ec. lra.
    + exists c. split; [reflexivity | assumption].
Qed.

(** [x + (w - 1) - x + 1] is [w] when [w - 1] and [x + (w - 1)] are
    values of the type. *)
Lemma float64_there_and_back (x w c : Q) :
  1 <= w -> Ieee.is_float Ieee.binary64 w ->
  Ieee.representable Ieee.binary64 (w - 1) ->
  Ieee.representable Ieee.binary64 (x + (w - 1)) ->
  c == w - 1 ->
  Ieee.fadd Ieee.binary64
    (Ieee.fsub Ieee.binary64
       (Ieee.fadd Ieee.binary64 (Ieee.Fin x) (Ieee.Fin c)) (Ieee.Fin x))
    (Ieee.Fin 1)
  = Ieee.Fin w.
Proof.
  intros Hw Hf Hr1 Hr2 Hc.
  assert (E1 : Ieee.fadd Ieee.binary64 (Ieee.Fin x) (Ieee.Fin c)
               = Ieee.round Ieee.binary64 (x + (w - 1))).
  { cbn [Ieee.fadd]. apply round_Qeq. now rewrite Hc. }
  rewrite E1. destruct (round64_exact _ Hr2) as (s & -> & Hs & Hfs).
  assert (E2 : exists t, Ieee.fsub Ieee.binary64 (Ieee.Fin s) (Ieee.Fin x)
                         = Ieee.Fin t /\ t == w - 1).
  { unfold Ieee.fsub. cbn [Ieee.fneg].
    destruct (Qeq_bool x 0) eqn:Ex.
    - apply Qeq_bool_iff in Ex. cbn [Ieee.fadd].
      exists s. split; [exact Hfs|]. rewrite Hs, Ex. ring.
    - cbn [Ieee.fadd].
      assert (Eq : s + - x == w - 1) by (rewrite Hs; ring).
      rewrite (round_Qeq _ _ _ Eq).
      destruct (round64_exact _ Hr1) as (t & -> & Ht & _).
      now exists t. }
  destruct E2 as (t & -> & Ht). cbn [Ieee.fadd].
  rewrite <- Hf. apply round_Qeq. rewrite Ht. ring.
Qed.

(** The round trip on [float64] boxes on which the converters do not
    round. *)
Lemma float64_xywh_xyxy_roundtrip (v : Typed.pyobj Ieee.fnum) :
  float64_inclusive_boxes v ->
  (b <- Typed.bbox_xywh_to_xyxy (D := float64) v ;;
   Typed.bbox_xyxy_to_xywh (D := float64) b) = Ok v.
Proof.
  destruct v as [l | l | a |]; intros Hv; unfold float64_inclusive_boxes in Hv;
    try contradiction.
  - destruct l as [|[x| | | |] [|[y| | | |] [|[w| | | |] [|[h| | | |] [|]]]]];
      simpl in Hv; try contradiction.
    destruct Hv as ((Hw & Hh) & (Hfw & Hfh) & (Hw1 & Hw2) & (Hh1 & Hh2)).
    cbn [Typed.bbox_xywh_to_xyxy bind Typed.bbox_xyxy_to_xywh
           add subtract maximum zero one float64].
    destruct (float64_extent w Hw Hw1) as [(cw & -> & Hcw) _].
    destruct (float64_extent h Hh Hh1) as [(ch & -> & Hch) _].
    rewrite (float64_there_and_back x w cw), (float64_there_and_back y h ch)
      by assumption.
    reflexivity.
  - destruct Hv as [Hk Hrows].
    pose proof (typed_xywh_to_xyxy_array4 (D := float64) a Hk) as E1.
    cbn [num float64] in E1. rewrite E1. unfold bind.
    pose proof (typed_xyxy_to_xywh_array4 (D := float64)) as E2.
    cbn [num float64] in E2. rewrite E2 by reflexivity.
    do 2 f_equal. cbn [Np.rows]. rewrite map_map.
    apply array4_map_id; [assumption|]. intros r Hin.
    rewrite Forall_forall in Hrows. specialize (Hrows r Hin).
    destruct r as [|[x| | | |] [|[y| | | |] [|[w| | | |] [|[h| | | |] [|]]]]];
      simpl in Hrows; try contradiction.
    destruct Hrows as ((Hw & Hh) & (Hfw & Hfh) & (Hw1 & Hw2) & (Hh1 & Hh2)).
    cbn [Typed.top_left Typed.bottom_right firstn skipn map app
           Typed.broadcast length Nat.eqb Np.zip_with combine fst snd
           add subtract maximum zero one float64].
    destruct (float64_extent w Hw Hw1) as [_ (cw & -> & Hcw)].
    destruct (float64_extent h Hh Hh1) as [_ (ch & -> & Hch)].
    rewrite (float64_there_and_back x w cw), (float64_there_and_back y h ch)
      by assumption.
    reflexivity.
Qed.

(** ** A box with itself, and the round trip *)

(** C4, as the code has it.  For every box with [x1 < x2] and
    [y1 < y2], the single entry of [bbox_iou(b, b, offset)] is exactly
    1.0: on an [int64] table, for every offset for which the area
    [(x2 - x1 + offset) * (y2 - y1 + offset)], reduced modulo [2^64] as
    [int64] arithmetic does, is not zero; on a [float64] table, for every
    offset for which the area that [float64] arithmetic gives is finite,
    not zero and below [2^1023] in magnitude. *)
Theorem bbox_iou_self :
  (forall offset x1 y1 x2 y2 : Z,
     (x1 < x2)%Z -> (y1 < y2)%Z ->
     Int64.wrap ((x2 - x1 + offset) * (y2 - y1 + offset)) <> 0%Z ->
     let b := Np.mk_ndarray [[x1; y1; x2; y2]] 4 in
     Typed.bbox_iou (D := int64) b b offset
     = Ok (Np.mk_ndarray [[Ieee.Fin 1]] 1)) /\
  (forall (offset x1 y1 x2 y2 : Ieee.fnum) (a : Q),
     Ieee.flt x1 x2 -> Ieee.flt y1 y2 ->
     Typed.area (D := float64) offset [x1; y1; x2; y2] = Ieee.Fin a ->
     ~ a == 0 -> Qabs a < 2 ^ 1023 ->
     let b := Np.mk_ndarray [[x1; y1; x2; y2]] 4 in
     Typed.bbox_iou (D := float64) b b offset
     = Ok (Np.mk_ndarray [[Ieee.Fin 1]] 1)).
Proof.
  split.
  - exact int64_bbox_iou_self.
  - exact float64_bbox_iou_self.
Qed.

Lemma bbox_iou_self_witness :
  Typed.bbox_iou (D := int64)
    (Np.mk_ndarray [[0; 0; 10; 10]%Z] 4) (Np.mk_ndarray [[0; 0; 10; 10]%Z] 4)
    1%Z
  = Ok (Np.mk_ndarray [[Ieee.Fin 1]] 1)
  /\
  Typed.bbox_iou (D := float64)
    (Np.mk_ndarray [[Ieee.Fin 0; Ieee.Fin 0; Ieee.Fin 10; Ieee.Fin 10]] 4)
    (Np.mk_ndarray [[Ieee.Fin 0; Ieee.Fin 0; Ieee.Fin 10; Ieee.Fin 10]] 4)
    (Ieee.Fin 0)
  = Ok (Np.mk_ndarray [[Ieee.Fin 1]] 1).
Proof.
  split.
  - apply (proj1 bbox_iou_self 1 0 0 10 10)%Z; [lia | lia | ].
    vm_compute. discriminate.
  - apply (proj2 bbox_iou_self (Ieee.Fin 0) (Ieee.Fin 0) (Ieee.Fin 0)
             (Ieee.Fin 10) (Ieee.Fin 10) 100).
    + reflexivity.
    + reflexivity.
    + vm_compute. reflexivity.
    + discriminate.
    + vm_compute. reflexivity.
Defined.

(** C4 as stated fails.  On an [int64] table with [offset = 1] the
    one-pixel box (2, 2, 2, 2) has area 1, yet its overlap with itself
    is 0 because [tl < br] does not hold; and the area [2^64] of the box
    (0, 0, 2^32, 2^32) wraps to 0, so that the quotient is 0/0.  On a
    [float64] table the area of the box (0, 0, 2^600, 2^600) overflows
    and the quotient is nan, and the area [2^1023] of the box
    (0, 0, 2^512, 2^511) is finite but its double is not: the quotient
    is 0. *)
Lemma bbox_iou_self_counterexample :
  (Typed.bbox_iou (D := int64)
     (Np.mk_ndarray [[2; 2; 2; 2]%Z] 4) (Np.mk_ndarray [[2; 2; 2; 2]%Z] 4)
     1%Z
   = Ok (Np.mk_ndarray [[Ieee.Fin 0]] 1)
   /\
   Typed.bbox_iou (D := int64)
     (Np.mk_ndarray [[0; 0; 2 ^ 32; 2 ^ 32]%Z] 4)
     (Np.mk_ndarray [[0; 0; 2 ^ 32; 2 ^ 32]%Z] 4)
     0%Z
   = Ok (Np.mk_ndarray [[Ieee.NaN]] 1))
  /\
  (let b :=
     Np.mk_ndarray
       [[Ieee.Fin 0; Ieee.Fin 0; Ieee.of_Z (2 ^ 600); Ieee.of_Z (2 ^ 600)]] 4
   in
   Typed.bbox_iou (D := float64) b b (Ieee.Fin 0)
   = Ok (Np.mk_ndarray [[Ieee.NaN]] 1))
  /\
  (let b :=
     Np.mk_ndarray
       [[Ieee.Fin 0; Ieee.Fin 0; Ieee.of_Z (2 ^ 512); Ieee.of_Z (2 ^ 511)]] 4
   in
   Typed.bbox_iou (D := float64) b b (Ieee.Fin 0)
   = Ok (Np.mk_ndarray [[Ieee.Fin 0]] 1)).
Proof.
  repeat split; vm_compute; reflexivity.
Qed.

(** C6, as the code has it.  For every box (x, y, w, h) with [w >= 1]
    and [h >= 1], given as a tuple or list or as the rows of an [(N, 4)]
    array, [bbox_xyxy_to_xywh(bbox_xywh_to_xyxy(box))] returns the box:
    on [int64] boxes always, also when [x + w - 1] wraps around; on
    [float64] boxes when the converters do not round, that is when
    [w - 1], [h - 1], [x + (w - 1)] and [y + (h - 1)] are values of the
    type. *)
Theorem xywh_xyxy_roundtrip :
  (forall v : Typed.pyobj Z,
     int64_inclusive_boxes v ->
     (b <- Typed.bbox_xywh_to_xyxy (D := int64) v ;;
      Typed.bbox_xyxy_to_xywh (D := int64) b) = Ok v) /\
  (forall v : Typed.pyobj Ieee.fnum,
     float64_inclusive_boxes v ->
     (b <- Typed.bbox_xywh_to_xyxy (D := float64) v ;;
      Typed.bbox_xyxy_to_xywh (D := float64) b) = Ok v).
Proof.
  split.
  - exact int64_xywh_xyxy_roundtrip.
  - exact float64_xywh_xyxy_roundtrip.
Qed.

(** A number equal to a whole number below [2^53] in magnitude is a
    value of [float64]. *)
Lemma representable_whole (q : Q) (z : Z) :
  q == inject_Z z -> (Z.abs z < 2 ^ 53)%Z ->
  Ieee.representable Ieee.binary64 q.
Proof.
  intros E Hz. apply (representable_Qeq _ (inject_Z z)); [now symmetry|].
  now apply representable_Z.
Qed.

Lemma xywh_xyxy_roundtrip_witness :
  (b <- Typed.bbox_xywh_to_xyxy (D := int64)
          (Typed.Array2
             (Np.mk_ndarray [[0; 0; 10; 10]; [2 ^ 63 - 1; 4; 5; 2]]%Z 4)) ;;
   Typed.bbox_xyxy_to_xywh (D := int64) b)
  = Ok (Typed.Array2
          (Np.mk_ndarray [[0; 0; 10; 10]; [2 ^ 63 - 1; 4; 5; 2]]%Z 4))
  /\
  (b <- Typed.bbox_xywh_to_xyxy (D := float64)
          (Typed.Seq [Ieee.Fin 3; Ieee.Fin 4; Ieee.Fin 10; Ieee.Fin 1]) ;;
   Typed.bbox_xyxy_to_xywh (D := float64) b)
  = Ok (Typed.Seq [Ieee.Fin 3; Ieee.Fin 4; Ieee.Fin 10; Ieee.Fin 1]).
Proof.
  split.
  - apply (proj1 xywh_xyxy_roundtrip
             (Typed.Array2
                (Np.mk_ndarray [[0; 0; 10; 10]; [2 ^ 63 - 1; 4; 5; 2]]%Z 4))).
    cbn. split; [reflexivity|].
    repeat constructor; try lia; vm_compute; discriminate.
  - apply (proj2 xywh_xyxy_roundtrip
             (Typed.Seq [Ieee.Fin 3; Ieee.Fin 4; Ieee.Fin 10; Ieee.Fin 1])).
    cbn. split; [split; discriminate|].
    split; [split; vm_compute; reflexivity|].
    split; split.
    + apply (representable_whole _ 9); [reflexivity | reflexivity].
    + apply (representable_whole _ 12); [reflexivity | reflexivity].
    + apply (representable_whole _ 0); [reflexivity | reflexivity].
    + apply (representable_whole _ 4); [reflexivity | reflexivity].
Defined.

(** C6 as stated fails on [float64] boxes: for the box
    (1e16, 0, 2, 2) the sum [1e16 + 1] rounds to [1e16], and the round
    trip returns the width 1. *)
Lemma xywh_xyxy_roundtrip_counterexample :
  (b <- Typed.bbox_xywh_to_xyxy (D := float64)
          (Typed.Seq [Ieee.Fin 10000000000000000; Ieee.Fin 0;
                      Ieee.Fin 2; Ieee.Fin 2]) ;;
   Typed.bbox_xyxy_to_xywh (D := float64) b)
  = Ok (Typed.Seq [Ieee.Fin 10000000000000000; Ieee.Fin 0;
                   Ieee.Fin 1; Ieee.Fin 2]).
Proof. vm_compute. reflexivity. Qed.

(** * Properties of the floating-point reconstruction *)

(** ** The order of floating-point values and clip *)

Ltac fleb_cases :=
  simpl; try discriminate; try reflexivity; try tauto; try congruence;
  rewrite ?Qle_bool_iff in *; try lra.

Lemma fleb_not_nan (x y : Ieee.fnum) :
  Ieee.fleb x y = true -> x <> Ieee.NaN /\ y <> Ieee.NaN.
Proof. destruct x, y; simpl; try discriminate; split; discriminate. Qed.

Lemma fleb_refl (x : Ieee.fnum) : x <> Ieee.NaN -> Ieee.fleb x x = true.
Proof. destruct x; intros H; fleb_cases. Qed.

Lemma fleb_total (x y : Ieee.fnum) :
  x <> Ieee.NaN -> y <> Ieee.NaN ->
  Ieee.fleb x y = true \/ Ieee.fleb y x = true.
Proof.
  destruct x as [a| | | |], y as [b| | | |]; intros Hx Hy; simpl;
    try tauto; try congruence.
  - destruct (Qlt_le_dec b a); [right | left]; apply Qle_bool_iff; lra.
  - destruct (Qlt_le_dec 0 a); [right | left]; apply Qle_bool_iff; lra.
  - destruct (Qlt_le_dec b 0); [right | left]; apply Qle_bool_iff; lra.
Qed.

Lemma fleb_trans (x y z : Ieee.fnum) :
  Ieee.fleb x y = true -> Ieee.fleb y z = true -> Ieee.fleb x z = true.
Proof.
  destruct x, y, z; simpl; intros H1 H2; try discriminate; try reflexivity;
    rewrite ?Qle_bool_iff in *; lra.
Qed.

Lemma fmax_not_nan (x y : Ieee.fnum) :
  x <> Ieee.NaN -> y <> Ieee.NaN ->
  Ieee.fmax x y = (if Ieee.fleb y x then x else y).
Proof. destruct x, y; intros; try congruence; reflexivity. Qed.

Lemma fmin_not_nan (x y : Ieee.fnum) :
  x <> Ieee.NaN -> y <> Ieee.NaN ->
  Ieee.fmin x y = (if Ieee.fleb x y then x else y).
Proof. destruct x, y; intros; try congruence; reflexivity. Qed.

Lemma fmin_nan_r (x : Ieee.fnum) : Ieee.fmin x Ieee.NaN = Ieee.NaN.
Proof. now destruct x. Qed.

Lemma fmax_nan_r (x : Ieee.fnum) : Ieee.fmax x Ieee.NaN = Ieee.NaN.
Proof. now destruct x. Qed.

(** A value that is not nan, clipped to bounds that are not: the result
    is [hi] when [hi <= max(x, lo)], and [max(x, lo)] otherwise. *)
Lemma clip_cases (x lo hi : Ieee.fnum) :
  Ieee.clip x lo hi = Ieee.NaN \/
  (Ieee.fleb lo (Ieee.fmax x lo) = true /\
   ((Ieee.fleb hi (Ieee.fmax x lo) = true /\ Ieee.clip x lo hi = hi) \/
    (Ieee.fleb (Ieee.fmax x lo) hi = true /\
     Ieee.clip x lo hi = Ieee.fmax x lo))).
Proof.
  unfold Ieee.clip.
  destruct (Ieee.fmax x lo) as [m| | | |] eqn:Em;
    try (left; apply fmin_nan_r).
  all: destruct hi as [h| | | |]; try (left; reflexivity).
  all: assert (Hlo : lo <> Ieee.NaN)
    by (intros ->; rewrite fmax_nan_r in Em; discriminate).
  all: assert (Hx : x <> Ieee.NaN) by (intros ->; discriminate).
  all: right; split;
    [ rewrite <- Em, (fmax_not_nan x lo Hx Hlo);
      destruct (Ieee.fleb lo x) eqn:E; [exact E | now apply fleb_refl] | ].
  all: rewrite fmin_not_nan by discriminate.
  all: match goal with
       | |- (Ieee.fleb ?a ?b = true /\ _) \/ _ =>
           destruct (Bool.bool_dec (Ieee.fleb a b) true) as [E|E];
           [ left; split; [exact E | rewrite E; reflexivity]
           | apply not_true_is_false in E;
             destruct (fleb_total a b) as [H|H];
             [discriminate | discriminate | congruence | ];
             right; split; [exact H | rewrite E; reflexivity] ]
       end.
Qed.

Lemma clip_within (x lo hi : Ieee.fnum) :
  Ieee.fle lo hi -> Float.nan_or_within lo hi (Ieee.clip x lo hi).
Proof.
  unfold Ieee.fle, Float.nan_or_within. intros H.
  destruct (clip_cases x lo hi) as [E | (Hlo & [[Hhi ->] | [Hhi ->]])].
  - now left.
  - right. split; [assumption|].
    apply fleb_refl. now apply fleb_not_nan in H.
  - right. now split.
Qed.

Lemma clip_below (x lo hi : Ieee.fnum) :
  Float.nan_or_below lo hi (Ieee.clip x lo hi).
Proof.
  unfold Ieee.feq, Ieee.fle, Float.nan_or_below.
  destruct (clip_cases x lo hi) as [E | (Hlo & [[Hhi E] | [Hhi E]])].
  - split; [now left | intros _; now left].
  - rewrite E.
    assert (Hr : Ieee.fleb hi hi = true)
      by (apply fleb_refl; now apply fleb_not_nan in Hhi).
    split; [now right | intros _; right; now split].
  - rewrite E. split; [now right|].
    intros Hinv. right. split; [assumption|].
    exact (fleb_trans _ _ _ Hinv Hlo).
Qed.

(** With [hi < lo] nothing lies in [[lo, hi]]. *)
Lemma clip_inverted_outside (x lo hi : Ieee.fnum) :
  Ieee.fleb lo hi = false ->
  ~ (Ieee.fle lo (Ieee.clip x lo hi) /\ Ieee.fle (Ieee.clip x lo hi) hi).
Proof.
  unfold Ieee.fle. intros Hinv [H1 H2].
  pose proof (fleb_trans _ _ _ H1 H2). congruence.
Qed.

(** ** coef_trans_polygon on float64 tables *)

Lemma length_float_theta : length Float.theta = 360%nat.
Proof. reflexivity. Qed.

Lemma length_float_theta_list : length Float.theta_list = 360%nat.
Proof. reflexivity. Qed.

(** The angles are whole numbers of degrees, which [float32] holds. *)
Lemma cast_theta_list :
  map (Ieee.cast Ieee.binary32) Float.theta_list = Float.theta_list.
Proof. vm_compute. reflexivity. Qed.

Lemma nth_float_theta_list (i : nat) :
  (i < 360)%nat ->
  nth_error Float.theta_list i = Some (Ieee.of_Z (359 - Z.of_nat i)).
Proof.
  intros Hi. unfold Float.theta_list.
  rewrite nth_error_map.
  rewrite (nth_error_nth' _ 0%nat)
    by (rewrite length_rev, length_seq; exact Hi).
  rewrite rev_nth by (rewrite length_seq; exact Hi).
  rewrite length_seq, seq_nth by lia. cbn [option_map]. do 2 f_equal. lia.
Qed.

Lemma Forall_zip_with_pair_gen {A B : Type} (P1 : A -> Prop) (P2 : B -> Prop)
  (xs : list A) (ys : list B) :
  Forall P1 xs -> Forall P2 ys ->
  Forall (fun p => P1 (fst p) /\ P2 (snd p)) (Np.zip_with pair xs ys).
Proof.
  unfold Np.zip_with. intros Hx. revert ys.
  induction Hx as [|x xs Hx _ IH]; intros ys Hy; simpl; [constructor|].
  destruct Hy as [|y ys Hy Hys]; simpl; constructor; auto.
Qed.

Lemma Forall_map_all {A B : Type} (P : B -> Prop) (f : A -> B) (l : list A) :
  (forall a, P (f a)) -> Forall P (map f l).
Proof.
  intros H. apply Forall_forall. intros b Hb.
  apply in_map_iff in Hb. destruct Hb as (a & <- & _). apply H.
Qed.

Section FloatReconstructionFacts.

Context {N : Float.Numerics}.

Lemma float_coef_trans_polygon_rows (coefs bboxs centers : Np.ndarray Ieee.fnum) :
  Float.reconstruction_tables coefs bboxs centers ->
  Float.coef_trans_polygon coefs bboxs centers
  = Ok (map (fun t => Float.row_polygon (fst t) (fst (snd t)) (snd (snd t)))
          (combine (Np.rows coefs)
             (combine (Np.rows bboxs) (Np.rows centers)))) /\
  Np.rows bboxs
  = map (fun t => fst (snd t))
      (combine (Np.rows coefs) (combine (Np.rows bboxs) (Np.rows centers))).
Proof.
  intros (Hc & Hct & Hb4 & Hc2 & Hn & Hk). unfold Np.shape0 in Hc, Hct, Hn.
  set (T := combine (Np.rows coefs) (combine (Np.rows bboxs) (Np.rows centers))).
  assert (Ecoef : Np.rows coefs = map fst T).
  { unfold T. rewrite map_fst_combine; [reflexivity|].
    rewrite length_combine. lia. }
  assert (Ebox : Np.rows bboxs = map (fun t => fst (snd t)) T).
  { unfold T. rewrite <- (map_map snd fst).
    rewrite map_snd_combine by (rewrite length_combine; lia).
    rewrite map_fst_combine; [reflexivity | lia]. }
  assert (Ecen : Np.rows centers = map (fun t => snd (snd t)) T).
  { unfold T. rewrite <- (map_map snd snd).
    rewrite map_snd_combine by (rewrite length_combine; lia).
    rewrite map_snd_combine; [reflexivity | lia]. }
  assert (HT : (length T =? 0)%nat = false).
  { apply Nat.eqb_neq. unfold T. rewrite !length_combine. lia. }
  split; [|exact Ebox].
  unfold Float.coef_trans_polygon, Float.column, Float.cheby.
  rewrite Hb4, Hc2.
  destruct (Nat.eqb_spec (Np.shape1 coefs) 0) as [E0|_]; [lia|].
  cbn [Nat.ltb Nat.leb bind].
  rewrite Ecoef, Ebox, Ecen.
  rewrite !map_map.
  rewrite !zip_with_map_map.
  rewrite broadcast0_map_map. cbn [bind].
  rewrite !map_map, !length_map, HT. cbn [bind].
  rewrite !repeat_length.
  rewrite !zip_with_map_map.
  rewrite !map_map.
  rewrite !combine_map_map.
  rewrite !broadcast0_map_map. cbn [bind].
  rewrite !broadcast0_map_map. cbn [bind].
  rewrite !length_map, Nat.eqb_refl.
  rewrite zip_with_map_map.
  reflexivity.
Qed.

Lemma float_row_offsets_length (coef box : list Ieee.fnum) :
  length (Float.row_offsets coef box) = 360%nat.
Proof.
  unfold Float.row_offsets. rewrite zip_with_length, !length_map.
  rewrite length_float_theta, length_float_theta_list. apply Nat.min_id.
Qed.

Lemma float_row_polygon_length (coef box center : list Ieee.fnum) :
  length (Float.row_polygon coef box center) = 360%nat.
Proof.
  unfold Float.row_polygon. rewrite zip_with_length, !length_map.
  rewrite float_row_offsets_length. apply Nat.min_id.
Qed.

Lemma float_row_polygon_inside (coef box center : list Ieee.fnum) :
  Float.ordered_box box ->
  Float.nan_or_inside_box box (Float.row_polygon coef box center).
Proof.
  intros [Hx Hy]. split; [apply float_row_polygon_length|].
  unfold Float.row_polygon.
  apply (Forall_zip_with_pair_gen
           (Float.nan_or_within (Float.xmin box) (Float.xmax box))
           (Float.nan_or_within (Float.ymin box) (Float.ymax box)));
    apply Forall_map_all; intros v; now apply clip_within.
Qed.

Lemma float_row_polygon_below (coef box center : list Ieee.fnum) :
  Float.nan_or_below_upper_corner box (Float.row_polygon coef box center).
Proof.
  split; [apply float_row_polygon_length|].
  unfold Float.row_polygon.
  apply (Forall_zip_with_pair_gen
           (Float.nan_or_below (Float.xmin box) (Float.xmax box))
           (Float.nan_or_below (Float.ymin box) (Float.ymax box)));
    apply Forall_map_all; intros v; apply clip_below.
Qed.


(** X20.  Whatever the order of the corners of the boxes, no coordinate
    of a reconstructed point passes the upper corner of its box: each is
    nan or at most [xmax] (resp. [ymax]), and on an axis where the upper
    corner is not above the lower one each is nan or equal to the upper
    corner. *)
Theorem coef_trans_polygon_below_upper_corner
  (coefs bboxs centers : Np.ndarray Ieee.fnum) :
  Float.reconstruction_tables coefs bboxs centers ->
  exists polygons,
    Float.coef_trans_polygon coefs bboxs centers = Ok polygons /\
    Forall2 Float.nan_or_below_upper_corner (Np.rows bboxs) polygons.
Proof.
  intros Hin.
  destruct (float_coef_trans_polygon_rows coefs bboxs centers Hin)
    as [Hret Ebox].
  eexists. split; [exact Hret|].
  rewrite Ebox at 1. apply Forall2_map_map. intros t Ht.
  apply float_row_polygon_below.
Qed.

Lemma nth_error_zip_with {A B C : Type} (f : A -> B -> C)
  (l : list A) (l' : list B) (n : nat) (x : A) (y : B) :
  nth_error l n = Some x -> nth_error l' n = Some y ->
  nth_error (Np.zip_with f l l') n = Some (f x y).
Proof.
  intros Hx Hy. unfold Np.zip_with.
  rewrite nth_error_map, (nth_error_combine _ _ _ _ _ Hx Hy). reflexivity.
Qed.

Lemma float_row_polygon_point (coef box center : list Ieee.fnum) (i : nat) :
  (i < 360)%nat ->
  nth_error (Float.row_polygon coef box center) i
  = Some (Float.point_at coef box center i).
Proof.
  intros Hi.
  assert (Ht : nth_error Float.theta i = Some (nth i Float.theta Ieee.NaN)).
  { apply nth_error_nth'. rewrite length_float_theta. exact Hi. }
  assert (Ho : nth_error (Float.row_offsets coef box) i
               = Some (Float.polarToCart
                         (Ieee.cast Ieee.binary32
                            (Ieee.fmul Ieee.binary64
                               (Float.chebval (nth i Float.theta Ieee.NaN) coef)
                               (Float.relative_len box)))
                         (Ieee.of_Z (359 - Z.of_nat i)))).
  { unfold Float.row_offsets. rewrite cast_theta_list.
    apply nth_error_zip_with.
    - rewrite !nth_error_map, Ht. reflexivity.
    - now apply nth_float_theta_list. }
  unfold Float.row_polygon, Float.point_at.
  apply nth_error_zip_with; rewrite !nth_error_map, Ho; reflexivity.
Qed.

(** X22.  [coef_trans_polygon] pairs sample [i] of the series of a row,
    taken at the [i]-th point of [np.linspace(-1, 1, 360)], with the
    angle of [359 - i] degrees: point [i] of polygon [n] is the clipped
    sum of the center of row [n] and of what [cv.polarToCart] gives for
    that radius and that angle. *)
Theorem coef_trans_polygon_pairing
  (coefs bboxs centers : Np.ndarray Ieee.fnum)
  (polygons : list (list (Ieee.fnum * Ieee.fnum)))
  (n i : nat) (coef box center : list Ieee.fnum) :
  Float.reconstruction_tables coefs bboxs centers ->
  Float.coef_trans_polygon coefs bboxs centers = Ok polygons ->
  nth_error (Np.rows coefs) n = Some coef ->
  nth_error (Np.rows bboxs) n = Some box ->
  nth_error (Np.rows centers) n = Some center ->
  (i < 360)%nat ->
  exists poly,
    nth_error polygons n = Some poly /\
    nth_error poly i = Some (Float.point_at coef box center i).
Proof.
  intros Hin Hret Hcoef Hbox Hcen Hi.
  destruct (float_coef_trans_polygon_rows coefs bboxs centers Hin)
    as [Hrows _].
  rewrite Hrows in Hret. injection Hret as <-.
  exists (Float.row_polygon coef box center). split.
  - rewrite nth_error_map.
    rewrite (nth_error_combine _ _ _ _ _ Hcoef
               (nth_error_combine _ _ _ _ _ Hbox Hcen)).
    reflexivity.
  - now apply float_row_polygon_point.
Qed.

End FloatReconstructionFacts.


Lemma Forall_nth_error {A : Type} (P : A -> Prop) (l : list A) (i : nat)
  (x : A) :
  Forall P l -> nth_error l i = Some x -> P x.
Proof.
  intros H Hx. rewrite Forall_forall in H. apply H.
  eapply nth_error_In; eassumption.
Qed.


Lemma coef_trans_polygon_below_upper_corner_witness :
  let coefs := Np.mk_ndarray [[Ieee.Fin (1 # 2); Ieee.Fin 0]] 2 in
  let bboxs :=
    Np.mk_ndarray [[Ieee.Fin 10; Ieee.Fin 0; Ieee.Fin 0; Ieee.Fin 10]] 4 in
  let centers := Np.mk_ndarray [[Ieee.Fin 5; Ieee.Fin 5]] 2 in
  exists polygons,
    Float.coef_trans_polygon (N := Float.numerics) coefs bboxs centers
    = Ok polygons /\
    Forall2 Float.nan_or_below_upper_corner (Np.rows bboxs) polygons.
Proof.
  cbv zeta.
  apply (coef_trans_polygon_below_upper_corner (N := Float.numerics)).
  repeat split; cbv; lia.
Defined.

Lemma coef_trans_polygon_pairing_witness :
  let coefs :=
    Np.mk_ndarray [[Ieee.Fin (1 # 2); Ieee.Fin 0];
                   [Ieee.Fin (1 # 4); Ieee.Fin (1 # 8)]] 2 in
  let bboxs :=
    Np.mk_ndarray [[Ieee.Fin 0; Ieee.Fin 0; Ieee.Fin 3; Ieee.Fin 4];
                   [Ieee.Fin 10; Ieee.Fin 10; Ieee.Fin 22; Ieee.Fin 15]] 4 in
  let centers :=
    Np.mk_ndarray [[Ieee.Fin 1; Ieee.Fin 2]; [Ieee.Fin 16; Ieee.Fin 12]] 2 in
  exists polygons poly,
    Float.coef_trans_polygon (N := Float.numerics) coefs bboxs centers
    = Ok polygons /\
    nth_error polygons 1 = Some poly /\
    nth_error poly 90
    = Some (Float.point_at (N := Float.numerics)
              [Ieee.Fin (1 # 4); Ieee.Fin (1 # 8)]
              [Ieee.Fin 10; Ieee.Fin 10; Ieee.Fin 22; Ieee.Fin 15]
              [Ieee.Fin 16; Ieee.Fin 12] 90).
Proof.
  cbv zeta.
  set (coefs := Np.mk_ndarray [[Ieee.Fin (1 # 2); Ieee.Fin 0];
                               [Ieee.Fin (1 # 4); Ieee.Fin (1 # 8)]] 2).
  set (bboxs :=
         Np.mk_ndarray
           [[Ieee.Fin 0; Ieee.Fin 0; Ieee.Fin 3; Ieee.Fin 4];
            [Ieee.Fin 10; Ieee.Fin 10; Ieee.Fin 22; Ieee.Fin 15]] 4).
  set (centers :=
         Np.mk_ndarray [[Ieee.Fin 1; Ieee.Fin 2];
                        [Ieee.Fin 16; Ieee.Fin 12]] 2).
  assert (Hin : Float.reconstruction_tables coefs bboxs centers)
    by (repeat split; cbv; lia).
  destruct (float_coef_trans_polygon_rows (N := Float.numerics)
              coefs bboxs centers Hin) as [Hret _].
  destruct (coef_trans_polygon_pairing (N := Float.numerics)
              coefs bboxs centers _ 1%nat 90%nat _ _ _
              Hin Hret eq_refl eq_refl eq_refl) as (poly & Hp & Hi).
  { lia. }
  eexists. exists poly. split; [exact Hret|]. split; assumption.
Defined.

(** ** polygon_iou: degenerate polygons and rounding *)

(** C2 as stated fails: the hull constructions stand outside the [try]
    block.  The pooled points of two polygons of two points have a hull
    of area zero, yet [polygon_iou] stores no 0 for the pair:
    [Polygon] raises [ValueError], and the exception leaves
    [polygon_iou]. *)
Lemma polygon_iou_degenerate_pairs_counterexample :
  MultiPoint_convex_hull_area (Shapely := Exact.shapely) (segment ++ segment)
  = Ok 0 /\
  polygon_iou (G := Exact.shapely) [segment] [segment] = Raise ValueError /\
  polygon_iou (G := Exact.shapely) [sqA] [segment] = Raise ValueError.
Proof. repeat split; vm_compute; reflexivity. Qed.

